(** * Signals as pollable events: signalfd.c and selfpipetrick.c

    Both programs are short C [main]s that are nothing but a sequence of
    system calls, so they are embedded as programs of a small monad over a
    [world]: the memory of the process (errno, the static [pipefds] array,
    what was sent to the two output streams), the part of the Linux kernel
    state the calls act on (descriptor table, the pipe, the signal mask, the
    pending set and the disposition of SIGINT), and a [schedule] that says
    what the environment does while the program runs.

    The text of the programs follows the C source statement by statement.
    The behaviour of the system calls is not in the repository: it is taken
    from the Linux manual pages named at each definition. *)

From Stdlib Require Import ZArith List String Ascii Bool Lia.
From Stdlib Require Import DecimalString.
From stdpp Require Import gmap.

Local Open Scope Z_scope.

(** ** Constants of the system headers (Linux, x86-64) *)

Definition SIGINT : Z := 2.

Definition EINTR : Z := 4.
Definition EBADF : Z := 9.
Definition EAGAIN : Z := 11.
Definition EINVAL : Z := 22.
Definition EMFILE : Z := 24.

Definition O_RDONLY : Z := 0.
Definition O_WRONLY : Z := 1.
Definition O_RDWR : Z := 2.
Definition O_NONBLOCK : Z := 2048.      (* 04000 *)
Definition O_CLOEXEC : Z := 524288.     (* 02000000 *)

Definition F_GETFD : Z := 1.
Definition F_SETFD : Z := 2.
Definition F_GETFL : Z := 3.
Definition F_SETFL : Z := 4.
Definition FD_CLOEXEC : Z := 1.
(* the status flags F_SETFL may change:
   O_APPEND | O_NONBLOCK | O_ASYNC | O_DIRECT | O_NOATIME *)
Definition SETFL_MASK : Z := 1024 + 2048 + 8192 + 16384 + 262144.

Definition SFD_NONBLOCK : Z := O_NONBLOCK.
Definition SFD_CLOEXEC : Z := O_CLOEXEC.

Definition SIG_BLOCK : Z := 0.
Definition SIG_UNBLOCK : Z := 1.
Definition SIG_SETMASK : Z := 2.

Definition POLLIN : Z := 1.

(* pipe(7): a write of up to PIPE_BUF bytes is atomic, and a pipe holds 16
   pages, 65536 bytes *)
Definition PIPE_BUF : Z := 4096.
Definition pipe_capacity : Z := 65536.

Definition EXIT_SUCCESS : Z := 0.
Definition EXIT_FAILURE : Z := 1.

(* sizeof (struct signalfd_siginfo) *)
Definition sizeof_siginfo : Z := 128.

(** ** The C library

    [strerror] and [strsignal] are tables of the C library; the programs
    only pass their results on to the output. *)

Record libc := Libc {
  strerror : Z -> string;
  strsignal : Z -> string
}.

(* the wrap-around of a 32-bit two's complement int *)
Definition int32 (x : Z) : Z := (x + 2147483648) mod 4294967296 - 2147483648.

(* printf's %d conversion of an int argument *)
Definition fmt_d (x : Z) : string := NilZero.string_of_int (Z.to_int (int32 x)).

(** ** sigset_t, as glibc has it: bit [sig - 1] stands for signal [sig] *)

Definition sigset := Z.

Definition sigemptyset : sigset := 0.
Definition sigaddset (set : sigset) (sig : Z) : sigset := Z.lor set (Z.shiftl 1 (sig - 1)).
Definition sigdelset (set : sigset) (sig : Z) : sigset := Z.ldiff set (Z.shiftl 1 (sig - 1)).
Definition sigismember (set : sigset) (sig : Z) : bool := Z.testbit set (sig - 1).

(** ** Kernel objects *)

Inductive fkind :=
| Terminal                      (* whatever the process inherited *)
| PipeRead
| PipeWrite
| SignalFd (mask : sigset).

(* one open descriptor: the object behind it, the descriptor flags
   (F_GETFD / F_SETFD: FD_CLOEXEC only) and the file status flags
   (F_GETFL / F_SETFL: access mode, O_NONBLOCK, ...) *)
Record file := File {
  f_kind : fkind;
  f_fdflags : Z;
  f_status : Z
}.

Inductive disposition :=
| SIG_DFL              (* default action: SIGINT terminates the process *)
| Handler.             (* the function passed to signal() *)

Record kernel := Kernel {
  k_fds : gmap Z file;            (* descriptor table *)
  k_pipe : list Byte.byte;        (* bytes written to the pipe and not read yet *)
  k_blocked : sigset;             (* signal mask of the thread *)
  k_pending : sigset;             (* signals generated while blocked *)
  k_sigint : disposition
}.

(** ** The environment

    A [reply] tells how the kernel answers one system call; an [event] is
    one thing that happens to the process. *)

Inductive reply :=
| Normal                                  (* the call is carried out as the manual page says *)
| Fault (e : Z)                           (* the call fails with errno [e] and has no effect *)
| Returns (n : N) (data : list Byte.byte).
  (* [Returns]: poll and read only. The call returns [n] (read: with [data]
     in the buffer) whatever the modelled objects hold; every other call
     takes it as [Normal]. *)

Inductive event :=
| Sigint (r : reply)       (* a SIGINT for the process: generated and left pending
                              when SIGINT is blocked, delivered before anything
                              else happens when it is not; [r] answers the write
                              of the handler, should the handler run *)
| Complete (r : reply)     (* the system call the main program is in completes *)
| Coalesced (n : nat) (r : reply).
  (* [Coalesced]: [n] + 1 SIGINTs, each generated before the process has
     taken the one before it.  Standard signals are not queued (signal(7)):
     at most one is pending, the others are merged with it, and what the
     process gets is one SIGINT; [r] is as for [Sigint]. *)

(** ** What a run leaves behind: the calls made and the signals received *)

Inductive sysres :=
| Done (n : Z)
| Fail (e : Z).

Inductive call :=
| Pipe (fds : Z * Z)                      (* pipe(pipefds); [fds] is the array when the call returns *)
| Fcntl (fd cmd arg : Z)
| Signal (sig : Z)                        (* signal(sig, signal_action) *)
| Sigprocmask (how : Z) (set : sigset)
| Signalfd (fd : Z) (mask : sigset) (flags : Z)
| Poll (fd events timeout : Z)            (* poll of one struct pollfd *)
| Read (fd count : Z)
| Write (fd : Z) (buf : list Byte.byte).

Inductive fate :=
| Held        (* blocked: the signal became pending *)
| Merged      (* generated while one was pending, blocked or not yet delivered:
                 merged with it *)
| Caught      (* the handler ran *)
| Lethal.     (* default action *)

Inductive entry :=
| Called (c : call) (r : sysres)
| Arrived (f : fate).

(** ** The world *)

Record world := World {
  kern : kernel;
  errno : Z;
  pipefds : Z * Z;              (* static int pipefds[2] = {0}   (selfpipetrick.c:20) *)
  stdout : list string;         (* one element for each printf *)
  stderr : list string;         (* one element for each perror *)
  sched : list event;           (* what is still to happen *)
  trace : list entry            (* what has happened, oldest first *)
}.

Definition set_kern (k : kernel) (w : world) : world :=
  World k (errno w) (pipefds w) (stdout w) (stderr w) (sched w) (trace w).
Definition set_errno (e : Z) (w : world) : world :=
  World (kern w) e (pipefds w) (stdout w) (stderr w) (sched w) (trace w).
Definition set_pipefds (p : Z * Z) (w : world) : world :=
  World (kern w) (errno w) p (stdout w) (stderr w) (sched w) (trace w).
Definition put_stdout (s : string) (w : world) : world :=
  World (kern w) (errno w) (pipefds w) (stdout w ++ [s]) (stderr w) (sched w) (trace w).
Definition put_stderr (s : string) (w : world) : world :=
  World (kern w) (errno w) (pipefds w) (stdout w) (stderr w ++ [s]) (sched w) (trace w).
Definition set_sched (evs : list event) (w : world) : world :=
  World (kern w) (errno w) (pipefds w) (stdout w) (stderr w) evs (trace w).
Definition log (e : entry) (w : world) : world :=
  World (kern w) (errno w) (pipefds w) (stdout w) (stderr w) (sched w) (trace w ++ [e]).

Definition set_fds (t : gmap Z file) (k : kernel) : kernel :=
  Kernel t (k_pipe k) (k_blocked k) (k_pending k) (k_sigint k).
Definition set_pipe (p : list Byte.byte) (k : kernel) : kernel :=
  Kernel (k_fds k) p (k_blocked k) (k_pending k) (k_sigint k).
Definition set_blocked (m : sigset) (k : kernel) : kernel :=
  Kernel (k_fds k) (k_pipe k) m (k_pending k) (k_sigint k).
Definition set_pending (m : sigset) (k : kernel) : kernel :=
  Kernel (k_fds k) (k_pipe k) (k_blocked k) m (k_sigint k).
Definition set_sigint (d : disposition) (k : kernel) : kernel :=
  Kernel (k_fds k) (k_pipe k) (k_blocked k) (k_pending k) d.

(* a process as execve leaves it: the inherited descriptors, no signal
   blocked or pending, SIGINT at its default action, static storage zeroed *)
Definition boot (inherited : gmap Z file) (evs : list event) : world :=
  World (Kernel inherited [] 0 0 SIG_DFL) 0 (0, 0) [] [] evs [].

(** ** The monad of programs *)

Inductive outcome (A : Type) :=
| Ret (a : A)          (* ran to completion *)
| Exit (status : Z)    (* exit() was called *)
| Killed               (* terminated by SIGINT *)
| Pending.             (* inside a system call that has not returned: the schedule
                          is used up, or the call blocks and nothing can wake it *)
Arguments Ret {A} a.
Arguments Exit {A} status.
Arguments Killed {A}.
Arguments Pending {A}.

Definition M (A : Type) : Type := world -> outcome A * world.

Definition ret {A} (a : A) : M A := fun w => (Ret a, w).

Definition bind {A B} (m : M A) (k : A -> M B) : M B :=
  fun w =>
    match m w with
    | (Ret a, w') => k a w'
    | (Exit c, w') => (Exit c, w')
    | (Killed, w') => (Killed, w')
    | (Pending, w') => (Pending, w')
    end.

Notation "x <- m ;; k" := (bind m (fun x => k))
  (at level 100, m at next level, right associativity).
Notation "m ;;; k" := (bind m (fun _ => k))
  (at level 100, right associativity).

Definition gets {A} (f : world -> A) : M A := fun w => (Ret (f w), w).
Definition modify (f : world -> world) : M unit := fun w => (Ret tt, f w).

(* exit(status): the process is gone, nothing after the call runs *)
Definition exit {A} (status : Z) : M A := fun w => (Exit status, w).

(* printf with the text already formatted *)
Definition printf (text : string) : M unit := modify (put_stdout text).

Section WithLibc.
Variable L : libc.

(* perror(desc): "desc: " followed by the message for the current errno *)
Definition perror (desc : string) : M unit :=
  fun w => (Ret tt, put_stderr (desc ++ ": " ++ strerror L (errno w) ++ String "010" "")%string w).

End WithLibc.

(** ** What the kernel does for each call

    Pure functions on the kernel state, one for each system call the two
    programs make.  Sources: pipe(2), fcntl(2), signal(2), sigprocmask(2),
    signalfd(2), poll(2), read(2), write(2), pipe(7) and signal(7).  A call
    that has to wait for something gives [Pending]. *)

(* a new descriptor is the lowest number that is not open *)
Definition lowest_free (t : gmap Z file) : Z :=
  let n := Z.of_nat (size t) in
  default n (find (fun fd => bool_decide (t !! fd = None)) (seqZ 0 n)).

(* pipe(): two new descriptors, the read end first; both are created
   blocking (no O_NONBLOCK) and without FD_CLOEXEC *)
Definition do_pipe (k : kernel) : (Z * Z) * kernel :=
  let r := lowest_free (k_fds k) in
  let t := <[r := File PipeRead 0 O_RDONLY]> (k_fds k) in
  let w := lowest_free t in
  ((r, w), set_fds (<[w := File PipeWrite 0 O_WRONLY]> t) k).

(* fcntl(fd, cmd, arg).  F_SETFD writes the descriptor flags, of which
   FD_CLOEXEC is the only one; F_SETFL writes the file status flags. *)
Definition do_fcntl (fd cmd arg : Z) (k : kernel) : sysres * kernel :=
  match k_fds k !! fd with
  | None => (Fail EBADF, k)
  | Some f =>
      if cmd =? F_GETFD then (Done (f_fdflags f), k)
      else if cmd =? F_SETFD then
        (Done 0,
         set_fds (<[fd := File (f_kind f) (Z.land arg FD_CLOEXEC) (f_status f)]> (k_fds k)) k)
      else if cmd =? F_GETFL then (Done (f_status f), k)
      else if cmd =? F_SETFL then
        (Done 0,
         set_fds (<[fd := File (f_kind f) (f_fdflags f)
                            (Z.lor (Z.ldiff (f_status f) SETFL_MASK) (Z.land arg SETFL_MASK))]>
                    (k_fds k)) k)
      else (Fail EINVAL, k)
  end.

(* what signal() returns for the previous disposition: SIG_DFL is the null
   pointer, 1 stands for the address of the handler *)
Definition address (d : disposition) : Z :=
  match d with SIG_DFL => 0 | Handler => 1 end.

(* signal(sig, handler): only the disposition of SIGINT is kept *)
Definition do_signal (sig : Z) (k : kernel) : sysres * kernel :=
  if sig =? SIGINT then (Done (address (k_sigint k)), set_sigint Handler k)
  else (Done 0, k).

(* sigprocmask(how, set, NULL).  A pending signal that the new mask no
   longer blocks would be delivered here; neither program ever unblocks a
   signal and the model leaves it pending. *)
Definition do_sigprocmask (how : Z) (set : sigset) (k : kernel) : sysres * kernel :=
  if how =? SIG_BLOCK then (Done 0, set_blocked (Z.lor (k_blocked k) set) k)
  else if how =? SIG_UNBLOCK then (Done 0, set_blocked (Z.ldiff (k_blocked k) set) k)
  else if how =? SIG_SETMASK then (Done 0, set_blocked set k)
  else (Fail EINVAL, k).

(* signalfd(fd, mask, flags): with fd = -1 a new descriptor, otherwise the
   mask of an existing signalfd descriptor is replaced *)
Definition do_signalfd (fd : Z) (mask : sigset) (flags : Z) (k : kernel) : sysres * kernel :=
  if negb (Z.ldiff flags (Z.lor SFD_NONBLOCK SFD_CLOEXEC) =? 0) then (Fail EINVAL, k)
  else if fd =? -1 then
    let n := lowest_free (k_fds k) in
    (Done n,
     set_fds (<[n := File (SignalFd mask)
                       (if Z.land flags SFD_CLOEXEC =? 0 then 0 else FD_CLOEXEC)
                       (Z.lor O_RDWR (Z.land flags SFD_NONBLOCK))]> (k_fds k)) k)
  else
    match k_fds k !! fd with
    | None => (Fail EBADF, k)
    | Some f =>
        match f_kind f with
        | SignalFd _ =>
            (Done fd, set_fds (<[fd := File (SignalFd mask) (f_fdflags f) (f_status f)]> (k_fds k)) k)
        | _ => (Fail EINVAL, k)
        end
    end.

(* is there something to read? *)
Definition readable (k : kernel) (f : file) : bool :=
  match f_kind f with
  | PipeRead => match k_pipe k with [] => false | _ :: _ => true end
  | SignalFd mask => negb (Z.land (k_pending k) mask =? 0)
  | PipeWrite => false
  | Terminal => false                 (* the model has no terminal input *)
  end.

(* poll() of one struct pollfd {fd, events}.  A negative fd is ignored; a
   descriptor that is not open is reported (POLLNVAL) and counts.  With
   nothing to report the call returns 0 when the timeout runs out and never
   when the timeout is negative. *)
Definition do_poll (fd events timeout : Z) (k : kernel) : outcome sysres :=
  let reported :=
    if fd <? 0 then false
    else match k_fds k !! fd with
         | None => true
         | Some f => negb (Z.land events POLLIN =? 0) && readable k f
         end in
  if reported then Ret (Done 1)
  else if timeout <? 0 then Pending
  else Ret (Done 0).

(* little-endian bytes of a uint32_t, and back *)
Definition byte_of (x : Z) : Byte.byte :=
  match Byte.of_N (Z.to_N (x mod 256)) with Some b => b | None => Byte.x00 end.
Definition le32 (x : Z) : list Byte.byte :=
  [byte_of x; byte_of (Z.shiftr x 8); byte_of (Z.shiftr x 16); byte_of (Z.shiftr x 24)].
Definition byte_at (i : nat) (buf : list Byte.byte) : Z :=
  Z.of_N (Byte.to_N (nth i buf Byte.x00)).
Definition uint32_at (i : nat) (buf : list Byte.byte) : Z :=
  byte_at i buf + 256 * byte_at (i + 1) buf + 65536 * byte_at (i + 2) buf
  + 16777216 * byte_at (i + 3) buf.

(* the record a signalfd read returns: uint32_t ssi_signo comes first; the
   other 124 bytes describe the sender and are not looked at by the program *)
Definition siginfo_record (signo : Z) : list Byte.byte :=
  le32 signo ++ repeat Byte.x00 124.

(* read(fd, buf, count): the result and the bytes stored in the buffer.
   With nothing to read, a descriptor with O_NONBLOCK fails with EAGAIN and
   one without it blocks. *)
Definition do_read (fd count : Z) (k : kernel) : outcome (sysres * list Byte.byte) * kernel :=
  match k_fds k !! fd with
  | None => (Ret (Fail EBADF, []), k)
  | Some f =>
      let nothing : outcome (sysres * list Byte.byte) :=
        if Z.land (f_status f) O_NONBLOCK =? 0 then Pending else Ret (Fail EAGAIN, []) in
      match f_kind f with
      | PipeRead =>
          match k_pipe k with
          | [] => (nothing, k)
          | _ :: _ =>
              let got := take (Z.to_nat count) (k_pipe k) in
              (Ret (Done (Z.of_nat (length got)), got),
               set_pipe (drop (Z.to_nat count) (k_pipe k)) k)
          end
      | SignalFd mask =>
          if count <? sizeof_siginfo then (Ret (Fail EINVAL, []), k)
          else if sigismember (Z.land (k_pending k) mask) SIGINT then
            (Ret (Done sizeof_siginfo, siginfo_record SIGINT),
             set_pending (sigdelset (k_pending k) SIGINT) k)
          else (nothing, k)
      | PipeWrite => (Ret (Fail EBADF, []), k)
      | Terminal => (Pending, k)
      end
  end.

(* write(fd, buf, count) with count = length buf.  On a pipe (pipe(7)): what
   fits is written.  A write of up to PIPE_BUF bytes is all or nothing: when
   there is no room for all of it, a descriptor with O_NONBLOCK fails with
   EAGAIN and one without it blocks.  A longer write puts in what fits, and
   then returns that count with O_NONBLOCK and blocks without it. *)
Definition do_write (fd : Z) (buf : list Byte.byte) (k : kernel) : outcome sysres * kernel :=
  match k_fds k !! fd with
  | None => (Ret (Fail EBADF), k)
  | Some f =>
      match f_kind f with
      | PipeWrite =>
          let n := Z.of_nat (length buf) in
          let room := pipe_capacity - Z.of_nat (length (k_pipe k)) in
          let full : outcome sysres :=
            if Z.land (f_status f) O_NONBLOCK =? 0 then Pending else Ret (Fail EAGAIN) in
          if n <=? room then (Ret (Done n), set_pipe (k_pipe k ++ buf) k)
          else if (n <=? PIPE_BUF) || (room <=? 0) then (full, k)
          else
            ((if Z.land (f_status f) O_NONBLOCK =? 0 then Pending else Ret (Done room)),
             set_pipe (k_pipe k ++ take (Z.to_nat room) buf) k)
      | Terminal => (Ret (Done (Z.of_nat (length buf))), k)
      | PipeRead => (Ret (Fail EBADF), k)
      | SignalFd _ => (Ret (Fail EINVAL), k)
      end
  end.

(** ** System calls as the program sees them

    The C library turns a failure into the return value -1 and stores the
    error in errno; success leaves errno alone.  Every call is added to the
    trace. *)

Definition answer (c : call) (r : sysres) : M Z :=
  fun w =>
    match r with
    | Done n => (Ret n, log (Called c r) w)
    | Fail e => (Ret (-1), set_errno e (log (Called c r) w))
    end.

(* carry a call out on the kernel state *)
Definition perform (c : call) (op : kernel -> sysres * kernel) : M Z :=
  fun w => let (r, k) := op (kern w) in answer c r (set_kern k w).

(* write(), called from the signal handler: [rep] is the reply that came
   with the signal.  While the handler runs SIGINT is blocked (signal(2),
   the BSD semantics glibc gives to signal()) and the main program does not
   run: nothing wakes a handler whose write blocks. *)
Definition write (rep : reply) (fd : Z) (buf : list Byte.byte) : M Z :=
  match rep with
  | Fault e => answer (Write fd buf) (Fail e)
  | _ => fun w =>
      match do_write fd buf (kern w) with
      | (Ret r, k) => answer (Write fd buf) r (set_kern k w)
      | (_, k) => (Pending, set_kern k w)
      end
  end.

Section SystemCalls.

(* the code at the address given to signal() *)
Variable handler : reply -> M unit.

(* A SIGINT is generated.  Blocked, it is recorded as pending, once however
   often it comes; otherwise the disposition decides. *)
Definition take_sigint (rep : reply) : M unit :=
  fun w =>
    let k := kern w in
    if sigismember (k_blocked k) SIGINT then
      (Ret tt,
       log (Arrived (if sigismember (k_pending k) SIGINT then Merged else Held))
           (set_kern (set_pending (sigaddset (k_pending k) SIGINT) k) w))
    else
      match k_sigint k with
      | SIG_DFL => (Killed, log (Arrived Lethal) w)
      | Handler => handler rep (log (Arrived Caught) w)
      end.

(* A SIGINT that was generated while the one before it had not been taken
   by the process yet.  Blocked, it is recorded like any other; otherwise
   it was merged with that one. *)
Definition merge_sigint : M unit :=
  fun w =>
    if sigismember (k_blocked (kern w)) SIGINT then take_sigint Normal w
    else (Ret tt, log (Arrived Merged) w).

Fixpoint merge_sigints (n : nat) : M unit :=
  match n with
  | O => ret tt
  | S n' => merge_sigint ;;; merge_sigints n'
  end.

(* [n] + 1 SIGINTs of which the process gets one: it takes the first, which
   ends it when that is the disposition; the others are noted in the trace
   after it and have no effect of their own *)
Definition take_coalesced (n : nat) (rep : reply) : M unit :=
  take_sigint rep ;;; merge_sigints n.

(* Entering a system call: the signals that come before the call completes
   are taken first, then the reply to the call is known.  Signals reach the
   main program at its system calls only. *)
Fixpoint enter_from (evs : list event) : M reply :=
  match evs with
  | [] => fun w => (Pending, set_sched [] w)
  | Complete rep :: rest => fun w => (Ret rep, set_sched rest w)
  | Sigint rep :: rest =>
      (modify (set_sched rest) ;;; take_sigint rep) ;;; enter_from rest
  | Coalesced n rep :: rest =>
      (modify (set_sched rest) ;;; take_coalesced n rep) ;;; enter_from rest
  end.

Definition enter : M reply := fun w => enter_from (sched w) w.

(* A call that has to wait puts the process to sleep, and the next event
   wakes it.  After a SIGINT whose handler ran, a call that is restarted
   goes on as before (signal() of glibc installs the handler with
   SA_RESTART) and one that is never restarted (poll, signal(7)) fails with
   EINTR; a SIGINT that is blocked interrupts nothing. *)
Definition resumed (restarts : bool) (w : world) : reply :=
  if restarts || sigismember (k_blocked (kern w)) SIGINT then Normal else Fault EINTR.

Definition wake (restarts : bool) (ev : event) : M reply :=
  match ev with
  | Complete rep => ret rep
  | Sigint rep => fun w => (take_sigint rep ;;; ret (resumed restarts w)) w
  | Coalesced n rep => fun w => (take_coalesced n rep ;;; ret (resumed restarts w)) w
  end.

Section Blocking.
Context {A : Type}.
Variable restarts : bool.

(* [attempt wait rep]: the call under the reply [rep]; it goes on as [wait]
   when it has to wait *)
Variable attempt : M A -> reply -> M A.

Fixpoint asleep (evs : list event) : M A :=
  match evs with
  | [] => fun w => (Pending, set_sched [] w)
  | ev :: rest =>
      rep <- (modify (set_sched rest) ;;; wake restarts ev) ;;
      attempt (asleep rest) rep
  end.

(* a call that may have to wait *)
Definition blocking : M A :=
  rep <- enter ;;
  attempt (fun w => asleep (sched w) w) rep.

End Blocking.

(* a call that either fails or is carried out *)
Definition syscall (c : call) (op : kernel -> sysres * kernel) : M Z :=
  rep <- enter ;;
  match rep with
  | Fault e => answer c (Fail e)
  | _ => perform c op
  end.

(* pipe(pipefds): the kernel stores the two descriptors in the array *)
Definition pipe : M Z :=
  rep <- enter ;;
  match rep with
  | Fault e => fun w => answer (Pipe (pipefds w)) (Fail e) w
  | _ => fun w =>
      let (fds, k) := do_pipe (kern w) in
      answer (Pipe fds) (Done 0) (set_pipefds fds (set_kern k w))
  end.

Definition fcntl (fd cmd arg : Z) : M Z :=
  syscall (Fcntl fd cmd arg) (do_fcntl fd cmd arg).

(* signal(sig, handler): SIG_ERR, which is -1, on failure *)
Definition signal (sig : Z) : M Z :=
  syscall (Signal sig) (do_signal sig).

Definition sigprocmask (how : Z) (set : sigset) : M Z :=
  syscall (Sigprocmask how set) (do_sigprocmask how set).

Definition signalfd (fd : Z) (mask : sigset) (flags : Z) : M Z :=
  syscall (Signalfd fd mask flags) (do_signalfd fd mask flags).

(* poll(&pollfd, 1, timeout) with pollfd = {fd, events} *)
Definition poll_with (fd events timeout : Z) (wait : M Z) (rep : reply) : M Z :=
  match rep with
  | Fault e => answer (Poll fd events timeout) (Fail e)
  | Returns n _ => answer (Poll fd events timeout) (Done (Z.of_N n))
  | Normal => fun w =>
      match do_poll fd events timeout (kern w) with
      | Ret r => answer (Poll fd events timeout) r w
      | _ => wait w
      end
  end.

Definition poll (fd events timeout : Z) : M Z :=
  blocking false (poll_with fd events timeout).

(* read(fd, buf, count): the return value and the bytes now in buf *)
Definition read_with (fd count : Z) (wait : M (Z * list Byte.byte)) (rep : reply)
    : M (Z * list Byte.byte) :=
  match rep with
  | Fault e => r <- answer (Read fd count) (Fail e) ;; ret (r, [])
  | Returns n data => r <- answer (Read fd count) (Done (Z.of_N n)) ;; ret (r, take (N.to_nat n) data)
  | Normal => fun w =>
      match do_read fd count (kern w) with
      | (Ret (r, got), k) => (r' <- answer (Read fd count) r ;; ret (r', got)) (set_kern k w)
      | _ => wait w
      end
  end.

Definition read (fd count : Z) : M (Z * list Byte.byte) :=
  blocking true (read_with fd count).

End SystemCalls.

(** ** Loops

    A loop is unrolled at most once more than there are events left in the
    schedule; [while_fuel_enough] and [forever_fuel_enough] show that this
    is as good as any larger number for a body that takes an event each
    time round, which both programs' loops do. *)

Fixpoint while_fuel (fuel : nat) (cond : M bool) (body : M unit) : M unit :=
  match fuel with
  | O => fun w => (Pending, w)
  | S fuel' =>
      c <- cond ;;
      if c then body ;;; while_fuel fuel' cond body else ret tt
  end.

Definition while (cond : M bool) (body : M unit) : M unit :=
  fun w => while_fuel (S (length (sched w))) cond body w.

(* for (;;) body *)
Fixpoint forever_fuel {A} (fuel : nat) (body : M unit) : M A :=
  match fuel with
  | O => fun w => (Pending, w)
  | S fuel' => body ;;; forever_fuel fuel' body
  end.

Definition forever {A} (body : M unit) : M A :=
  fun w => forever_fuel (S (length (sched w))) body w.

Definition newline : string := String "010" "".

(** ** signalfd.c *)

Module SignalFd.
Section Program.
Variable L : libc.

(* the program installs no handler *)
Definition no_handler (rep : reply) : M unit := ret tt.

(* void handle_signal(int signal_fd)                       signalfd.c:34-49 *)
Definition handle_signal (signal_fd : Z) : M unit :=
  r <- read no_handler signal_fd sizeof_siginfo ;;
  let s := fst r in
  let siginfo := snd r in
  (if negb (s =? sizeof_siginfo) then perror L "read" ;;; exit 1 else ret tt) ;;;
  let signo := uint32_at 0 siginfo in            (* siginfo.ssi_signo *)
  let signame := strsignal L (int32 signo) in    (* strsignal takes an int *)
  printf ("Received signal " ++ fmt_d signo ++ " (" ++ signame ++ ")" ++ newline)%string.

(* signalfd.c:14-25: the mask, sigprocmask, signalfd and the pollfd, whose
   fd field is the result of signalfd; no return value is looked at *)
Definition setup : M Z :=
  let mask := sigemptyset in
  let mask := sigaddset mask SIGINT in
  _ <- sigprocmask no_handler SIG_SETMASK mask ;;
  signal_fd <- signalfd no_handler (-1) mask SFD_NONBLOCK ;;
  ret signal_fd.

(* signalfd.c:27-30:  while (poll(&pollfd, 1, 5000) > 0) handle_signal(pollfd.fd); *)
Definition wait_ready (pollfd_fd : Z) : M bool :=
  r <- poll no_handler pollfd_fd POLLIN 5000 ;; ret (r >? 0).

Definition event_loop (pollfd_fd : Z) : M unit :=
  while (wait_ready pollfd_fd) (handle_signal pollfd_fd).

(* int main(): control reaches the closing brace, which returns 0 *)
Definition main : M Z :=
  pollfd_fd <- setup ;;
  event_loop pollfd_fd ;;;
  ret 0.

End Program.
End SignalFd.

(** ** selfpipetrick.c *)

Module SelfPipe.
Section Program.
Variable L : libc.

(* void handle_err(char *desc)                        selfpipetrick.c:14-18 *)
Definition handle_err (desc : string) : M unit :=
  perror L desc ;;; exit EXIT_FAILURE.

(* void signal_action(int signum)                     selfpipetrick.c:22-28
   the value of write() is dropped *)
Definition signal_action (signum : Z) (rep : reply) : M unit :=
  let empty := [Byte.x00] in
  write_fd <- gets (fun w => snd (pipefds w)) ;;
  _ <- write rep write_fd empty ;;
  ret tt.

(* what runs when SIGINT is handled *)
Definition on_sigint : reply -> M unit := signal_action SIGINT.

(* void handle_signal(int signal_fd)                  selfpipetrick.c:30-38 *)
Definition handle_signal (signal_fd : Z) : M unit :=
  r <- read on_sigint signal_fd 1 ;;
  (if negb (fst r =? 1) then handle_err "read" else ret tt) ;;;
  printf ("Received signal" ++ newline)%string.

(* selfpipetrick.c:42-57: pipe, the two fcntl calls, signal; the value is
   read_fd *)
Definition setup : M Z :=
  rc <- pipe on_sigint ;;
  (if rc =? -1 then handle_err "pipe" else ret tt) ;;;
  fd0 <- gets (fun w => fst (pipefds w)) ;;
  rc <- fcntl on_sigint fd0 F_SETFD O_NONBLOCK ;;
  (if rc =? -1 then handle_err "fcntl" else ret tt) ;;;
  fd1 <- gets (fun w => snd (pipefds w)) ;;
  rc <- fcntl on_sigint fd1 F_SETFD O_NONBLOCK ;;
  (if rc =? -1 then handle_err "fcntl" else ret tt) ;;;
  read_fd <- gets (fun w => fst (pipefds w)) ;;
  _ <- signal on_sigint SIGINT ;;
  ret read_fd.

(* selfpipetrick.c:67-85: switch (poll_result).  [case -1] has no break:
   after handle_err the text runs on into [default]. *)
Definition switch (read_fd poll_result : Z) : M unit :=
  if poll_result =? 0 then
    printf ("Poll timed out without any signals" ++ newline)%string ;;;
    exit EXIT_SUCCESS
  else if poll_result =? -1 then
    e <- gets errno ;;
    if e =? EINTR then ret tt                        (* continue *)
    else handle_err "poll" ;;; handle_signal read_fd
  else handle_signal read_fd.                        (* default: ... break *)

(* selfpipetrick.c:66-85: the body of for (;;) *)
Definition iteration (read_fd : Z) : M unit :=
  poll_result <- poll on_sigint read_fd POLLIN 5000 ;;
  switch read_fd poll_result.

(* int main() *)
Definition main : M Z :=
  read_fd <- setup ;;
  forever (iteration read_fd).

End Program.
End SelfPipe.

(** ** Observations *)

(* the exit status of the process, once it has one: the argument of exit()
   or the value main returned *)
Definition exit_status (o : outcome Z) : option Z :=
  match o with
  | Ret v => Some v
  | Exit c => Some c
  | Killed | Pending => None
  end.

(* the standard descriptors of a process started from a shell *)
Definition stdio : gmap Z file :=
  <[0 := File Terminal 0 O_RDWR]> (<[1 := File Terminal 0 O_RDWR]> (<[2 := File Terminal 0 O_RDWR]> ∅)).

(* a few rows of the tables of glibc *)
Definition glibc : libc :=
  Libc (fun e => if (e =? 0)%Z then "Success"
                 else if (e =? EINTR)%Z then "Interrupted system call"
                 else if (e =? EBADF)%Z then "Bad file descriptor"
                 else if (e =? EAGAIN)%Z then "Resource temporarily unavailable"
                 else if (e =? EINVAL)%Z then "Invalid argument"
                 else if (e =? EMFILE)%Z then "Too many open files"
                 else ("Unknown error " ++ fmt_d e))%string
       (fun s => if (s =? SIGINT)%Z then "Interrupt"
                 else ("Unknown signal " ++ fmt_d s))%string.

(** ** Assertions about programs *)

(* how a program stops without a value *)
Inductive halt :=
| Exited (status : Z)
| Died
| Stuck.

(* [Q] for the value of a program that ran to completion, [E] for the ways
   it can stop short of that *)
Definition post {A} (Q : A -> world -> Prop) (E : halt -> world -> Prop)
    (r : outcome A * world) : Prop :=
  match r with
  | (Ret a, w) => Q a w
  | (Exit c, w) => E (Exited c) w
  | (Killed, w) => E Died w
  | (Pending, w) => E Stuck w
  end.

Definition triple {A} (P : world -> Prop) (m : M A)
    (Q : A -> world -> Prop) (E : halt -> world -> Prop) : Prop :=
  forall w, P w -> post Q E (m w).

(* a program that takes at least one event from the schedule before it
   completes, and one that puts none back *)
Definition spends {A} (m : M A) : Prop :=
  forall w, post (fun _ w' => (length (sched w') < length (sched w))%nat) (fun _ _ => True) (m w).
Definition keeps {A} (m : M A) : Prop :=
  forall w, post (fun _ w' => (length (sched w') <= length (sched w))%nat) (fun _ _ => True) (m w).

(* a program that leaves the schedule as it is *)
Definition steady {A} (m : M A) : Prop :=
  forall w, post (fun _ w' => sched w' = sched w) (fun _ _ => True) (m w).

(* a program that takes events from the front of the schedule, one at least
   before it completes *)
Definition consumes {A} (m : M A) : Prop :=
  forall w,
    post (fun _ w' => exists taken, taken <> [] /\ sched w = taken ++ sched w')
         (fun _ _ => True) (m w).

(* a program that keeps [J] true, however it ends *)
Definition preserves (J : world -> Prop) {A} (m : M A) : Prop :=
  forall w, J w -> post (fun _ w' => J w') (fun _ w' => J w') (m w).

(** ** Reading a trace *)

Definition is_poll (e : entry) : bool :=
  match e with Called (Poll _ _ _) _ => true | _ => false end.
Definition is_read (e : entry) : bool :=
  match e with Called (Read _ _) _ => true | _ => false end.
Definition is_arrival (e : entry) : bool :=
  match e with Arrived _ => true | _ => false end.
Definition is_caught (e : entry) : bool :=
  match e with Arrived Caught => true | _ => false end.
Definition is_held (e : entry) : bool :=
  match e with Arrived Held => true | _ => false end.
Definition is_merged (e : entry) : bool :=
  match e with Arrived Merged => true | _ => false end.

(* how many entries of a kind *)
Definition tally (p : entry -> bool) (tr : list entry) : nat :=
  length (filter (fun e => p e = true) tr).

(* the two output streams hold [out] and [err] *)
Definition streams (out err : list string) (w : world) : Prop :=
  stdout w = out /\ stderr w = err.

(* the messages of selfpipetrick.c *)
Definition timeout_message : string := ("Poll timed out without any signals" ++ newline)%string.
Definition received_message : string := ("Received signal" ++ newline)%string.

(* what perror prints for [desc] when errno is [e] *)
Definition diagnostic (L : libc) (desc : string) (e : Z) : string :=
  (desc ++ ": " ++ strerror L e ++ newline)%string.

Definition is_digit (c : ascii) : bool :=
  (48 <=? nat_of_ascii c)%nat && (nat_of_ascii c <=? 57)%nat.

(* what the output of a process shows of a run *)
Definition observable (r : outcome Z * world) : option Z * list string * list string :=
  (exit_status (fst r), stdout (snd r), stderr (snd r)).

(** ** Some worlds to run the programs in *)

(* signalfd.c after its set-up, with the given events to come *)
Definition signalfd_world (evs : list event) : world :=
  set_sched evs (snd (SignalFd.setup (boot stdio [Complete Normal; Complete Normal]))).

(* selfpipetrick.c after its set-up, with the given events to come *)
Definition selfpipe_world (evs : list event) : world :=
  set_sched evs
    (snd (SelfPipe.setup glibc
            (boot stdio [Complete Normal; Complete Normal; Complete Normal; Complete Normal]))).



(* signalfd.c when signalfd() is refused for want of descriptors *)
Definition signalfd_refused : outcome Z * world :=
  SignalFd.main glibc (boot stdio [Complete Normal; Complete (Fault EMFILE); Complete Normal]).


(** ** Invariants of selfpipetrick.c *)

(* an event of a run in which nothing goes wrong: signals, merged or not,
   whose handler's write is carried out, and calls that are carried out or
   interrupted *)
Definition calm (ev : event) : bool :=
  match ev with
  | Sigint Normal => true
  | Coalesced _ Normal => true
  | Complete Normal => true
  | Complete (Fault e) => e =? EINTR
  | _ => false
  end.

(* pipefds holds the two ends of the pipe as pipe() made them, and SIGINT
   is not blocked *)
Definition wired (r wr : Z) (w : world) : Prop :=
  pipefds w = (r, wr) /\ 0 <= r /\
  k_fds (kern w) !! r = Some (File PipeRead 0 O_RDONLY) /\
  k_fds (kern w) !! wr = Some (File PipeWrite 0 O_WRONLY) /\
  sigismember (k_blocked (kern w)) SIGINT = false.

(* the trace of a set-up that got as far as signal() *)
Definition setup_trace (r wr : Z) (res : sysres) : list entry :=
  [Called (Pipe (r, wr)) (Done 0);
   Called (Fcntl r F_SETFD O_NONBLOCK) (Done 0);
   Called (Fcntl wr F_SETFD O_NONBLOCK) (Done 0);
   Called (Signal SIGINT) res].

Definition is_zero_byte (buf : list Byte.byte) : bool :=
  match buf with
  | [b] => Byte.eqb b Byte.x00
  | _ => false
  end.

(* what the loop adds to the trace: polls, reads, signals, and writes of
   one zero byte to [wr] *)
Definition in_loop (wr : Z) (e : entry) : bool :=
  match e with
  | Called (Write fd buf) _ => (fd =? wr) && is_zero_byte buf
  | Called (Poll _ _ _) _ => true
  | Called (Read _ _) _ => true
  | Arrived _ => true
  | Called _ _ => false
  end.

(* what the set-up adds to the trace before it has called signal() *)
Definition in_setup (e : entry) : bool :=
  match e with
  | Called (Pipe _) _ => true
  | Called (Fcntl _ _ _) _ => true
  | Arrived Lethal => true
  | _ => false
  end.

Definition looping (r wr : Z) (w : world) : Prop :=
  wired r wr w /\
  exists res rest, trace w = setup_trace r wr res ++ rest /\ forallb (in_loop wr) rest = true.

(* one line for each signal caught, but for those whose byte is still in
   the pipe; and every signal that came was caught or merged with one that
   was *)
Definition tallied (w : world) : Prop :=
  exists k,
    stdout w = repeat received_message k /\ stderr w = [] /\
    (k + length (k_pipe (kern w)))%nat = tally is_caught (trace w) /\
    tally is_arrival (trace w) = (tally is_caught (trace w) + tally is_merged (trace w))%nat.

(* in a strict run every event still to come is calm *)
Definition calmly (strict : Prop) (evs : list event) : Prop :=
  Forall (fun ev => strict -> calm ev = true) evs.

(* the invariant of the loop of selfpipetrick.c; the count of lines is kept
   in the runs that are strict; [n] bytes at least are in the pipe *)
Definition selfpipe_inv (strict : Prop) (r wr : Z) (n : nat) (w : world) : Prop :=
  looping r wr w /\
  (strict -> tallied w /\ (n <= length (k_pipe (kern w)))%nat).

(* the ways the loop of selfpipetrick.c stops *)
Definition selfpipe_halt (strict : Prop) (r wr : Z) (h : halt) (w : world) : Prop :=
  looping r wr w /\
  match h with
  | Exited c =>
      strict -> c = EXIT_SUCCESS ->
      stdout w = repeat received_message (tally is_caught (trace w)) ++ [timeout_message] /\
      tally is_arrival (trace w)
      = (tally is_caught (trace w) + tally is_merged (trace w))%nat
  | Died => True
  | Stuck => True
  end.

(* a process that has not yet changed the disposition of SIGINT nor blocked
   it, has printed nothing, and has [tr] for its trace *)
Definition starting (strict : Prop) (tr : list entry) (w : world) : Prop :=
  k_sigint (kern w) = SIG_DFL /\
  sigismember (k_blocked (kern w)) SIGINT = false /\
  k_pipe (kern w) = [] /\
  stdout w = [] /\ stderr w = [] /\
  trace w = tr /\
  calmly strict (sched w).

(* the ways the set-up of selfpipetrick.c stops *)
Definition setup_halt (h : halt) (w : world) : Prop :=
  forallb in_setup (trace w) = true /\
  stdout w = [] /\
  match h with
  | Exited c => c = EXIT_FAILURE
  | _ => True
  end.

(* after a call of the set-up has returned [rc]: either it failed, or
   [good] holds *)
Definition checked (rc : Z) (good : world -> Prop) (w : world) : Prop :=
  (rc = -1 /\ forallb in_setup (trace w) = true /\ stdout w = []) \/
  (rc <> -1 /\ good w).

(* the ways selfpipetrick.c stops: in its set-up, or in its loop *)
Definition selfpipe_main_halt (strict : Prop) (h : halt) (w : world) : Prop :=
  setup_halt h w \/ exists r wr, selfpipe_halt strict r wr h w.

(** ** Invariants of signalfd.c *)

(* an event of a run in which every call is carried out and the signals
   come one by one *)
Definition quiet (ev : event) : bool :=
  match ev with
  | Sigint Normal => true
  | Complete Normal => true
  | _ => false
  end.

(* the mask of signalfd.c *)
Definition sigint_mask : sigset := sigaddset sigemptyset SIGINT.

(* the line signalfd.c prints for a SIGINT *)
Definition sigint_line (L : libc) : string :=
  ("Received signal 2 (" ++ strsignal L 2 ++ ")" ++ newline)%string.

(* SIGINT is blocked, at most SIGINT is pending, there is one line for each
   SIGINT that was held, but for the one that is still pending, and every
   SIGINT that came was held or merged *)
Definition masked (L : libc) (w : world) : Prop :=
  sigismember (k_blocked (kern w)) SIGINT = true /\
  (k_pending (kern w) = 0 \/ k_pending (kern w) = sigint_mask) /\
  exists k,
    stdout w = repeat (sigint_line L) k /\ stderr w = [] /\
    (k + (if (k_pending (kern w) =? 0)%Z then 0 else 1))%nat = tally is_held (trace w) /\
    tally is_arrival (trace w) = (tally is_held (trace w) + tally is_merged (trace w))%nat.

(* signalfd.c does not exit in a quiet run *)
Definition signalfd_halt (h : halt) (w : world) : Prop :=
  match h with
  | Exited _ => False
  | Died => True
  | Stuck => True
  end.

(* the invariant of a quiet run of signalfd.c: [fd], once there is one, is
   the signalfd descriptor; with [must] a SIGINT is pending *)
Definition signalfd_inv (L : libc) (fd : option Z) (must : bool) (w : world) : Prop :=
  masked L w /\
  (must = true -> k_pending (kern w) = sigint_mask) /\
  match fd with
  | Some fd =>
      0 <= fd /\
      k_fds (kern w) !! fd = Some (File (SignalFd sigint_mask) 0 (Z.lor O_RDWR O_NONBLOCK))
  | None => True
  end.

(** ** A run in which the signals come one at a time *)

(* one SIGINT, then the poll and the read that serve it *)
Definition round : list event := [Sigint Normal; Complete Normal; Complete Normal].

(* [n] signals, each served before the next comes, then a poll that finds
   nothing until its timeout *)
Fixpoint served (n : nat) : list event :=
  match n with
  | O => [Complete Normal]
  | S n' => round ++ served n'
  end.

(* the schedules of the set-ups when every call is carried out *)
Definition selfpipe_setup_ok : list event :=
  [Complete Normal; Complete Normal; Complete Normal; Complete Normal].
Definition signalfd_setup_ok : list event :=
  [Complete Normal; Complete Normal].

(* the pipe is in place and empty, and the handler is installed *)
Definition idle (r wr : Z) (w : world) : Prop :=
  wired r wr w /\ k_sigint (kern w) = Handler /\ k_pipe (kern w) = [].

(* the signalfd descriptor is in place, SIGINT is blocked, none is pending *)
Definition waiting (fd : Z) (w : world) : Prop :=
  0 <= fd /\
  k_fds (kern w) !! fd = Some (File (SignalFd sigint_mask) 0 (Z.lor O_RDWR O_NONBLOCK)) /\
  sigismember (k_blocked (kern w)) SIGINT = true /\
  k_pending (kern w) = 0.



(** ** More to say about runs *)

(* a change of the kernel state that leaves the disposition of SIGINT and
   the signal mask as they are *)
Definition same_signals (k k' : kernel) : Prop :=
  k_sigint k' = k_sigint k /\ k_blocked k' = k_blocked k.

(* a read that returned [n] *)
Definition is_read_of (n : Z) (e : entry) : bool :=
  match e with
  | Called (Read _ _) (Done m) => m =? n
  | _ => false
  end.

(* the names selfpipetrick.c gives to handle_err *)
Definition selfpipe_descs : list string :=
  ["pipe"%string; "fcntl"%string; "poll"%string; "read"%string].

(* selfpipetrick.c since [w0]: [k] lines on stdout, nothing on stderr, and
   [j] reads that returned 1 *)
Definition told (w0 : world) (k j : nat) (w : world) : Prop :=
  stdout w = stdout w0 ++ repeat received_message k /\
  stderr w = stderr w0 /\
  tally (is_read_of 1) (trace w) = (tally (is_read_of 1) (trace w0) + j)%nat.

(* the ways selfpipetrick.c, started in [w0], stops *)
Definition selfpipe_stop (L : libc) (w0 : world) (h : halt) (w : world) : Prop :=
  exists k,
    tally (is_read_of 1) (trace w) = (tally (is_read_of 1) (trace w0) + k)%nat /\
    match h with
    | Exited c =>
        (c = EXIT_SUCCESS /\
         stdout w = stdout w0 ++ repeat received_message k ++ [timeout_message] /\
         stderr w = stderr w0) \/
        (c = EXIT_FAILURE /\
         stdout w = stdout w0 ++ repeat received_message k /\
         exists desc, In desc selfpipe_descs /\
           stderr w = stderr w0 ++ [diagnostic L desc (errno w)])
    | Died | Stuck =>
        stdout w = stdout w0 ++ repeat received_message k /\ stderr w = stderr w0
    end.

(* the line signalfd.c prints for a record whose ssi_signo is [signo] *)
Definition signal_line (L : libc) (signo : Z) : string :=
  ("Received signal " ++ fmt_d signo ++ " (" ++ strsignal L (int32 signo) ++ ")" ++ newline)%string.

Definition is_signal_line (L : libc) (s : string) : Prop :=
  exists signo, 0 <= signo < 4294967296 /\ s = signal_line L signo.

(* signalfd.c since [w0]: the [lines] on stdout, nothing on stderr, as many
   reads as lines, and [p] polls *)
Definition reported (L : libc) (w0 : world) (lines : list string) (p : nat) (w : world) : Prop :=
  Forall (is_signal_line L) lines /\
  stdout w = stdout w0 ++ lines /\
  stderr w = stderr w0 /\
  tally is_read (trace w) = (tally is_read (trace w0) + length lines)%nat /\
  tally is_poll (trace w) = (tally is_poll (trace w0) + p)%nat.

(* the ways signalfd.c, started in [w0], stops *)
Definition signalfd_stop (L : libc) (w0 : world) (h : halt) (w : world) : Prop :=
  exists lines,
    Forall (is_signal_line L) lines /\
    stdout w = stdout w0 ++ lines /\
    match h with
    | Exited c =>
        c = 1 /\
        stderr w = stderr w0 ++ [diagnostic L "read" (errno w)] /\
        tally is_read (trace w) = (tally is_read (trace w0) + length lines + 1)%nat /\
        tally is_poll (trace w) = (tally is_poll (trace w0) + length lines + 1)%nat
    | Died | Stuck =>
        stderr w = stderr w0 /\
        tally is_read (trace w) = (tally is_read (trace w0) + length lines)%nat
    end.

(** ** When SIGINT can end the process *)

(* a signal() that succeeded, and a sigprocmask() that succeeded *)
Definition is_signal_done (e : entry) : bool :=
  match e with
  | Called (Signal _) (Done _) => true
  | _ => false
  end.
Definition is_sigprocmask_done (e : entry) : bool :=
  match e with
  | Called (Sigprocmask _ _) (Done _) => true
  | _ => false
  end.

(* [exposed] says of a kernel state that SIGINT may still end the process,
   [p] marks the call that puts an end to that: while the process is
   exposed there is no such call in its trace *)
Definition unguarded (exposed : kernel -> Prop) (p : entry -> bool) (w : world) : Prop :=
  exposed (kern w) -> tally p (trace w) = 0%nat.

(* a process that was killed was killed by a SIGINT, the last thing in its
   trace, and before any call marked by [p] *)
Definition killed_unguarded (p : entry -> bool) (h : halt) (w : world) : Prop :=
  h = Died -> tally p (trace w) = 0%nat /\ exists tr, trace w = tr ++ [Arrived Lethal].

(* selfpipetrick.c is exposed while SIGINT has its default action,
   signalfd.c while SIGINT is not blocked *)
Definition handler_missing (k : kernel) : Prop := k_sigint k = SIG_DFL.
Definition sigint_unblocked (k : kernel) : Prop := sigismember (k_blocked k) SIGINT = false.

(** ** Runs in which every call is carried out *)

(* selfpipetrick.c in such a run: the pipe is in place and holds [n] bytes
   at least, stderr is empty, and every read so far has returned 1 *)
Definition sound (r wr : Z) (n : nat) (w : world) : Prop :=
  wired r wr w /\ (n <= length (k_pipe (kern w)))%nat /\
  stderr w = [] /\ tally is_read (trace w) = tally (is_read_of 1) (trace w).

(* the ways it stops: never by a failure *)
Definition clean_stop (h : halt) (w : world) : Prop :=
  stderr w = [] /\ tally is_read (trace w) = tally (is_read_of 1) (trace w) /\
  match h with
  | Exited c => c = EXIT_SUCCESS
  | _ => True
  end.

(* the process before signal() and with SIGINT not blocked, when the events
   to come are all quiet *)
Definition fresh (w : world) : Prop :=
  k_sigint (kern w) = SIG_DFL /\ sigismember (k_blocked (kern w)) SIGINT = false /\
  stderr w = [] /\ tally is_read (trace w) = tally (is_read_of 1) (trace w) /\
  Forall (fun ev => quiet ev = true) (sched w).

(** ** Signals that come in a burst *)

(* [n] SIGINTs with no call between them, each taken by the process before
   the next is generated *)
Definition burst (n : nat) : list event := repeat (Sigint Normal) n.

(* [n] calls that are carried out *)
Definition carried_out (n : nat) : list event := repeat (Complete Normal) n.

(* the pipe is in place and the handler is installed *)
Definition installed (r wr : Z) (w : world) : Prop :=
  wired r wr w /\ k_sigint (kern w) = Handler.

(* the signalfd descriptor is in place, SIGINT is blocked, and one is
   pending *)
Definition armed (fd : Z) (w : world) : Prop :=
  0 <= fd /\
  k_fds (kern w) !! fd = Some (File (SignalFd sigint_mask) 0 (Z.lor O_RDWR O_NONBLOCK)) /\
  sigismember (k_blocked (kern w)) SIGINT = true /\
  k_pending (kern w) = sigint_mask.

(* [n] SIGINTs for each of which the write of the handler fails with [e] *)
Definition lost_burst (e : Z) (n : nat) : list event := repeat (Sigint (Fault e)) n.

(** ** The calls of the two loops *)




(** ** How much the pipe holds *)


(** ** Schedules in which the signals stop *)

(* how many SIGINTs a schedule holds, and how many completions of calls *)
Fixpoint signals (s : list event) : nat :=
  match s with
  | [] => 0
  | Sigint _ :: s' => S (signals s')
  | Coalesced n _ :: s' => S (n + signals s')
  | Complete _ :: s' => signals s'
  end.

Fixpoint completions (s : list event) : nat :=
  match s with
  | [] => 0
  | Sigint _ :: s' => completions s'
  | Coalesced _ _ :: s' => completions s'
  | Complete _ :: s' => S (completions s')
  end.

(* three SIGINTs, one of which comes while the loop is in its read, and
   the calls that serve them *)
Definition mixed_run : list event :=
  [Sigint Normal; Complete Normal; Sigint Normal; Sigint Normal] ++ carried_out 6.

(** * Proofs *)

(** ** Rules *)

Lemma post_bind {A B} (m : M A) (k : A -> M B) R Q E w :
  post R E (m w) ->
  (forall a w', R a w' -> post Q E (k a w')) ->
  post Q E (bind m k w).
Proof.
  unfold bind. destruct (m w) as [[a|c| |] w']; simpl; auto.
Qed.

Lemma post_weaken {A} (Q Q' : A -> world -> Prop) (E E' : halt -> world -> Prop) r :
  post Q E r ->
  (forall a w, Q a w -> Q' a w) ->
  (forall h w, E h w -> E' h w) ->
  post Q' E' r.
Proof.
  destruct r as [[a|c| |] w]; simpl; auto.
Qed.

Lemma forever_fuel_post {A} (I : world -> Prop) (body : M unit) E :
  (forall w, I w ->
     post (fun _ w' => I w' /\ (length (sched w') < length (sched w))%nat) E (body w)) ->
  forall n w, I w -> (length (sched w) < n)%nat ->
    post (fun (_ : A) _ => False) E (forever_fuel n body w).
Proof.
  intros Hbody n. induction n as [|n IH]; intros w HI Hn; [lia|].
  simpl. eapply post_bind; [apply Hbody, HI|].
  intros _ w' [HI' Hlt]. apply IH; [done|lia].
Qed.

Lemma forever_post {A} (I : world -> Prop) (body : M unit) E :
  (forall w, I w ->
     post (fun _ w' => I w' /\ (length (sched w') < length (sched w))%nat) E (body w)) ->
  triple I (@forever A body) (fun _ _ => False) E.
Proof.
  intros Hbody w HI. unfold forever. eapply forever_fuel_post; eauto.
Qed.

Lemma while_fuel_post (P B Q : world -> Prop) (cond : M bool) (body : M unit) E :
  (forall w, P w ->
     post (fun (c : bool) w' => (if c then B w' else Q w') /\
                       (length (sched w') < length (sched w))%nat) E (cond w)) ->
  (forall w, B w ->
     post (fun _ w' => P w' /\ (length (sched w') <= length (sched w))%nat) E (body w)) ->
  forall n w, P w -> (length (sched w) < n)%nat ->
    post (fun _ w' => Q w') E (while_fuel n cond body w).
Proof.
  intros Hcond Hbody n. induction n as [|n IH]; intros w HI Hn; [lia|].
  simpl. eapply post_bind; [apply Hcond, HI|].
  intros [|] w1 [H1 Hlt1]; [|exact H1].
  eapply post_bind; [apply Hbody, H1|].
  intros ? w2 [H2 Hle2]. apply IH; [done|lia].
Qed.

Lemma while_post (P B Q : world -> Prop) (cond : M bool) (body : M unit) E :
  (forall w, P w ->
     post (fun (c : bool) w' => (if c then B w' else Q w') /\
                       (length (sched w') < length (sched w))%nat) E (cond w)) ->
  (forall w, B w ->
     post (fun _ w' => P w' /\ (length (sched w') <= length (sched w))%nat) E (body w)) ->
  triple P (while cond body) (fun _ w' => Q w') E.
Proof.
  intros Hcond Hbody w HI. unfold while. eapply while_fuel_post; eauto.
Qed.

Lemma post_and {A} (Q1 Q2 : A -> world -> Prop) (E1 E2 : halt -> world -> Prop) r :
  post Q1 E1 r -> post Q2 E2 r ->
  post (fun a w => Q1 a w /\ Q2 a w) (fun h w => E1 h w /\ E2 h w) r.
Proof. destruct r as [[a|c| |] w]; simpl; auto. Qed.

Lemma post_trivial {A} (r : outcome A * world) : post (fun _ _ => True) (fun _ _ => True) r.
Proof. by destruct r as [[a|c| |] w]. Qed.

(* what goes for every stop, and something that goes for the value besides *)
Lemma post_with {A} (Q R : A -> world -> Prop) E r :
  post Q E r -> post R (fun _ _ => True) r -> post (fun a w => Q a w /\ R a w) E r.
Proof. destruct r as [[a|c| |] w]; simpl; auto. Qed.

(** ** The fuel of the loops is enough *)

Lemma forever_fuel_enough {A} (body : M unit) :
  spends body ->
  forall n m w, (length (sched w) < n)%nat -> (length (sched w) < m)%nat ->
    @forever_fuel A n body w = forever_fuel m body w.
Proof.
  intros Hb n. induction n as [|n IH]; intros m w Hn Hm; [lia|].
  destruct m as [|m]; [lia|]. simpl. unfold bind.
  specialize (Hb w). destruct (body w) as [[a|c| |] w']; simpl in *; try done.
  apply IH; lia.
Qed.

Lemma forever_unfold {A} (body : M unit) :
  spends body ->
  forall w, @forever A body w = (body ;;; forever body) w.
Proof.
  intros Hb w. unfold forever at 1. simpl. unfold bind.
  pose proof (Hb w) as Hw. destruct (body w) as [[a|c| |] w']; simpl in *; try done.
  unfold forever. apply forever_fuel_enough; [done|lia..].
Qed.

Lemma while_fuel_enough (cond : M bool) (body : M unit) :
  spends cond -> keeps body ->
  forall n m w, (length (sched w) < n)%nat -> (length (sched w) < m)%nat ->
    while_fuel n cond body w = while_fuel m cond body w.
Proof.
  intros Hc Hb n. induction n as [|n IH]; intros m w Hn Hm; [lia|].
  destruct m as [|m]; [lia|]. simpl. unfold bind.
  specialize (Hc w). destruct (cond w) as [[[|]|c| |] w1]; simpl in *; try done.
  specialize (Hb w1). destruct (body w1) as [[a|c| |] w2]; simpl in *; try done.
  apply IH; lia.
Qed.

Lemma while_unfold (cond : M bool) (body : M unit) :
  spends cond -> keeps body ->
  forall w, while cond body w =
            (c <- cond ;; if c then body ;;; while cond body else ret tt) w.
Proof.
  intros Hc Hb w. unfold while at 1. simpl. unfold bind.
  pose proof (Hc w) as Hw. destruct (cond w) as [[[|]|c| |] w1]; simpl in *; try done.
  pose proof (Hb w1) as Hw1. destruct (body w1) as [[a|c| |] w2]; simpl in *; try done.
  unfold while. apply while_fuel_enough; [done|done|lia..].
Qed.

(** ** New descriptors *)

Lemma lowest_free_nonneg (t : gmap Z file) : 0 <= lowest_free t.
Proof.
  unfold lowest_free.
  destruct (find _ _) as [fd|] eqn:E; simpl; [|lia].
  apply find_some in E as [E _].
  apply list_elem_of_In, elem_of_seqZ in E. lia.
Qed.

Lemma lowest_free_free (t : gmap Z file) : t !! lowest_free t = None.
Proof.
  unfold lowest_free.
  destruct (find _ _) as [fd|] eqn:E; simpl.
  - apply find_some in E as [_ E]. by apply bool_decide_eq_true in E.
  - destruct (t !! Z.of_nat (size t)) as [f|] eqn:Hn; [|done].
    exfalso.
    assert (Hall : forall i, 0 <= i < Z.of_nat (size t) -> is_Some (t !! i)).
    { intros i Hi.
      assert (Hin : In i (seqZ 0 (Z.of_nat (size t)))).
      { apply list_elem_of_In, elem_of_seqZ. lia. }
      apply (find_none _ _ E) in Hin.
      apply bool_decide_eq_false in Hin.
      destruct (t !! i); [eauto|done]. }
    assert (Hsub : (list_to_set (seqZ 0 (Z.of_nat (size t) + 1)) : gset Z) ⊆ dom t).
    { intros i Hi. apply elem_of_list_to_set, elem_of_seqZ in Hi.
      apply elem_of_dom.
      destruct (decide (i = Z.of_nat (size t))) as [->|]; [eauto|].
      apply Hall. lia. }
    apply subseteq_size in Hsub.
    rewrite size_list_to_set in Hsub by apply NoDup_seqZ.
    rewrite length_seqZ, size_dom in Hsub. lia.
Qed.

(** ** Entering a system call *)

Section EnterRule.
Variable handler : reply -> M unit.
Variable J : world -> Prop.
Variable ok : event -> Prop.
Variable E : halt -> world -> Prop.
Hypothesis J_sched : forall w evs, J w -> J (set_sched evs w).
Hypothesis J_sigint : forall rep w,
  ok (Sigint rep) -> J w -> post (fun _ w' => J w') E (take_sigint handler rep w).
Hypothesis J_coalesced : forall n rep w,
  ok (Coalesced n rep) -> J w -> post (fun _ w' => J w') E (take_coalesced handler n rep w).
Hypothesis E_stuck : forall w, J w -> sched w = [] -> E Stuck w.

Lemma enter_from_post evs w :
  J w -> Forall ok evs ->
  post (fun rep w' => J w' /\ Forall ok (sched w') /\ ok (Complete rep) /\
                      (length (sched w') < length evs)%nat)
       E (enter_from handler evs w).
Proof using All.
  revert w. induction evs as [|[rep|rep|n rep] rest IH]; intros w HJ Hok; simpl.
  - apply E_stuck; [by apply J_sched|done].
  - apply Forall_cons in Hok as [Hrep Hrest].
    apply post_bind with (R := fun _ w' => J w').
    + unfold bind, modify. simpl. apply J_sigint; [done|by apply J_sched].
    + intros _ w' HJ'. eapply post_weaken; [apply IH; done| |done].
      simpl. intros a w2 (? & ? & ? & ?). repeat split; [done..|lia].
  - apply Forall_cons in Hok as [Hrep Hrest].
    repeat split; [by apply J_sched|done|done|simpl; lia].
  - apply Forall_cons in Hok as [Hrep Hrest].
    apply post_bind with (R := fun _ w' => J w').
    + unfold bind at 1, modify. simpl. apply J_coalesced; [done|by apply J_sched].
    + intros _ w' HJ'. eapply post_weaken; [apply IH; done| |done].
      simpl. intros a w2 (? & ? & ? & ?). repeat split; [done..|lia].
Qed.

Lemma enter_post w :
  J w -> Forall ok (sched w) ->
  post (fun rep w' => J w' /\ Forall ok (sched w') /\ ok (Complete rep) /\
                      (length (sched w') < length (sched w))%nat)
       E (enter handler w).
Proof using All.
  apply enter_from_post.
Qed.

End EnterRule.

(** ** Signals that are merged *)

Section CoalescedRule.
Variable handler : reply -> M unit.
Variable J : world -> Prop.
Variable E : halt -> world -> Prop.
Hypothesis J_merged : forall w, J w -> J (log (Arrived Merged) w).
Hypothesis J_held : forall w,
  J w -> sigismember (k_blocked (kern w)) SIGINT = true ->
  post (fun _ w' => J w') E (take_sigint handler Normal w).

Lemma merge_sigint_post w : J w -> post (fun _ w' => J w') E (merge_sigint handler w).
Proof using All.
  intros HJ. unfold merge_sigint.
  destruct (sigismember (k_blocked (kern w)) SIGINT) eqn:Hb; [by apply J_held|].
  simpl. by apply J_merged.
Qed.

Lemma merge_sigints_post n w : J w -> post (fun _ w' => J w') E (merge_sigints handler n w).
Proof using All.
  revert w. induction n as [|n IH]; intros w HJ; simpl; [done|].
  eapply post_bind; [by apply merge_sigint_post|]. intros ? w' HJ'. by apply IH.
Qed.

Lemma coalesced_post n rep w :
  (forall w, J w -> post (fun _ w' => J w') E (take_sigint handler rep w)) ->
  J w -> post (fun _ w' => J w') E (take_coalesced handler n rep w).
Proof using All.
  intros Hrep HJ. unfold take_coalesced.
  eapply post_bind; [by apply Hrep|]. intros ? w' HJ'. by apply merge_sigints_post.
Qed.

End CoalescedRule.

(** ** A call that may have to wait *)

Section BlockingRule.
Context {A : Type}.
Variable handler : reply -> M unit.
Variable restarts : bool.
Variable attempt : M A -> reply -> M A.
Variable J : world -> Prop.
Variable ok : event -> Prop.
Variable Q : A -> world -> Prop.
Variable E : halt -> world -> Prop.
Hypothesis J_sched : forall w evs, J w -> J (set_sched evs w).
Hypothesis J_sigint : forall rep w,
  ok (Sigint rep) -> J w -> post (fun _ w' => J w') E (take_sigint handler rep w).
Hypothesis J_coalesced : forall n rep w,
  ok (Coalesced n rep) -> J w -> post (fun _ w' => J w') E (take_coalesced handler n rep w).
Hypothesis E_stuck : forall w, J w -> sched w = [] -> E Stuck w.
Hypothesis ok_resumed : forall w, J w -> ok (Complete (resumed restarts w)).
Hypothesis J_attempt : forall (R : A -> world -> Prop) wait rep w,
  ok (Complete rep) -> J w ->
  (forall a w', Q a w' -> R a w') ->
  (forall w', J w' -> sched w' = sched w -> post R E (wait w')) ->
  post R E (attempt wait rep w).

Lemma wake_post ev w :
  J w -> ok ev ->
  post (fun rep w' => J w' /\ ok (Complete rep)) E (wake handler restarts ev w).
Proof using J_sigint J_coalesced ok_resumed.
  intros HJ Hev. destruct ev as [rep|rep|n rep]; simpl.
  - eapply post_bind; [by apply J_sigint|]. intros ? w' HJ'. unfold ret. simpl.
    split; [done|by apply ok_resumed].
  - done.
  - eapply post_bind; [by apply J_coalesced|]. intros ? w' HJ'. unfold ret. simpl.
    split; [done|by apply ok_resumed].
Qed.

Lemma asleep_post evs w :
  J w -> Forall ok evs -> post Q E (asleep handler restarts attempt evs w).
Proof using All.
  revert w. induction evs as [|ev rest IH]; intros w HJ Hok; simpl.
  - apply E_stuck; [by apply J_sched|done].
  - apply Forall_cons in Hok as [Hev Hrest].
    eapply post_bind.
    + unfold bind, modify. simpl. apply wake_post; [by apply J_sched|done].
    + intros rep w1 [H1 Hrep]. apply J_attempt; auto.
Qed.

Lemma blocking_post w :
  J w -> Forall ok (sched w) -> post Q E (blocking handler restarts attempt w).
Proof using All.
  intros HJ Hok. unfold blocking.
  eapply post_bind; [by apply (enter_post handler J ok E)|].
  intros rep w0 (H0 & Hok0 & Hrep & _).
  apply J_attempt; auto. intros w1 H1 Hs. apply asleep_post; [done|]. by rewrite Hs.
Qed.

End BlockingRule.

(** ** Every system call takes an event *)

Lemma steady_bind {A B} (m : M A) (k : A -> M B) :
  steady m -> (forall a, steady (k a)) -> steady (bind m k).
Proof.
  intros Hm Hk w. eapply post_bind; [apply Hm|].
  intros a w' Hs. eapply post_weaken; [apply Hk| |done]. simpl. congruence.
Qed.

Lemma steady_ret {A} (a : A) : steady (ret a).
Proof. by intros w. Qed.

Lemma steady_answer c r : steady (answer c r).
Proof. intros w. unfold answer. by destruct r. Qed.

Lemma steady_write rep fd buf : steady (write rep fd buf).
Proof.
  intros w. unfold write.
  assert (H : post (fun _ w' => sched w' = sched w) (fun _ _ => True)
                (match do_write fd buf (kern w) with
                 | (Ret r, k) => answer (Write fd buf) r (set_kern k w)
                 | (_, k) => (Pending, set_kern k w)
                 end)).
  { destruct (do_write fd buf (kern w)) as [[r|c| |] k]; try done.
    apply (steady_answer _ r (set_kern k w)). }
  destruct rep; [exact H|apply steady_answer|exact H].
Qed.

Lemma steady_signal_action signum rep : steady (SelfPipe.signal_action signum rep).
Proof.
  apply steady_bind; [by intros w|]. intros fd.
  apply steady_bind; [apply steady_write|]. intros _. apply steady_ret.
Qed.

Lemma steady_no_handler rep : steady (SignalFd.no_handler rep).
Proof. apply steady_ret. Qed.

Section Steady.
Variable handler : reply -> M unit.
Hypothesis handler_steady : forall rep, steady (handler rep).

Lemma steady_take_sigint rep : steady (take_sigint handler rep).
Proof using All.
  intros w. unfold take_sigint.
  destruct (sigismember _ _); simpl; [done|].
  destruct (k_sigint _); simpl; [done|].
  apply (handler_steady rep (log (Arrived Caught) w)).
Qed.

Lemma steady_take_coalesced n rep : steady (take_coalesced handler n rep).
Proof using All.
  apply steady_bind; [apply steady_take_sigint|intros _].
  induction n as [|n IH]; simpl; [apply steady_ret|].
  apply steady_bind; [|by intros].
  intros w. unfold merge_sigint. destruct (sigismember _ _); [apply steady_take_sigint|done].
Qed.

Lemma steady_wake restarts ev : steady (wake handler restarts ev).
Proof using All.
  destruct ev as [rep|rep|n rep]; simpl.
  - intros w. apply (steady_bind (take_sigint handler rep)); [apply steady_take_sigint|].
    intros; apply steady_ret.
  - apply steady_ret.
  - intros w. apply (steady_bind (take_coalesced handler n rep)); [apply steady_take_coalesced|].
    intros; apply steady_ret.
Qed.

End Steady.

Lemma consumes_spends {A} (m : M A) : consumes m -> spends m.
Proof.
  intros H w. eapply post_weaken; [apply H| |done]. simpl.
  intros _ w' (taken & Hne & ->). rewrite length_app.
  destruct taken; [done|simpl; lia].
Qed.

(* the events still to come are among those that were to come *)
Lemma post_consumes {A} (ok : event -> Prop) (Q : A -> world -> Prop) E (m : M A) w :
  consumes m -> Forall ok (sched w) -> post Q E (m w) ->
  post (fun a w' => Q a w' /\ Forall ok (sched w') /\
                    (length (sched w') < length (sched w))%nat) E (m w).
Proof.
  intros Hc Hok Hp.
  eapply post_weaken; [exact (post_with _ _ _ _ Hp (Hc w))| |done]. simpl.
  intros a w' (HQ & taken & Hne & Hs). split; [done|]. rewrite Hs in *.
  apply Forall_app in Hok as [_ Hok]. split; [done|].
  rewrite length_app. destruct taken; [done|simpl; lia].
Qed.

Lemma consumes_enter_from handler evs w :
  post (fun _ w' => exists taken, taken <> [] /\ evs = taken ++ sched w')
       (fun _ _ => True) (enter_from handler evs w).
Proof.
  revert w.
  induction evs as [|[rep|rep|n rep] rest IH]; intros w; simpl; [done| | |].
  - unfold bind at 1. destruct ((modify (set_sched rest) ;;; take_sigint handler rep) w)
      as [[a|c| |] w1]; try done.
    eapply post_weaken; [apply IH| |done]. simpl.
    intros _ w' (taken & Hne & ->). by exists (Sigint rep :: taken).
  - by exists [Complete rep].
  - unfold bind at 1.
    destruct ((modify (set_sched rest) ;;; take_coalesced handler n rep) w)
      as [[a|c| |] w1]; try done.
    eapply post_weaken; [apply IH| |done]. simpl.
    intros _ w' (taken & Hne & ->). by exists (Coalesced n rep :: taken).
Qed.

Lemma consumes_enter handler : consumes (enter handler).
Proof. intros w. apply consumes_enter_from. Qed.

Section Consumes.
Context {A : Type}.
Variable handler : reply -> M unit.
Variable restarts : bool.
Variable attempt : M A -> reply -> M A.
Hypothesis handler_steady : forall rep, steady (handler rep).
Hypothesis attempt_steady : forall (R : A -> world -> Prop) wait rep w,
  (forall a w', sched w' = sched w -> R a w') ->
  (forall w', sched w' = sched w -> post R (fun _ _ => True) (wait w')) ->
  post R (fun _ _ => True) (attempt wait rep w).

Lemma consumes_asleep evs w :
  post (fun _ w' => exists taken, taken <> [] /\ evs = taken ++ sched w')
       (fun _ _ => True) (asleep handler restarts attempt evs w).
Proof using All.
  revert w. induction evs as [|ev rest IH]; intros w; simpl; [done|].
  eapply post_bind.
  - unfold bind at 1, modify.
    exact (steady_wake handler handler_steady restarts ev (set_sched rest w)).
  - intros rep w1 Hs. simpl in Hs. apply attempt_steady.
    + intros a w' Hs'. exists [ev]. split; [done|]. simpl. congruence.
    + intros w' Hs'. eapply post_weaken; [apply IH| |done]. simpl.
      intros _ w2 (taken & Hne & ->). by exists (ev :: taken).
Qed.

Lemma consumes_blocking : consumes (blocking handler restarts attempt).
Proof using All.
  intros w. unfold blocking.
  eapply post_bind; [apply consumes_enter|].
  intros rep w0 (taken & Hne & Hs). apply attempt_steady.
  - intros a w' Hs'. exists taken. split; [done|]. congruence.
  - intros w' Hs'. eapply post_weaken; [apply consumes_asleep| |done]. simpl.
    intros _ w2 (taken' & Hne' & Hs2). exists (taken ++ taken').
    split; [by destruct taken|]. rewrite Hs, <- app_assoc. f_equal. congruence.
Qed.

End Consumes.

Lemma poll_with_steady fd ev t (R : Z -> world -> Prop) wait rep w :
  (forall a w', sched w' = sched w -> R a w') ->
  (forall w', sched w' = sched w -> post R (fun _ _ => True) (wait w')) ->
  post R (fun _ _ => True) (poll_with fd ev t wait rep w).
Proof.
  intros Hret Hwait.
  assert (Hans : forall r, post R (fun _ _ => True) (answer (Poll fd ev t) r w)).
  { intros r. unfold answer. destruct r; simpl; by apply Hret. }
  destruct rep as [|e|n d]; simpl; auto.
  destruct (do_poll fd ev t (kern w)) as [r| | |]; auto.
Qed.

Lemma read_with_steady fd n (R : Z * list Byte.byte -> world -> Prop) wait rep w :
  (forall a w', sched w' = sched w -> R a w') ->
  (forall w', sched w' = sched w -> post R (fun _ _ => True) (wait w')) ->
  post R (fun _ _ => True) (read_with fd n wait rep w).
Proof.
  intros Hret Hwait.
  assert (Hans : forall r (v : Z -> Z * list Byte.byte) w1, sched w1 = sched w ->
            post R (fun _ _ => True) ((r' <- answer (Read fd n) r ;; ret (v r')) w1)).
  { intros r v w1 Hs. unfold bind, answer, ret. destruct r; simpl; by apply Hret. }
  destruct rep as [|e|k d]; simpl.
  - destruct (do_read fd n (kern w)) as [[[r got]| | |] k']; auto.
  - by apply (Hans (Fail e) (fun r' => (r', []))).
  - by apply (Hans (Done (Z.of_N k)) (fun r' => (r', take (N.to_nat k) d))).
Qed.

Lemma consumes_poll handler fd ev t :
  (forall rep, steady (handler rep)) -> consumes (poll handler fd ev t).
Proof.
  intros Hh. apply consumes_blocking; [done|]. intros R wait rep w. apply poll_with_steady.
Qed.

Lemma consumes_read handler fd n :
  (forall rep, steady (handler rep)) -> consumes (read handler fd n).
Proof.
  intros Hh. apply consumes_blocking; [done|]. intros R wait rep w. apply read_with_steady.
Qed.

Lemma spends_keeps {A} (m : M A) : spends m -> keeps m.
Proof.
  intros H w. eapply post_weaken; [apply H| |done]. simpl. lia.
Qed.

Lemma spends_bind {A B} (m : M A) (k : A -> M B) :
  spends m -> (forall a, keeps (k a)) -> spends (bind m k).
Proof.
  intros Hm Hk w. eapply post_bind; [apply Hm|].
  intros a w' Hlt. eapply post_weaken; [apply Hk| |done]. simpl in *. lia.
Qed.

Lemma keeps_bind {A B} (m : M A) (k : A -> M B) :
  keeps m -> (forall a, keeps (k a)) -> keeps (bind m k).
Proof.
  intros Hm Hk w. eapply post_bind; [apply Hm|].
  intros a w' Hlt. eapply post_weaken; [apply Hk| |done]. simpl in *. lia.
Qed.

Lemma keeps_ret {A} (a : A) : keeps (ret a).
Proof. intros w. unfold ret. simpl. lia. Qed.

Lemma keeps_exit {A} c : keeps (@exit A c).
Proof. by intros w. Qed.

Lemma keeps_gets {A} (f : world -> A) : keeps (gets f).
Proof. intros w. unfold gets. simpl. lia. Qed.

Lemma keeps_printf s : keeps (printf s).
Proof. intros w. unfold printf, modify. simpl. lia. Qed.

Lemma keeps_perror L s : keeps (perror L s).
Proof. intros w. unfold perror. simpl. lia. Qed.

Lemma keeps_answer c r : keeps (answer c r).
Proof. intros w. unfold answer. destruct r; simpl; lia. Qed.

Lemma keeps_perform c op : keeps (perform c op).
Proof.
  intros w. unfold perform. destruct (op (kern w)) as [r k].
  eapply post_weaken; [apply keeps_answer|simpl; auto..].
Qed.

Lemma keeps_if {A} (b : bool) (m1 m2 : M A) : keeps m1 -> keeps m2 -> keeps (if b then m1 else m2).
Proof. by destruct b. Qed.

Lemma spends_enter handler : spends (enter handler).
Proof. apply consumes_spends, consumes_enter. Qed.

Lemma spends_poll handler fd ev t :
  (forall rep, steady (handler rep)) -> spends (poll handler fd ev t).
Proof. intros Hh. by apply consumes_spends, consumes_poll. Qed.

Lemma spends_read handler fd n :
  (forall rep, steady (handler rep)) -> spends (read handler fd n).
Proof. intros Hh. by apply consumes_spends, consumes_read. Qed.

Lemma keeps_handle_err L desc : keeps (SelfPipe.handle_err L desc).
Proof. apply keeps_bind; [apply keeps_perror|intros; apply keeps_exit]. Qed.

Lemma keeps_selfpipe_handle_signal L fd : keeps (SelfPipe.handle_signal L fd).
Proof.
  apply keeps_bind; [apply spends_keeps, spends_read, steady_signal_action|]. intros r.
  apply keeps_bind; [|intros; apply keeps_printf].
  apply keeps_if; [apply keeps_handle_err|apply keeps_ret].
Qed.

Lemma keeps_switch L fd r : keeps (SelfPipe.switch L fd r).
Proof.
  apply keeps_if; [apply keeps_bind; [apply keeps_printf|intros; apply keeps_exit]|].
  apply keeps_if; [|apply keeps_selfpipe_handle_signal].
  apply keeps_bind; [apply keeps_gets|]. intros e.
  apply keeps_if; [apply keeps_ret|].
  apply keeps_bind; [apply keeps_handle_err|intros; apply keeps_selfpipe_handle_signal].
Qed.

Lemma spends_iteration L fd : spends (SelfPipe.iteration L fd).
Proof.
  apply spends_bind; [apply spends_poll, steady_signal_action|]. intros r. apply keeps_switch.
Qed.

Lemma keeps_signalfd_handle_signal L fd : keeps (SignalFd.handle_signal L fd).
Proof.
  apply keeps_bind; [apply spends_keeps, spends_read, steady_no_handler|]. intros r.
  apply keeps_bind; [|intros; apply keeps_printf].
  apply keeps_if; [|apply keeps_ret].
  apply keeps_bind; [apply keeps_perror|intros; apply keeps_exit].
Qed.

Lemma spends_wait_ready fd : spends (SignalFd.wait_ready fd).
Proof.
  apply spends_bind; [apply spends_poll, steady_no_handler|intros; apply keeps_ret].
Qed.

(* the loops of the two programs, without the fuel *)
Lemma selfpipe_loop_unfold L fd w :
  @forever Z (SelfPipe.iteration L fd) w =
  (SelfPipe.iteration L fd ;;; forever (SelfPipe.iteration L fd)) w.
Proof. apply forever_unfold, spends_iteration. Qed.

Lemma signalfd_loop_unfold L fd w :
  SignalFd.event_loop L fd w =
  (c <- SignalFd.wait_ready fd ;;
   if c then SignalFd.handle_signal L fd ;;; SignalFd.event_loop L fd else ret tt) w.
Proof.
  apply while_unfold; [apply spends_wait_ready|apply keeps_signalfd_handle_signal].
Qed.

(** ** What system calls leave alone

    A property of the world that does not depend on the schedule, on errno
    or on the kernel state, and that survives the trace entries in
    [allowed], survives every system call that adds only such entries. *)

Section Frame.
Variable J : world -> Prop.
Variable allowed : entry -> Prop.
Hypothesis J_sched : forall w evs, J w -> J (set_sched evs w).
Hypothesis J_errno : forall w e, J w -> J (set_errno e w).
Hypothesis J_kern : forall w k, J w -> J (set_kern k w).
Hypothesis J_log : forall w e, allowed e -> J w -> J (log e w).

Lemma framed_bind {A B} (m : M A) (k : A -> M B) :
  preserves J m -> (forall a, preserves J (k a)) -> preserves J (bind m k).
Proof using Type.
  intros Hm Hk w HJ. eapply post_bind; [apply Hm, HJ|]. intros a w' HJ'. by apply Hk.
Qed.

Lemma framed_ret {A} (a : A) : preserves J (ret a).
Proof using Type. by intros w HJ. Qed.

Lemma framed_gets {A} (f : world -> A) : preserves J (gets f).
Proof using Type. by intros w HJ. Qed.

Lemma framed_answer c r : allowed (Called c r) -> preserves J (answer c r).
Proof using J_errno J_log.
  intros Hc w HJ. unfold answer. destruct r; simpl; auto.
Qed.

Lemma framed_perform c op : (forall r, allowed (Called c r)) -> preserves J (perform c op).
Proof using J_errno J_kern J_log.
  intros Hc w HJ. unfold perform. destruct (op (kern w)) as [r k].
  apply framed_answer; auto.
Qed.

Lemma framed_write rep fd buf :
  (forall r, allowed (Called (Write fd buf) r)) -> preserves J (write rep fd buf).
Proof using J_errno J_kern J_log.
  intros Hc.
  assert (H : preserves J (fun w =>
                match do_write fd buf (kern w) with
                | (Ret r, k) => answer (Write fd buf) r (set_kern k w)
                | (_, k) => (Pending, set_kern k w)
                end)).
  { intros w HJ. destruct (do_write fd buf (kern w)) as [[r|c| |] k]; simpl; auto.
    apply framed_answer; auto. }
  destruct rep; simpl; auto using framed_answer.
Qed.

Lemma framed_signal_action signum rep :
  (forall fd r, allowed (Called (Write fd [Byte.x00]) r)) ->
  preserves J (SelfPipe.signal_action signum rep).
Proof using J_errno J_kern J_log.
  intros Hc. apply framed_bind; [apply framed_gets|]. intros fd.
  apply framed_bind; [by apply framed_write|]. intros _. apply framed_ret.
Qed.

Lemma framed_no_handler rep : preserves J (SignalFd.no_handler rep).
Proof using Type. apply framed_ret. Qed.

Section Calls.
Variable handler : reply -> M unit.
Hypothesis J_handler : forall rep, preserves J (handler rep).
Hypothesis J_arrived : forall f, allowed (Arrived f).

Lemma framed_take_sigint rep : preserves J (take_sigint handler rep).
Proof using All.
  intros w HJ. unfold take_sigint.
  destruct (sigismember _ _); simpl; [auto|].
  destruct (k_sigint _); simpl; [auto|].
  apply J_handler; auto.
Qed.

Lemma framed_take_coalesced n rep : preserves J (take_coalesced handler n rep).
Proof using All.
  intros w HJ. apply coalesced_post; auto.
  - intros w0 H0 _. by apply framed_take_sigint.
  - intros w0 H0. by apply framed_take_sigint.
Qed.

Lemma framed_enter : preserves J (enter handler).
Proof using All.
  intros w HJ.
  eapply post_weaken;
    [apply (enter_post handler J (fun _ => True) (fun _ w' => J w'))| |done]; auto.
  - intros rep w0 _ HJ0. by apply framed_take_sigint.
  - intros n rep w0 _ HJ0. by apply framed_take_coalesced.
  - by apply Forall_forall.
  - simpl. tauto.
Qed.

Lemma framed_syscall c op : (forall r, allowed (Called c r)) -> preserves J (syscall handler c op).
Proof using All.
  intros Hc. apply framed_bind; [apply framed_enter|].
  intros [|e|n d]; auto using framed_answer, framed_perform.
Qed.

Lemma framed_pipe :
  (forall w p, J w -> J (set_pipefds p w)) ->
  (forall fds r, allowed (Called (Pipe fds) r)) ->
  preserves J (pipe handler).
Proof using All.
  intros Hp Hc. apply framed_bind; [apply framed_enter|].
  assert (Hok : preserves J (fun w => let (fds, k) := do_pipe (kern w) in
                  answer (Pipe fds) (Done 0) (set_pipefds fds (set_kern k w)))).
  { intros w HJ. destruct (do_pipe (kern w)) as [fds k]. apply framed_answer; auto. }
  intros [|e|n d]; try exact Hok.
  intros w HJ. by apply framed_answer.
Qed.

Lemma framed_poll fd ev t :
  (forall r, allowed (Called (Poll fd ev t) r)) -> preserves J (poll handler fd ev t).
Proof using All.
  intros Hc w HJ. unfold poll.
  apply (blocking_post handler false (poll_with fd ev t) J (fun _ => True) (fun _ w' => J w')
           (fun _ w' => J w')); auto.
  - intros rep w0 _ H0. by apply framed_take_sigint.
  - intros n rep w0 _ H0. by apply framed_take_coalesced.
  - intros R wait rep w0 _ H0 Hret Hwait.
    assert (Hans : forall r, post R (fun _ w' => J w') (answer (Poll fd ev t) r w0)).
    { intros r. pose proof (framed_answer _ r (Hc r) w0 H0) as Ha.
      unfold answer in *. destruct r; simpl in *; auto. }
    destruct rep as [|e|n d]; simpl; auto.
    destruct (do_poll fd ev t (kern w0)) as [r| | |]; auto.
  - by apply Forall_forall.
Qed.

End Calls.
End Frame.

(** ** Return values of poll, and its silence *)

Lemma do_poll_range fd ev t k r : do_poll fd ev t k = Ret r -> r = Done 0 \/ r = Done 1.
Proof.
  unfold do_poll. repeat case_match; intros Hr; inversion Hr; auto.
Qed.

Lemma poll_range handler fd ev t w r w1 :
  poll handler fd ev t w = (Ret r, w1) -> -1 <= r.
Proof.
  intros H.
  assert (Hp : post (fun r _ => -1 <= r) (fun _ _ => True) (poll handler fd ev t w)).
  { unfold poll.
    apply (blocking_post handler false (poll_with fd ev t) (fun _ => True) (fun _ => True)
             (fun r _ => -1 <= r) (fun _ _ => True)); try done.
    - intros rep w0 _ _. eapply post_weaken; [apply post_trivial|done..].
    - intros n rep w0 _ _. eapply post_weaken; [apply post_trivial|done..].
    - intros R wait rep w0 _ _ Hret Hwait.
      destruct rep as [|e|n d]; simpl.
      + destruct (do_poll fd ev t (kern w0)) as [res| | |] eqn:Hd; auto.
        apply do_poll_range in Hd as [-> | ->]; unfold answer; simpl; apply Hret; lia.
      + apply Hret. lia.
      + apply Hret. lia.
    - by apply Forall_forall. }
  rewrite H in Hp. exact Hp.
Qed.

Lemma streams_signal_action out err signum rep :
  preserves (streams out err) (SelfPipe.signal_action signum rep).
Proof.
  apply framed_signal_action with (allowed := fun _ => True); auto.
Qed.

Lemma streams_poll out err fd ev t :
  preserves (streams out err) (poll SelfPipe.on_sigint fd ev t).
Proof.
  apply framed_poll with (allowed := fun _ => True); auto.
  intros rep. apply streams_signal_action.
Qed.

Lemma streams_poll_signalfd out err fd ev t :
  preserves (streams out err) (poll SignalFd.no_handler fd ev t).
Proof.
  apply framed_poll with (allowed := fun _ => True); auto.
  intros rep. by apply framed_no_handler.
Qed.

(* one round of the loop of selfpipetrick.c, once the poll has returned *)
Lemma selfpipe_loop_step L fd w r w1 :
  poll SelfPipe.on_sigint fd POLLIN 5000 w = (Ret r, w1) ->
  @forever Z (SelfPipe.iteration L fd) w
  = (SelfPipe.switch L fd r ;;; forever (SelfPipe.iteration L fd)) w1.
Proof.
  intros Hpoll. rewrite selfpipe_loop_unfold.
  unfold SelfPipe.iteration at 1. unfold bind at 1 2. by rewrite Hpoll.
Qed.

(** ** Counting calls in the trace *)

Lemma tally_snoc p tr e :
  tally p (tr ++ [e]) = (tally p tr + (if p e then 1 else 0))%nat.
Proof.
  unfold tally. rewrite filter_app, length_app. f_equal.
  rewrite filter_cons, filter_nil.
  destruct (p e); [by rewrite decide_True|by rewrite decide_False].
Qed.

Lemma read_counts handler fd n w :
  (forall k rep, preserves (fun w' => tally is_read (trace w') = k) (handler rep)) ->
  post (fun _ w' => tally is_read (trace w') = S (tally is_read (trace w)))
       (fun _ _ => True) (read handler fd n w).
Proof.
  intros Hh.
  set (J := fun w' : world => tally is_read (trace w') = tally is_read (trace w)).
  assert (Hlog : forall w0 e, is_read e = false -> J w0 -> J (log e w0)).
  { intros w0 e He H0. unfold J. simpl. rewrite tally_snoc, He. unfold J in H0. lia. }
  assert (Hsig : forall rep w0, J w0 ->
            post (fun _ w' => J w') (fun _ _ => True) (take_sigint handler rep w0)).
  { intros rep w0 H0. eapply post_weaken;
      [apply (framed_take_sigint J (fun e => is_read e = false)); auto|done..].
    intros rep'. apply Hh. }
  unfold read.
  apply (blocking_post handler true (read_with fd n) J (fun _ => True)
           (fun _ w' => tally is_read (trace w') = S (tally is_read (trace w)))
           (fun _ _ => True)); try done.
  - intros rep w0 _. apply Hsig.
  - intros k rep w0 _ H0. apply coalesced_post; auto.
  - intros R wait rep w0 _ H0 Hret Hwait.
    assert (Hans : forall r (v : Z -> Z * list Byte.byte) w1, J w1 ->
              post R (fun _ _ => True) ((r' <- answer (Read fd n) r ;; ret (v r')) w1)).
    { intros r v w1 H1. unfold bind, answer, ret, J in *.
      destruct r; simpl; apply Hret; simpl; rewrite tally_snoc; simpl; lia. }
    destruct rep as [|e|k d]; simpl.
    + destruct (do_read fd n (kern w0)) as [[[r got]| | |] k'] eqn:Hr; auto.
    + apply (Hans (Fail e) (fun r' => (r', [])) w0 H0).
    + apply (Hans (Done (Z.of_N k)) (fun r' => (r', take (N.to_nat k) d)) w0 H0).
  - by apply Forall_forall.
Qed.

Lemma poll_counts handler fd ev t w :
  (forall k rep, preserves (fun w' => tally is_poll (trace w') = k) (handler rep)) ->
  post (fun _ w' => tally is_poll (trace w') = S (tally is_poll (trace w)))
       (fun _ _ => True) (poll handler fd ev t w).
Proof.
  intros Hh.
  set (J := fun w' : world => tally is_poll (trace w') = tally is_poll (trace w)).
  assert (Hlog : forall w0 e, is_poll e = false -> J w0 -> J (log e w0)).
  { intros w0 e He H0. unfold J. simpl. rewrite tally_snoc, He. unfold J in H0. lia. }
  assert (Hsig : forall rep w0, J w0 ->
            post (fun _ w' => J w') (fun _ _ => True) (take_sigint handler rep w0)).
  { intros rep w0 H0. eapply post_weaken;
      [apply (framed_take_sigint J (fun e => is_poll e = false)); auto|done..].
    intros rep'. apply Hh. }
  unfold poll.
  apply (blocking_post handler false (poll_with fd ev t) J (fun _ => True)
           (fun _ w' => tally is_poll (trace w') = S (tally is_poll (trace w)))
           (fun _ _ => True)); try done.
  - intros rep w0 _. apply Hsig.
  - intros k rep w0 _ H0. apply coalesced_post; auto.
  - intros R wait rep w0 _ H0 Hret Hwait.
    assert (Hans : forall r, post R (fun _ _ => True) (answer (Poll fd ev t) r w0)).
    { intros r. unfold answer, J in *.
      destruct r; simpl; apply Hret; simpl; rewrite tally_snoc; simpl; lia. }
    destruct rep as [|e|k d]; simpl; [|apply (Hans (Fail e))|apply (Hans (Done (Z.of_N k)))].
    destruct (do_poll fd ev t (kern w0)) as [r| | |]; auto.
  - by apply Forall_forall.
Qed.

Lemma signalfd_read_counts fd n w :
  post (fun _ w' => tally is_read (trace w') = S (tally is_read (trace w)))
       (fun _ _ => True) (read SignalFd.no_handler fd n w).
Proof.
  apply read_counts. intros k rep. by apply framed_no_handler.
Qed.

Lemma selfpipe_read_counts fd n w :
  post (fun _ w' => tally is_read (trace w') = S (tally is_read (trace w)))
       (fun _ _ => True) (read SelfPipe.on_sigint fd n w).
Proof.
  apply read_counts. intros k rep.
  apply framed_signal_action with (allowed := fun e => is_read e = false); auto.
  intros w0 e He H0. simpl. rewrite tally_snoc, He. lia.
Qed.

(** ** The signal number in the record of signalfd *)

Lemma byte_of_value x : Z.of_N (Byte.to_N (byte_of x)) = x mod 256.
Proof.
  unfold byte_of.
  pose proof (Z.mod_pos_bound x 256 ltac:(lia)) as Hx.
  destruct (Byte.of_N (Z.to_N (x mod 256))) as [b|] eqn:Hb.
  - apply Byte.to_of_N in Hb. rewrite Hb. lia.
  - apply Byte.of_N_None_iff in Hb. lia.
Qed.

Lemma uint32_at_siginfo_record signo :
  0 <= signo < 4294967296 -> uint32_at 0 (siginfo_record signo) = signo.
Proof.
  intros Hs. unfold uint32_at, siginfo_record, le32, byte_at.
  cbn [nth app Nat.add].
  rewrite !byte_of_value.
  rewrite !Z.shiftr_div_pow2 by lia.
  change (2 ^ 8) with 256. change (2 ^ 16) with 65536. change (2 ^ 24) with 16777216.
  assert (H24 : signo / 16777216 < 256) by (apply Z.div_lt_upper_bound; lia).
  assert (H24' : 0 <= signo / 16777216) by (apply Z.div_pos; lia).
  rewrite (Z.mod_small (signo / 16777216) 256) by lia.
  pose proof (Z.div_mod signo 256 ltac:(lia)) as H1.
  pose proof (Z.div_mod (signo / 256) 256 ltac:(lia)) as H2.
  pose proof (Z.div_mod (signo / 256 / 256) 256 ltac:(lia)) as H3.
  rewrite !Z.div_div in * by lia.
  change (256 * 256) with 65536 in *.
  change (65536 * 256) with 16777216 in *.
  lia.
Qed.

(** ** No poll before the loop *)

Lemma polls_pipe n :
  preserves (fun w => tally is_poll (trace w) = n) (pipe SelfPipe.on_sigint).
Proof.
  assert (Hlog : forall w e, is_poll e = false ->
            tally is_poll (trace w) = n -> tally is_poll (trace (log e w)) = n).
  { intros w e He Hw. simpl. rewrite tally_snoc, He. lia. }
  apply framed_pipe with (allowed := fun e => is_poll e = false); auto.
  intros rep. apply framed_signal_action with (allowed := fun e => is_poll e = false); auto.
Qed.

Lemma polls_fcntl n fd cmd arg :
  preserves (fun w => tally is_poll (trace w) = n) (fcntl SelfPipe.on_sigint fd cmd arg).
Proof.
  assert (Hlog : forall w e, is_poll e = false ->
            tally is_poll (trace w) = n -> tally is_poll (trace (log e w)) = n).
  { intros w e He Hw. simpl. rewrite tally_snoc, He. lia. }
  apply framed_syscall with (allowed := fun e => is_poll e = false); auto.
  intros rep. apply framed_signal_action with (allowed := fun e => is_poll e = false); auto.
Qed.

Lemma polls_signalfd_setup n :
  preserves (fun w => tally is_poll (trace w) = n) SignalFd.setup.
Proof.
  assert (Hlog : forall w e, is_poll e = false ->
            tally is_poll (trace w) = n -> tally is_poll (trace (log e w)) = n).
  { intros w e He Hw. simpl. rewrite tally_snoc, He. lia. }
  unfold SignalFd.setup.
  apply framed_bind.
  { apply framed_syscall with (allowed := fun e => is_poll e = false); auto.
    intros rep. by apply framed_no_handler. }
  intros _. apply framed_bind; [|intros; by apply framed_ret].
  apply framed_syscall with (allowed := fun e => is_poll e = false); auto.
  intros rep. by apply framed_no_handler.
Qed.

(* the set-up of signalfd.c never exits and never prints *)
Lemma signalfd_setup_goes_on w :
  post (fun _ w' => streams (stdout w) (stderr w) w')
       (fun h w' => streams (stdout w) (stderr w) w' /\ forall c, h <> Exited c)
       (SignalFd.setup w).
Proof.
  assert (Hsys : forall c op w0,
            streams (stdout w) (stderr w) w0 ->
            post (fun _ w' => streams (stdout w) (stderr w) w')
                 (fun h w' => streams (stdout w) (stderr w) w' /\ forall c, h <> Exited c)
                 (syscall SignalFd.no_handler c op w0)).
  { intros c op w0 H0. eapply post_bind.
    - apply (enter_post SignalFd.no_handler (streams (stdout w) (stderr w)) (fun _ => True)
               (fun h w' => streams (stdout w) (stderr w) w' /\ forall c, h <> Exited c));
        auto.
      + intros rep w2 _ H2. unfold take_sigint.
        destruct (sigismember _ _); simpl; [done|].
        destruct (k_sigint _); simpl; done.
      + intros n rep w2 _ H2.
        assert (Hsig : forall rep' w3, streams (stdout w) (stderr w) w3 ->
                  post (fun _ w' => streams (stdout w) (stderr w) w')
                       (fun h w' => streams (stdout w) (stderr w) w' /\ forall c, h <> Exited c)
                       (take_sigint SignalFd.no_handler rep' w3)).
        { intros rep' w3 H3. unfold take_sigint.
          destruct (sigismember _ _); simpl; [done|].
          destruct (k_sigint _); simpl; done. }
        apply coalesced_post; auto.
      + by apply Forall_forall.
    - intros rep w2 (H2 & _). 
      assert (Hans : forall r w3, streams (stdout w) (stderr w) w3 ->
                post (fun _ w' => streams (stdout w) (stderr w) w')
                     (fun h w' => streams (stdout w) (stderr w) w' /\ forall c, h <> Exited c)
                     (answer c r w3)).
      { intros r w3 H3. unfold answer. destruct r; simpl; done. }
      destruct rep as [|e|n d]; simpl; auto.
      + unfold perform. destruct (op (kern w2)). by apply Hans.
      + unfold perform. destruct (op (kern w2)). by apply Hans. }
  unfold SignalFd.setup.
  eapply post_bind; [by apply Hsys|]. intros ? w1 H1. simpl in H1.
  eapply post_bind; [by apply Hsys|]. intros fd w2 H2. done.
Qed.

(** ** The handler of selfpipetrick.c on its pipe *)

(* a write returns or waits *)
Lemma do_write_cases fd buf k :
  (exists r, fst (do_write fd buf k) = Ret r) \/ fst (do_write fd buf k) = Pending.
Proof. unfold do_write. repeat case_match; simpl; eauto. Qed.


(* the write end as pipe() makes it and the set-up leaves it takes a byte
   while the pipe has room, and blocks when it has none *)
Lemma signal_action_pipe signum rep wr fl w :
  snd (pipefds w) = wr ->
  k_fds (kern w) !! wr = Some (File PipeWrite fl O_WRONLY) ->
  SelfPipe.signal_action signum rep w =
  match rep with
  | Fault e => (Ret tt, set_errno e (log (Called (Write wr [Byte.x00]) (Fail e)) w))
  | _ =>
      if Z.of_nat (length (k_pipe (kern w))) <? pipe_capacity
      then (Ret tt,
            log (Called (Write wr [Byte.x00]) (Done 1))
                (set_kern (set_pipe (k_pipe (kern w) ++ [Byte.x00]) (kern w)) w))
      else (Pending, set_kern (kern w) w)
  end.
Proof.
  intros Hfd Hwr.
  unfold SelfPipe.signal_action, bind at 1, gets. rewrite Hfd.
  assert (H : (_ <- (fun w0 =>
                       match do_write wr [Byte.x00] (kern w0) with
                       | (Ret r, k) => answer (Write wr [Byte.x00]) r (set_kern k w0)
                       | (_, k) => (Pending, set_kern k w0)
                       end) ;; ret tt) w
              = if Z.of_nat (length (k_pipe (kern w))) <? pipe_capacity
                then (Ret tt,
                      log (Called (Write wr [Byte.x00]) (Done 1))
                          (set_kern (set_pipe (k_pipe (kern w) ++ [Byte.x00]) (kern w)) w))
                else (Pending, set_kern (kern w) w)).
  { unfold bind, do_write. rewrite Hwr. cbn [f_kind f_status length].
    change (Z.land O_WRONLY O_NONBLOCK =? 0) with true. cbv iota.
    change (Z.of_nat 1) with 1. change (1 <=? PIPE_BUF) with true. cbn [orb].
    destruct (Z.of_nat (length (k_pipe (kern w))) <? pipe_capacity) eqn:Hroom.
    - apply Z.ltb_lt in Hroom.
      destruct (1 <=? pipe_capacity - Z.of_nat (length (k_pipe (kern w)))) eqn:Hle;
        [reflexivity|apply Z.leb_gt in Hle; lia].
    - apply Z.ltb_ge in Hroom.
      destruct (1 <=? pipe_capacity - Z.of_nat (length (k_pipe (kern w)))) eqn:Hle;
        [apply Z.leb_le in Hle; lia|reflexivity]. }
  destruct rep as [|e|n d]; [exact H|reflexivity|exact H].
Qed.

(** ** The loop of selfpipetrick.c *)

Lemma forallb_snoc {A} (p : A -> bool) l x :
  forallb p (l ++ [x]) = forallb p l && p x.
Proof. rewrite forallb_app. simpl. by rewrite andb_true_r. Qed.

Lemma looping_log r wr e w :
  in_loop wr e = true -> looping r wr w -> looping r wr (log e w).
Proof.
  intros He (Hw & res & rest & Htr & Hrest). split; [exact Hw|].
  exists res, (rest ++ [e]). simpl. rewrite Htr, <- app_assoc. split; [done|].
  rewrite forallb_snoc, Hrest, He. done.
Qed.

Lemma looping_stdout r wr s w : looping r wr w -> looping r wr (put_stdout s w).
Proof. intros H. exact H. Qed.

Lemma looping_stderr r wr s w : looping r wr w -> looping r wr (put_stderr s w).
Proof. intros H. exact H. Qed.

Lemma looping_pipe r wr p w :
  looping r wr w -> looping r wr (set_kern (set_pipe p (kern w)) w).
Proof. intros H. exact H. Qed.

Section SelfPipeLoop.
Variable L : libc.
Variable strict : Prop.
Variables r wr : Z.

(* the handler, run from the loop *)
Lemma selfpipe_take_sigint n rep w :
  (strict -> calm (Sigint rep) = true) ->
  selfpipe_inv strict r wr n w ->
  post (fun _ w' => selfpipe_inv strict r wr n w') (selfpipe_halt strict r wr)
       (take_sigint SelfPipe.on_sigint rep w).
Proof using Type.
  intros Hrep (Hloop & Htally).
  pose proof Hloop as ((Hfds & Hr & Hrd & Hwr & Hblk) & _).
  unfold take_sigint. rewrite Hblk.
  destruct (k_sigint (kern w)); simpl.
  - split; [by apply looping_log|done].
  - unfold SelfPipe.on_sigint.
    rewrite (signal_action_pipe SIGINT rep wr 0 (log (Arrived Caught) w));
      [|by cbn [pipefds log]; rewrite Hfds|exact Hwr].
    assert (Hcaught : looping r wr (log (Arrived Caught) w)) by (by apply looping_log).
    assert (Hwrite : forall res p,
              looping r wr (log (Called (Write wr [Byte.x00]) res)
                              (set_kern (set_pipe p (kern w)) (log (Arrived Caught) w)))).
    { intros res p. apply looping_log; [simpl; by rewrite Z.eqb_refl|].
      by apply looping_pipe with (w := log (Arrived Caught) w). }
    destruct rep as [|e|k d].
    + cbn [kern log].
      destruct (Z.of_nat (length (k_pipe (kern w))) <? pipe_capacity); simpl;
        [|split; [exact Hcaught|done]].
      split; [apply Hwrite|].
      intros Hs. destruct (Htally Hs) as ((k & Hout & Herr & Hk & Ha) & Hn).
      split.
      * exists k. simpl. rewrite !tally_snoc, length_app. simpl.
        split; [done|split; [done|lia]].
      * simpl. rewrite length_app. simpl. lia.
    + simpl. split.
      * apply looping_log; [simpl; by rewrite Z.eqb_refl|done].
      * intros Hs. by specialize (Hrep Hs).
    + cbn [kern log].
      destruct (Z.of_nat (length (k_pipe (kern w))) <? pipe_capacity); simpl;
        [|split; [exact Hcaught|done]].
      split; [apply Hwrite|].
      intros Hs. by specialize (Hrep Hs).
Qed.

(* signals that are merged with the one the handler runs for *)
Lemma selfpipe_take_coalesced n m rep w :
  (strict -> calm (Coalesced m rep) = true) ->
  selfpipe_inv strict r wr n w ->
  post (fun _ w' => selfpipe_inv strict r wr n w') (selfpipe_halt strict r wr)
       (take_coalesced SelfPipe.on_sigint m rep w).
Proof using Type.
  intros Hrep Hinv.
  assert (Hblocked : forall w0, selfpipe_inv strict r wr n w0 ->
            sigismember (k_blocked (kern w0)) SIGINT = false).
  { intros w0 ((H & _) & _). apply H. }
  apply coalesced_post; auto.
  - intros w0 (Hloop & Htally). split; [by apply looping_log|].
    intros Hs. destruct (Htally Hs) as ((k & Hout & Herr & Hk & Ha) & Hn).
    split; [|done]. exists k. simpl. rewrite !tally_snoc. simpl.
    split; [done|split; [done|lia]].
  - intros w0 H0 Hb. rewrite (Hblocked w0 H0) in Hb. discriminate.
  - intros w0 H0. apply selfpipe_take_sigint; [|done].
    intros Hs. specialize (Hrep Hs). by destruct rep.
Qed.

Lemma selfpipe_enter n w :
  selfpipe_inv strict r wr n w -> calmly strict (sched w) ->
  post (fun rep w' => selfpipe_inv strict r wr n w' /\ calmly strict (sched w') /\
                      (strict -> calm (Complete rep) = true) /\
                      (length (sched w') < length (sched w))%nat)
       (selfpipe_halt strict r wr) (enter SelfPipe.on_sigint w).
Proof using Type.
  intros Hinv Hcalm.
  apply (enter_post SelfPipe.on_sigint (selfpipe_inv strict r wr n)
           (fun ev => strict -> calm ev = true) (selfpipe_halt strict r wr)); try done.
  - intros rep w0 Hrep H0. by apply selfpipe_take_sigint.
  - intros m rep w0 Hrep H0. by apply selfpipe_take_coalesced.
  - intros w0 (H0 & H1) Hnil. done.
Qed.

Lemma selfpipe_inv_log n e w :
  in_loop wr e = true -> is_arrival e = false ->
  selfpipe_inv strict r wr n w -> selfpipe_inv strict r wr n (log e w).
Proof using Type.
  intros He Ha (Hloop & Htally). split; [by apply looping_log|].
  assert (Hc : is_caught e = false) by (by destruct e as [|[]]).
  assert (Hm : is_merged e = false) by (by destruct e as [|[]]).
  intros Hs. destruct (Htally Hs) as ((k & Hout & Herr & Hk & Harr) & Hn).
  split; [|done]. exists k. simpl. rewrite !tally_snoc, Hc, Ha, Hm.
  split; [done|split; [done|lia]].
Qed.

(* the poll of the loop: under the strict regime it returns 0 on an empty
   pipe, 1 on a pipe that holds a byte, and -1 when interrupted *)
Lemma selfpipe_poll w :
  selfpipe_inv strict r wr 0 w -> calmly strict (sched w) ->
  post (fun rc w' =>
          selfpipe_inv strict r wr 0 w' /\ calmly strict (sched w') /\
          (length (sched w') < length (sched w))%nat /\
          (strict -> (rc = 0 /\ k_pipe (kern w') = []) \/
                     (rc = -1 /\ errno w' = EINTR) \/
                     (rc = 1 /\ (1 <= length (k_pipe (kern w')))%nat)))
       (selfpipe_halt strict r wr) (poll SelfPipe.on_sigint r POLLIN 5000 w).
Proof using Type.
  intros Hinv Hcalm. unfold poll, blocking, poll_with.
  eapply post_bind; [by apply selfpipe_enter|].
  intros rep w0 (H0 & Hcalm0 & Hrep & Hlt).
  pose proof H0 as (((Hfds & Hr & Hrd & Hwr & Hblk) & _) & _).
  assert (Hlog : forall res,
            selfpipe_inv strict r wr 0 (log (Called (Poll r POLLIN 5000) res) w0)).
  { intros res. by apply selfpipe_inv_log. }
  destruct rep as [|e|k d].
  - unfold do_poll, readable. rewrite Hrd. simpl.
    destruct (r <? 0) eqn:Hneg; [lia|].
    destruct (k_pipe (kern w0)) as [|b bs] eqn:Hp; unfold answer; simpl.
    + split; [apply Hlog|]. split; [done|]. split; [done|]. tauto.
    + split; [apply Hlog|]. split; [done|]. split; [done|].
      intros Hs. right; right. rewrite Hp. simpl. split; [done|lia].
  - unfold answer. simpl.
    split; [apply Hlog|]. split; [done|]. split; [done|].
    intros Hs. specialize (Hrep Hs). simpl in Hrep. apply Z.eqb_eq in Hrep. tauto.
  - unfold answer. simpl.
    split; [apply Hlog|]. split; [done|]. split; [done|].
    intros Hs. by specialize (Hrep Hs).
Qed.

(* the read of the loop, made when the pipe holds a byte *)
Lemma selfpipe_read w :
  selfpipe_inv strict r wr 1 w -> calmly strict (sched w) ->
  post (fun res w' =>
          looping r wr w' /\ calmly strict (sched w') /\
          (length (sched w') < length (sched w))%nat /\
          (strict ->
             fst res = -1 \/
             (fst res = 1 /\
              exists k, stdout w' = repeat received_message k /\ stderr w' = [] /\
                        (S k + length (k_pipe (kern w')))%nat = tally is_caught (trace w') /\
                        tally is_arrival (trace w')
                        = (tally is_caught (trace w') + tally is_merged (trace w'))%nat)))
       (selfpipe_halt strict r wr) (read SelfPipe.on_sigint r 1 w).
Proof using Type.
  intros Hinv Hcalm.
  eapply post_weaken;
    [apply (post_consumes (fun ev => strict -> calm ev = true)
              (fun res w' =>
                 looping r wr w' /\
                 (strict ->
                    fst res = -1 \/
                    (fst res = 1 /\
                     exists k, stdout w' = repeat received_message k /\ stderr w' = [] /\
                               (S k + length (k_pipe (kern w')))%nat
                               = tally is_caught (trace w') /\
                               tally is_arrival (trace w')
                               = (tally is_caught (trace w') + tally is_merged (trace w'))%nat)))
              (selfpipe_halt strict r wr));
       [apply consumes_read, steady_signal_action|exact Hcalm|]
    |simpl; tauto|done].
  unfold read.
  apply (blocking_post SelfPipe.on_sigint true (read_with r 1)
           (selfpipe_inv strict r wr 1) (fun ev => strict -> calm ev = true)); try done.
  - intros rep w0 Hrep H0. by apply selfpipe_take_sigint.
  - intros m rep w0 Hrep H0. by apply selfpipe_take_coalesced.
  - intros w0 (H0 & _) _. done.
  - intros R wait rep w0 Hrep H0 Hret Hwait.
    pose proof H0 as ((Hwired & Htr) & Htally).
    pose proof Hwired as (Hfds & Hr & Hrd & Hwr & Hblk).
    assert (Hlog : forall res, looping r wr (log (Called (Read r 1) res) w0)).
    { intros res. apply looping_log; [done|]. by destruct H0. }
    destruct rep as [|e|k d]; simpl.
    + unfold do_read. rewrite Hrd. simpl.
      destruct (k_pipe (kern w0)) as [|b bs] eqn:Hp; simpl.
      * by apply Hwait.
      * unfold bind, answer, ret. simpl. apply Hret.
        split; [apply (Hlog (Done 1))|].
        intros Hs. right. split; [done|].
        destruct (Htally Hs) as ((k & Hout & Herr & Hk & Ha) & _).
        exists k. simpl. rewrite !tally_snoc. simpl. rewrite Hp in Hk. simpl in Hk.
        rewrite drop_0. split; [done|split; [done|lia]].
    + unfold bind, answer, ret. simpl. apply Hret.
      split; [apply (Hlog (Fail e))|]. intros Hs. by left.
    + unfold bind, answer, ret. simpl. apply Hret.
      split; [apply (Hlog (Done (Z.of_N k)))|]. intros Hs. by specialize (Hrep Hs).
Qed.

Lemma repeat_snoc {A} (x : A) k : repeat x k ++ [x] = repeat x (S k).
Proof. induction k as [|k IH]; simpl; [done|]. by rewrite IH. Qed.

Lemma selfpipe_handle_signal w :
  selfpipe_inv strict r wr 1 w -> calmly strict (sched w) ->
  post (fun _ w' =>
          selfpipe_inv strict r wr 0 w' /\ calmly strict (sched w') /\
          (length (sched w') < length (sched w))%nat)
       (selfpipe_halt strict r wr) (SelfPipe.handle_signal L r w).
Proof using Type.
  intros Hinv Hcalm. unfold SelfPipe.handle_signal.
  eapply post_bind; [by apply selfpipe_read|].
  intros [n buff] w0 (Hloop & Hcalm0 & Hlt & Hres). simpl in Hres. cbn [fst].
  destruct (n =? 1) eqn:Hn; simpl.
  - apply Z.eqb_eq in Hn. subst n. unfold bind, ret, printf, modify. simpl.
    split; [|split; [done|lia]].
    split; [by apply looping_stdout|].
    intros Hs. destruct (Hres Hs) as [?|(_ & k & Hout & Herr & Hk & Ha)]; [lia|].
    split; [|simpl; lia].
    exists (S k). simpl. rewrite Hout, repeat_snoc.
    split; [done|split; [done|lia]].
  - unfold SelfPipe.handle_err. unfold bind, ret, perror, exit. simpl.
    split; [by apply looping_stderr|]. intros _ Hc. done.
Qed.

Lemma selfpipe_iteration w :
  selfpipe_inv strict r wr 0 w -> calmly strict (sched w) ->
  post (fun _ w' =>
          (selfpipe_inv strict r wr 0 w' /\ calmly strict (sched w')) /\
          (length (sched w') < length (sched w))%nat)
       (selfpipe_halt strict r wr) (SelfPipe.iteration L r w).
Proof using Type.
  intros Hinv Hcalm. unfold SelfPipe.iteration.
  eapply post_bind; [by apply selfpipe_poll|].
  intros rc w0 (H0 & Hcalm0 & Hlt & Hrc).
  pose proof H0 as (Hloop & Ht).
  unfold SelfPipe.switch.
  destruct (rc =? 0) eqn:E0.
  - apply Z.eqb_eq in E0. subst rc. unfold bind, printf, modify, exit. simpl.
    split; [by apply looping_stdout|]. intros Hs _.
    destruct (Hrc Hs) as [[_ Hp]|[[? _]|[? _]]]; [|lia..].
    destruct (Ht Hs) as ((k & Hout & Herr & Hk & Ha) & _).
    rewrite Hp in Hk. simpl in Hk. unfold put_stdout. cbn [stdout trace].
    split; [|done].
    rewrite Hout. unfold timeout_message. f_equal. f_equal. lia.
  - apply Z.eqb_neq in E0. destruct (rc =? -1) eqn:E1.
    + apply Z.eqb_eq in E1. subst rc. unfold bind at 1, gets.
      destruct (errno w0 =? EINTR) eqn:Ee.
      * unfold ret. simpl. split; [done|lia].
      * unfold SelfPipe.handle_err. unfold bind, perror, exit. simpl.
        split; [by apply looping_stderr|]. intros _ Hc. done.
    + apply Z.eqb_neq in E1.
      assert (Hone : selfpipe_inv strict r wr 1 w0).
      { split; [done|]. intros Hs. split; [by apply Ht|].
        destruct (Hrc Hs) as [[? _]|[[? _]|[_ ?]]]; [lia|lia|done]. }
      eapply post_weaken; [by apply selfpipe_handle_signal| |done].
      simpl. intros ? w1 (H1 & Hc1 & Hlt1). split; [done|lia].
Qed.

(* the loop keeps its invariant and stops in the ways of [selfpipe_halt] *)
Lemma selfpipe_loop w :
  selfpipe_inv strict r wr 0 w -> calmly strict (sched w) ->
  post (fun (_ : Z) _ => False) (selfpipe_halt strict r wr)
       (forever (SelfPipe.iteration L r) w).
Proof using Type.
  intros Hinv Hcalm.
  apply (forever_post (fun w' => selfpipe_inv strict r wr 0 w' /\ calmly strict (sched w'))).
  - intros w0 [H0 Hc0]. by apply selfpipe_iteration.
  - done.
Qed.

End SelfPipeLoop.

(** ** The set-up of selfpipetrick.c *)

(* signals that are merged while SIGINT is not blocked leave their mark in
   the trace and nowhere else *)
Lemma merge_sigints_unblocked handler n w :
  sigismember (k_blocked (kern w)) SIGINT = false ->
  exists w',
    merge_sigints handler n w = (Ret tt, w') /\
    kern w' = kern w /\ errno w' = errno w /\ pipefds w' = pipefds w /\
    stdout w' = stdout w /\ stderr w' = stderr w /\ sched w' = sched w /\
    trace w' = trace w ++ repeat (Arrived Merged) n.
Proof.
  revert w. induction n as [|n IH]; intros w Hb; simpl.
  - exists w. by rewrite app_nil_r.
  - unfold bind at 1, merge_sigint. rewrite Hb.
    destruct (IH (log (Arrived Merged) w) Hb) as (w' & -> & Hk & He & Hp & Ho & Hr & Hs & Ht).
    exists w'. simpl in *. rewrite Ht, <- app_assoc. done.
Qed.

(* entering a call while SIGINT has its default action *)
Lemma enter_default handler w :
  k_sigint (kern w) = SIG_DFL ->
  sigismember (k_blocked (kern w)) SIGINT = false ->
  enter handler w =
  match sched w with
  | [] => (Pending, set_sched [] w)
  | Complete rep :: rest => (Ret rep, set_sched rest w)
  | Sigint rep :: rest | Coalesced _ rep :: rest =>
      (Killed, log (Arrived Lethal) (set_sched rest w))
  end.
Proof.
  intros Hd Hb. unfold enter.
  destruct (sched w) as [|[rep|rep|n rep] rest]; simpl; [done| |done|].
  - unfold bind, modify, take_sigint. simpl. by rewrite Hb, Hd.
  - unfold bind at 1 2, modify, take_coalesced, bind at 1, take_sigint.
    cbn [fst snd kern set_sched]. by rewrite Hb, Hd.
Qed.

Lemma enter_starting handler strict tr w :
  starting strict tr w -> forallb in_setup tr = true ->
  post (fun rep w' => starting strict tr w' /\ kern w' = kern w /\ pipefds w' = pipefds w /\
                      (strict -> calm (Complete rep) = true))
       setup_halt (enter handler w).
Proof.
  intros (Hd & Hb & Hp & Hout & Herr & Htr & Hcalm) Hin.
  rewrite (enter_default handler w Hd Hb).
  destruct (sched w) as [|[rep|rep|n rep] rest] eqn:Hs; unfold setup_halt, starting; simpl.
  - by rewrite Htr.
  - rewrite Htr, forallb_snoc, Hin. done.
  - apply Forall_cons in Hcalm as [Hrep Hrest]. done.
  - rewrite Htr, forallb_snoc, Hin. done.
Qed.

Lemma do_pipe_spec k r wr k' :
  do_pipe k = ((r, wr), k') ->
  0 <= r /\
  k_fds k' !! r = Some (File PipeRead 0 O_RDONLY) /\
  k_fds k' !! wr = Some (File PipeWrite 0 O_WRONLY) /\
  k_pipe k' = k_pipe k /\ k_blocked k' = k_blocked k /\ k_sigint k' = k_sigint k.
Proof.
  unfold do_pipe. intros H. inversion H; subst; clear H. simpl.
  set (r := lowest_free (k_fds k)).
  set (t := <[r:=File PipeRead 0 O_RDONLY]> (k_fds k)).
  assert (Hne : lowest_free t <> r).
  { intros Heq. pose proof (lowest_free_free t) as Hf. rewrite Heq in Hf.
    unfold t in Hf. by rewrite lookup_insert_eq in Hf. }
  split; [apply lowest_free_nonneg|].
  split; [rewrite lookup_insert_ne by done; apply lookup_insert_eq|].
  split; [apply lookup_insert_eq|done].
Qed.

Lemma wired_distinct r wr w : wired r wr w -> r <> wr.
Proof.
  intros (_ & _ & Hr & Hw & _) ->. rewrite Hr in Hw. discriminate.
Qed.

Lemma do_fcntl_setfd fd arg k f :
  k_fds k !! fd = Some f ->
  do_fcntl fd F_SETFD arg k
  = (Done 0, set_fds (<[fd := File (f_kind f) (Z.land arg FD_CLOEXEC) (f_status f)]> (k_fds k)) k).
Proof.
  intros H. unfold do_fcntl. by rewrite H.
Qed.

Section SelfPipeSetup.
Variable L : libc.
Variable strict : Prop.

(* the test of a return value against -1 *)
Lemma setup_check desc rc good w :
  checked rc good w ->
  post (fun _ w' => good w') setup_halt
       ((if rc =? -1 then SelfPipe.handle_err L desc else ret tt) w).
Proof using Type.
  intros [(-> & Hin & Hout)|(Hrc & Hgood)].
  - simpl. unfold SelfPipe.handle_err, bind, perror, exit. simpl. done.
  - destruct (rc =? -1) eqn:E; [apply Z.eqb_eq in E; done|]. done.
Qed.

Lemma setup_pipe w :
  starting strict [] w ->
  post (fun rc w' =>
          checked rc (fun w' => exists r wr,
            wired r wr w' /\ starting strict [Called (Pipe (r, wr)) (Done 0)] w') w')
       setup_halt (pipe SelfPipe.on_sigint w).
Proof using Type.
  intros Hst. unfold pipe.
  eapply post_bind; [by apply enter_starting|].
  intros rep w0 (H0 & Hk & Hp & Hrep).
  destruct H0 as (Hd & Hb & Hpipe & Hout & Herr & Htr & Hcalm).
  assert (Hok : post (fun rc w' =>
            checked rc (fun w' => exists r wr,
              wired r wr w' /\ starting strict [Called (Pipe (r, wr)) (Done 0)] w') w')
            setup_halt
            (let (fds, k) := do_pipe (kern w0) in
             answer (Pipe fds) (Done 0) (set_pipefds fds (set_kern k w0)))).
  { destruct (do_pipe (kern w0)) as [[r wr] k'] eqn:Hdp.
    apply do_pipe_spec in Hdp as (Hr & Hrd & Hwr & Hp' & Hb' & Hd').
    unfold answer. simpl. right. split; [done|]. exists r, wr.
    split.
    - unfold wired. simpl. rewrite Hb'. done.
    - unfold starting. simpl. rewrite Hd', Hb', Hp', Htr. done. }
  destruct rep as [|e|n d]; [exact Hok| |exact Hok].
  unfold answer. simpl. left. simpl. rewrite Htr. done.
Qed.

Lemma setup_fcntl fd tr r wr w :
  fd = r \/ fd = wr ->
  forallb in_setup tr = true ->
  wired r wr w -> starting strict tr w ->
  post (fun rc w' =>
          checked rc (fun w' =>
            wired r wr w' /\
            starting strict (tr ++ [Called (Fcntl fd F_SETFD O_NONBLOCK) (Done 0)]) w') w')
       setup_halt (fcntl SelfPipe.on_sigint fd F_SETFD O_NONBLOCK w).
Proof using Type.
  intros Hfd Hin Hw Hst. unfold fcntl, syscall.
  eapply post_bind; [by apply enter_starting|].
  intros rep w0 (H0 & Hk & Hp & Hrep).
  destruct H0 as (Hd & Hb & Hpipe & Hout & Herr & Htr & Hcalm).
  pose proof (wired_distinct r wr w Hw) as Hne.
  destruct Hw as (Hfds & Hr & Hrd & Hwr & Hblk).
  assert (Hok : post (fun rc w' =>
            checked rc (fun w' =>
              wired r wr w' /\
              starting strict (tr ++ [Called (Fcntl fd F_SETFD O_NONBLOCK) (Done 0)]) w') w')
            setup_halt
            (perform (Fcntl fd F_SETFD O_NONBLOCK) (do_fcntl fd F_SETFD O_NONBLOCK) w0)).
  { unfold perform. rewrite Hk.
    destruct Hfd as [-> | ->].
    - rewrite (do_fcntl_setfd r O_NONBLOCK (kern w) _ Hrd).
      unfold answer. simpl. right. split; [done|].
      split.
      + unfold wired. simpl. rewrite Hp, lookup_insert_eq, lookup_insert_ne by done. done.
      + unfold starting. simpl. rewrite <- Hk, Htr. done.
    - rewrite (do_fcntl_setfd wr O_NONBLOCK (kern w) _ Hwr).
      unfold answer. simpl. right. split; [done|].
      split.
      + unfold wired. simpl. rewrite Hp, lookup_insert_eq, lookup_insert_ne by done. done.
      + unfold starting. simpl. rewrite <- Hk, Htr. done. }
  destruct rep as [|e|n d]; [exact Hok| |exact Hok].
  unfold answer. simpl. left. simpl. rewrite Htr, forallb_snoc, Hin. done.
Qed.

Lemma setup_signal r wr w :
  wired r wr w ->
  starting strict [Called (Pipe (r, wr)) (Done 0);
                   Called (Fcntl r F_SETFD O_NONBLOCK) (Done 0);
                   Called (Fcntl wr F_SETFD O_NONBLOCK) (Done 0)] w ->
  post (fun _ w' =>
          selfpipe_inv strict r wr 0 w' /\ calmly strict (sched w') /\
          (exists res, trace w' = setup_trace r wr res) /\
          k_pipe (kern w') = [] /\ stdout w' = [] /\ stderr w' = [])
       setup_halt (signal SelfPipe.on_sigint SIGINT w).
Proof using Type.
  intros Hw Hst. unfold signal, syscall.
  eapply post_bind; [by apply enter_starting|].
  intros rep w0 (H0 & Hk & Hp & Hrep).
  destruct H0 as (Hd & Hb & Hpipe & Hout & Herr & Htr & Hcalm).
  destruct Hw as (Hfds & Hr & Hrd & Hwr & Hblk).
  assert (Hgood : forall res w',
            kern w' = kern w0 \/ kern w' = set_sigint Handler (kern w0) ->
            pipefds w' = pipefds w0 -> stdout w' = stdout w0 -> stderr w' = stderr w0 ->
            sched w' = sched w0 ->
            trace w' = trace w0 ++ [Called (Signal SIGINT) res] ->
            selfpipe_inv strict r wr 0 w' /\ calmly strict (sched w') /\
            (exists res, trace w' = setup_trace r wr res) /\
            k_pipe (kern w') = [] /\ stdout w' = [] /\ stderr w' = []).
  { intros res w' Hk' Hp' Hout' Herr' Hs' Htr'.
    assert (Hfds' : k_fds (kern w') = k_fds (kern w) /\
                    k_blocked (kern w') = k_blocked (kern w) /\
                    k_pipe (kern w') = k_pipe (kern w)).
    { rewrite <- Hk. destruct Hk' as [-> | ->]; done. }
    destruct Hfds' as (Hf1 & Hf2 & Hf3).
    assert (Htrace : trace w' = setup_trace r wr res).
    { rewrite Htr', Htr. done. }
    rewrite Hk in Hpipe.
    split; [|split; [by rewrite Hs'|split; [by exists res|]]].
    - split.
      + split.
        * unfold wired. rewrite Hp', Hp, Hf1, Hf2. done.
        * exists res, []. rewrite app_nil_r. done.
      + intros _. split; [|lia]. exists 0%nat. rewrite Htrace, Hout', Herr', Hf3, Hpipe.
        done.
    - rewrite Hf3, Hpipe, Hout', Herr'. done. }
  destruct rep as [|e|n d].
  - unfold perform, do_signal. simpl. apply (Hgood (Done (address (k_sigint (kern w0))))); auto.
  - unfold answer. simpl. apply (Hgood (Fail e)); auto.
  - unfold perform, do_signal. simpl. apply (Hgood (Done (address (k_sigint (kern w0))))); auto.
Qed.

Lemma selfpipe_setup_post w :
  starting strict [] w ->
  post (fun read_fd w' => exists wr,
          selfpipe_inv strict read_fd wr 0 w' /\ calmly strict (sched w') /\
          (exists res, trace w' = setup_trace read_fd wr res) /\
          k_pipe (kern w') = [] /\ stdout w' = [] /\ stderr w' = [])
       setup_halt (SelfPipe.setup L w).
Proof using Type.
  intros Hst. unfold SelfPipe.setup.
  eapply post_bind; [by apply setup_pipe|]. intros rc w1 Hc1.
  eapply post_bind; [eapply setup_check; exact Hc1|]. intros ? w2 (r & wr & Hw2 & Hs2).
  unfold bind at 1, gets at 1.
  assert (Hfds2 : pipefds w2 = (r, wr)) by apply Hw2. rewrite Hfds2. cbn [fst].
  eapply post_bind; [apply (setup_fcntl r [Called (Pipe (r, wr)) (Done 0)] r wr);
                       [by left|done|done|done]|].
  intros rc' w3 Hc3.
  eapply post_bind; [eapply setup_check; exact Hc3|]. intros ? w4 (Hw4 & Hs4).
  unfold bind at 1, gets at 1.
  assert (Hfds4 : pipefds w4 = (r, wr)) by apply Hw4. rewrite Hfds4. cbn [snd].
  eapply post_bind; [apply (setup_fcntl wr [Called (Pipe (r, wr)) (Done 0);
                                                 Called (Fcntl r F_SETFD O_NONBLOCK) (Done 0)]
                                r wr); [by right|done|done|done]|].
  intros rc'' w5 Hc5.
  eapply post_bind; [eapply setup_check; exact Hc5|]. intros ? w6 (Hw6 & Hs6).
  unfold bind at 1, gets at 1.
  assert (Hfds6 : pipefds w6 = (r, wr)) by apply Hw6. rewrite Hfds6. cbn [fst].
  eapply post_bind; [eapply (setup_signal r wr); [done|exact Hs6]|]. intros ? w7 H7.
  unfold ret. simpl. by exists wr.
Qed.

Lemma selfpipe_main_post w :
  starting strict [] w ->
  post (fun _ _ => False) (selfpipe_main_halt strict) (SelfPipe.main L w).
Proof using Type.
  intros Hst. unfold SelfPipe.main.
  eapply post_bind.
  - eapply post_weaken; [by apply selfpipe_setup_post|done|].
    intros h w' H. by left.
  - intros read_fd w1 (wr & Hinv & Hcalm & _).
    eapply post_weaken; [by apply (selfpipe_loop L strict read_fd wr)|done|].
    intros h w' H. right. by exists read_fd, wr.
Qed.

End SelfPipeSetup.

Lemma boot_starting strict inherited evs :
  calmly strict evs -> starting strict [] (boot inherited evs).
Proof. intros H. unfold starting. simpl. done. Qed.

(** ** F_SETFL, the command that was meant *)

Lemma setfl_nonblock_status s :
  Z.land (Z.lor (Z.ldiff s SETFL_MASK) (Z.land O_NONBLOCK SETFL_MASK)) O_NONBLOCK = O_NONBLOCK.
Proof.
  rewrite Z.land_lor_distr_l.
  replace (Z.land (Z.ldiff s SETFL_MASK) O_NONBLOCK) with 0; [reflexivity|].
  symmetry. apply Z.bits_inj'. intros n Hn.
  rewrite Z.land_spec, Z.ldiff_spec, Z.bits_0.
  destruct (Z.eq_dec n 11) as [->|Hne].
  - change (Z.testbit SETFL_MASK 11) with true. by rewrite andb_false_r.
  - replace (Z.testbit O_NONBLOCK n) with false; [by rewrite andb_false_r|].
    symmetry. change O_NONBLOCK with (2 ^ 11). apply Z.pow2_bits_false. lia.
Qed.

Lemma fcntl_setfl_sets_nonblock fd k f :
  k_fds k !! fd = Some f ->
  exists f',
    k_fds (snd (do_fcntl fd F_SETFL O_NONBLOCK k)) !! fd = Some f' /\
    f_kind f' = f_kind f /\
    Z.land (f_status f') O_NONBLOCK = O_NONBLOCK.
Proof.
  intros H. unfold do_fcntl. rewrite H. simpl.
  eexists. rewrite lookup_insert_eq. split; [reflexivity|]. simpl.
  split; [done|apply setfl_nonblock_status].
Qed.

(** ** signalfd.c in a quiet run *)

Section SignalFdRun.
Variable L : libc.

Lemma signalfd_take_sigint fd must rep w :
  signalfd_inv L fd must w ->
  post (fun _ w' => signalfd_inv L fd must w') signalfd_halt
       (take_sigint SignalFd.no_handler rep w).
Proof using Type.
  intros ((Hblk & Hpend & k & Hout & Herr & Hk & Ha) & Hmust & Hfd).
  unfold take_sigint. rewrite Hblk. simpl.
  destruct Hpend as [Hp | Hp]; rewrite Hp in *.
  - change (sigismember 0 SIGINT) with false.
    split; [|split; [done|exact Hfd]].
    split; [done|]. split; [by right|].
    exists k. simpl. rewrite !tally_snoc. simpl. split; [done|split; [done|]].
    simpl in Hk. change (sigaddset 0 SIGINT =? 0) with false. lia.
  - change (sigismember sigint_mask SIGINT) with true.
    split; [|split; [done|exact Hfd]].
    split; [done|]. split; [by right|].
    exists k. simpl. rewrite !tally_snoc. simpl. split; [done|split; [done|]].
    change (sigint_mask =? 0) with false in Hk. simpl in Hk.
    change (sigaddset sigint_mask SIGINT =? 0) with false. lia.
Qed.

Lemma signalfd_enter fd must w :
  signalfd_inv L fd must w -> Forall (fun ev => quiet ev = true) (sched w) ->
  post (fun rep w' => signalfd_inv L fd must w' /\
                      Forall (fun ev => quiet ev = true) (sched w') /\
                      quiet (Complete rep) = true /\
                      (length (sched w') < length (sched w))%nat)
       signalfd_halt (enter SignalFd.no_handler w).
Proof using Type.
  intros Hinv Hq.
  apply (enter_post SignalFd.no_handler (signalfd_inv L fd must)
           (fun ev => quiet ev = true) signalfd_halt); try done.
  intros rep w0 _ H0. by apply signalfd_take_sigint.
Qed.

Lemma signalfd_inv_log fd must e w :
  is_arrival e = false -> signalfd_inv L fd must w -> signalfd_inv L fd must (log e w).
Proof using Type.
  intros He ((Hblk & Hpend & k & Hout & Herr & Hk & Ha) & Hmust & Hfd).
  assert (Hh : is_held e = false) by (by destruct e as [|[]]).
  assert (Hm : is_merged e = false) by (by destruct e as [|[]]).
  split; [|split; [done|exact Hfd]].
  split; [done|]. split; [done|]. exists k. simpl. rewrite !tally_snoc, He, Hh, Hm.
  split; [done|split; [done|lia]].
Qed.

Lemma signalfd_poll fd w :
  signalfd_inv L (Some fd) false w -> Forall (fun ev => quiet ev = true) (sched w) ->
  post (fun rc w' =>
          Forall (fun ev => quiet ev = true) (sched w') /\
          (length (sched w') < length (sched w))%nat /\
          ((rc = 1 /\ signalfd_inv L (Some fd) true w') \/
           (rc = 0 /\ signalfd_inv L (Some fd) false w' /\ k_pending (kern w') = 0)))
       signalfd_halt (poll SignalFd.no_handler fd POLLIN 5000 w).
Proof using Type.
  intros Hinv Hq. unfold poll, blocking, poll_with.
  eapply post_bind; [by apply signalfd_enter|].
  intros rep w0 (H0 & Hq0 & Hrep & Hlt).
  destruct rep as [|e|n d]; [|done|done].
  pose proof H0 as ((Hblk & Hpend & _) & _ & Hfd & Hlook).
  unfold do_poll, readable. rewrite Hlook. simpl.
  destruct (fd <? 0) eqn:Hneg; [lia|].
  destruct Hpend as [Hp | Hp]; rewrite Hp.
  - change (negb (Z.land POLLIN POLLIN =? 0) && negb (Z.land 0 sigint_mask =? 0)) with false.
    unfold answer. simpl.
    split; [done|]. split; [done|]. right. split; [done|].
    split; [by apply signalfd_inv_log|done].
  - change (negb (Z.land POLLIN POLLIN =? 0) && negb (Z.land sigint_mask sigint_mask =? 0))
      with true.
    unfold answer. simpl.
    split; [done|]. split; [done|]. left. split; [done|].
    apply signalfd_inv_log; [done|].
    destruct H0 as (Hm & _ & Hf). split; [done|]. split; [done|exact Hf].
Qed.

Lemma sigint_line_eq :
  ("Received signal " ++ fmt_d (uint32_at 0 (siginfo_record SIGINT)) ++ " ("
   ++ strsignal L (int32 (uint32_at 0 (siginfo_record SIGINT))) ++ ")" ++ newline)%string
  = sigint_line L.
Proof using Type. reflexivity. Qed.

Lemma signalfd_handle_signal fd w :
  signalfd_inv L (Some fd) true w -> Forall (fun ev => quiet ev = true) (sched w) ->
  post (fun _ w' =>
          (signalfd_inv L (Some fd) false w' /\
           Forall (fun ev => quiet ev = true) (sched w')) /\
          (length (sched w') <= length (sched w))%nat)
       signalfd_halt (SignalFd.handle_signal L fd w).
Proof using Type.
  intros Hinv Hq. unfold SignalFd.handle_signal, read, blocking, read_with.
  eapply post_bind.
  { eapply post_bind; [by apply signalfd_enter|].
    intros rep w0 (H0 & Hq0 & Hrep & Hlt).
    instantiate (1 := fun res w' =>
      res = (sizeof_siginfo, siginfo_record SIGINT) /\
      Forall (fun ev => quiet ev = true) (sched w') /\
      (length (sched w') < length (sched w))%nat /\
      sigismember (k_blocked (kern w')) SIGINT = true /\
      k_pending (kern w') = 0 /\
      (0 <= fd /\
       k_fds (kern w') !! fd = Some (File (SignalFd sigint_mask) 0 (Z.lor O_RDWR O_NONBLOCK))) /\
      exists k, stdout w' = repeat (sigint_line L) k /\ stderr w' = [] /\
                S k = tally is_held (trace w') /\
                tally is_arrival (trace w')
                = (tally is_held (trace w') + tally is_merged (trace w'))%nat).
    destruct rep as [|e|n d]; [|done|done].
    pose proof H0 as ((Hblk & _ & k & Hout & Herr & Hk & Ha) & Hmust & Hfd & Hlook).
    specialize (Hmust eq_refl).
    unfold do_read. rewrite Hlook. simpl.
    change (sizeof_siginfo <? sizeof_siginfo) with false. cbv iota.
    rewrite Hmust.
    change (sigismember (Z.land sigint_mask sigint_mask) SIGINT) with true. cbv iota.
    unfold bind, answer, ret. simpl.
    split; [done|]. split; [done|]. split; [done|]. split; [done|].
    split; [done|]. split; [done|].
    exists k. rewrite !tally_snoc. simpl. rewrite Hmust in Hk.
    change (sigint_mask =? 0) with false in Hk. simpl in Hk.
    split; [done|split; [done|lia]]. }
  intros res w1 (-> & Hq1 & Hlt & Hblk & Hpend & Hfd & k & Hout & Herr & Hk & Ha).
  cbn [fst snd]. change (negb (sizeof_siginfo =? sizeof_siginfo)) with false. cbv iota.
  unfold bind at 1, ret at 1. rewrite sigint_line_eq.
  unfold printf, modify. simpl.
  split; [|lia]. split; [|done].
  split; [|split; [done|exact Hfd]].
  split; [done|]. split; [by left|].
  exists (S k). simpl. rewrite Hout, repeat_snoc, Hpend. simpl.
  split; [done|split; [done|lia]].
Qed.

Lemma signalfd_loop fd w :
  signalfd_inv L (Some fd) false w -> Forall (fun ev => quiet ev = true) (sched w) ->
  post (fun _ w' => signalfd_inv L (Some fd) false w' /\ k_pending (kern w') = 0)
       signalfd_halt (SignalFd.event_loop L fd w).
Proof using Type.
  intros Hinv Hq.
  apply (while_post
           (fun w' => signalfd_inv L (Some fd) false w' /\
                      Forall (fun ev => quiet ev = true) (sched w'))
           (fun w' => signalfd_inv L (Some fd) true w' /\
                      Forall (fun ev => quiet ev = true) (sched w'))
           (fun w' => signalfd_inv L (Some fd) false w' /\ k_pending (kern w') = 0));
    [| |done].
  - intros w0 (H0 & Hq0). unfold SignalFd.wait_ready.
    eapply post_bind; [by apply signalfd_poll|].
    intros rc w1 (Hq1 & Hlt & [(-> & H1)|(-> & H1 & Hp)]); unfold ret; simpl; done.
  - intros w0 (H0 & Hq0). by apply signalfd_handle_signal.
Qed.

Lemma quiet_complete rep : quiet (Complete rep) = true -> rep = Normal.
Proof using Type. by destruct rep. Qed.

Lemma signalfd_setup_post inherited evs :
  Forall (fun ev => quiet ev = true) evs ->
  post (fun fd w' => signalfd_inv L (Some fd) false w' /\
                     Forall (fun ev => quiet ev = true) (sched w'))
       signalfd_halt (SignalFd.setup (boot inherited evs)).
Proof using Type.
  intros Hq. unfold SignalFd.setup.
  apply post_bind with
    (R := fun _ w' => signalfd_inv L None false w' /\
                      Forall (fun ev => quiet ev = true) (sched w')).
  - unfold sigprocmask, syscall, bind.
    rewrite enter_default by done. simpl.
    destruct evs as [|[rep|rep|n rep] rest]; simpl; [done|done| |done].
    apply Forall_cons in Hq as [Hrep Hrest]. apply quiet_complete in Hrep. subst rep.
    unfold perform, do_sigprocmask, answer. simpl.
    split; [|done]. split; [|done]. split; [done|]. split; [by left|].
    by exists 0%nat.
  - intros ? w1 (H1 & Hq1). unfold signalfd, syscall.
    eapply post_bind.
    + eapply post_bind; [by apply signalfd_enter|].
      intros rep w2 (H2 & Hq2 & Hrep & Hlt). apply quiet_complete in Hrep. subst rep.
      instantiate (1 := fun fd w' => signalfd_inv L (Some fd) false w' /\
                                     Forall (fun ev => quiet ev = true) (sched w')).
      unfold perform, do_signalfd.
      change (negb (Z.ldiff SFD_NONBLOCK (Z.lor SFD_NONBLOCK SFD_CLOEXEC) =? 0)) with false.
      change (-1 =? -1) with true. cbv iota. unfold answer. simpl.
      split; [|done].
      destruct H2 as ((Hblk & Hpend & k & Hout & Herr & Hk & Ha) & _ & _).
      split; [|split; [done|]].
      * split; [done|]. split; [done|]. exists k. simpl. rewrite !tally_snoc. simpl.
        split; [done|split; [done|lia]].
      * split; [apply lowest_free_nonneg|]. simpl. by rewrite lookup_insert_eq.
    + intros fd w2 H2. done.
Qed.

Lemma signalfd_main_post inherited evs :
  Forall (fun ev => quiet ev = true) evs ->
  post (fun v w' => v = 0 /\
                    stdout w' = repeat (sigint_line L) (tally is_held (trace w')) /\
                    stderr w' = [] /\
                    tally is_arrival (trace w')
                    = (tally is_held (trace w') + tally is_merged (trace w'))%nat)
       signalfd_halt (SignalFd.main L (boot inherited evs)).
Proof using Type.
  intros Hq. unfold SignalFd.main.
  eapply post_bind; [by apply signalfd_setup_post|].
  intros fd w1 (H1 & Hq1).
  eapply post_bind; [by apply signalfd_loop|].
  intros ? w2 (((_ & _ & k & Hout & Herr & Hk & Ha) & _) & Hp).
  unfold ret. simpl. rewrite Hp in Hk. simpl in Hk.
  split; [done|]. split; [|done]. rewrite Hout. f_equal. lia.
Qed.

End SignalFdRun.

(** ** Signals that come one at a time are all served *)

Lemma enter_complete handler w rep rest :
  sched w = Complete rep :: rest -> enter handler w = (Ret rep, set_sched rest w).
Proof. intros H. unfold enter. by rewrite H. Qed.

Lemma enter_sigint handler w rep rest :
  sched w = Sigint rep :: rest ->
  enter handler w
  = (take_sigint handler rep ;;; enter_from handler rest) (set_sched rest w).
Proof. intros H. unfold enter. by rewrite H. Qed.

(* projections of worlds that were built by the setters *)
Ltac wsimpl :=
  cbn [kern errno pipefds stdout stderr sched trace
       set_kern set_errno set_pipefds put_stdout put_stderr set_sched log
       k_fds k_pipe k_blocked k_pending k_sigint
       set_fds set_pipe set_blocked set_pending set_sigint fst snd] in *.

Section Served.
Variable L : libc.




(* the set-up when each of its four calls is carried out *)
Lemma selfpipe_setup_normal inherited rest :
  exists r wr w',
    SelfPipe.setup L (boot inherited (selfpipe_setup_ok ++ rest)) = (Ret r, w') /\
    idle r wr w' /\ sched w' = rest /\ stdout w' = [] /\
    tally is_caught (trace w') = 0%nat /\ tally is_arrival (trace w') = 0%nat.
Proof using Type.
  unfold SelfPipe.setup, pipe, bind at 1 2.
  erewrite enter_complete by reflexivity.
  wsimpl.
  match goal with
  | |- context [do_pipe ?k] => destruct (do_pipe k) as [[r wr] k1] eqn:Hdp
  end.
  apply do_pipe_spec in Hdp as (Hr & Hrd & Hwr & Hp1 & Hb1 & Hd1). wsimpl.
  assert (Hne : r <> wr) by (intros ->; rewrite Hrd in Hwr; discriminate).
  unfold answer. change (0 =? -1) with false. cbv iota.
  unfold ret at 1, bind at 1. unfold bind at 1, gets at 1. wsimpl.
  unfold fcntl at 1, syscall, bind at 1 2.
  erewrite enter_complete by reflexivity.
  unfold perform. wsimpl. rewrite (do_fcntl_setfd r O_NONBLOCK k1 _ Hrd).
  unfold answer. change (0 =? -1) with false. cbv iota.
  unfold ret at 1, bind at 1. unfold bind at 1, gets at 1. wsimpl.
  unfold fcntl at 1, syscall, bind at 1 2.
  erewrite enter_complete by reflexivity.
  unfold perform. wsimpl.
  erewrite (do_fcntl_setfd wr O_NONBLOCK)
    by (cbn [k_fds set_fds]; rewrite lookup_insert_ne by done; exact Hwr).
  unfold answer. change (0 =? -1) with false. cbv iota.
  unfold ret at 1, bind at 1. unfold bind at 1, gets at 1. wsimpl.
  unfold signal, syscall, bind at 1 2.
  erewrite enter_complete by reflexivity.
  unfold perform, do_signal. change (SIGINT =? SIGINT) with true. cbv iota.
  unfold answer, ret. wsimpl.
  exists r, wr. eexists. split; [reflexivity|].
  assert (Hne' : wr <> r) by congruence.
  unfold idle, wired. wsimpl. cbn [f_kind f_status]. rewrite Hb1, Hp1.
  repeat split; try done.
  - rewrite lookup_insert_ne by done. by rewrite lookup_insert_eq.
  - by rewrite lookup_insert_eq.
Qed.



(* the poll that finds nothing *)
Lemma signalfd_last_round fd w rest :
  waiting fd w -> sched w = Complete Normal :: rest ->
  exists w',
    SignalFd.wait_ready fd w = (Ret false, w') /\
    stdout w' = stdout w /\ stderr w' = stderr w /\
    tally is_arrival (trace w') = tally is_arrival (trace w) /\
    trace w' = trace w ++ [Called (Poll fd POLLIN 5000) (Done 0)].
Proof using Type.
  intros (Hfd & Hlook & Hblk & Hpend) Hs.
  unfold SignalFd.wait_ready, poll, blocking, poll_with, bind at 1 2.
  rewrite (enter_complete _ _ _ _ Hs).
  unfold do_poll, readable. wsimpl. rewrite Hlook. cbn [f_kind]. rewrite Hpend.
  destruct (fd <? 0) eqn:Hneg; [lia|].
  change (negb (Z.land POLLIN POLLIN =? 0) && negb (Z.land 0 sigint_mask =? 0)) with false.
  cbv iota. change (5000 <? 0) with false. cbv iota.
  unfold answer, ret. change (0 >? 0) with false.
  eexists. split; [reflexivity|]. wsimpl. rewrite tally_snoc. simpl.
  split; [done|split; [done|split; [lia|done]]].
Qed.


(* the set-up when both of its calls are carried out *)
Lemma signalfd_setup_normal inherited rest :
  exists fd w',
    SignalFd.setup (boot inherited (signalfd_setup_ok ++ rest)) = (Ret fd, w') /\
    waiting fd w' /\ sched w' = rest /\ stdout w' = [] /\ stderr w' = [] /\
    tally is_arrival (trace w') = 0%nat.
Proof using Type.
  unfold SignalFd.setup, sigprocmask, syscall, bind at 1 2.
  erewrite enter_complete by reflexivity.
  unfold perform, do_sigprocmask.
  change (SIG_SETMASK =? SIG_BLOCK) with false.
  change (SIG_SETMASK =? SIG_UNBLOCK) with false.
  change (SIG_SETMASK =? SIG_SETMASK) with true. cbv iota.
  unfold answer. wsimpl.
  unfold signalfd, syscall, bind at 1 2.
  erewrite enter_complete by reflexivity.
  unfold perform, do_signalfd.
  change (negb (Z.ldiff SFD_NONBLOCK (Z.lor SFD_NONBLOCK SFD_CLOEXEC) =? 0)) with false.
  change (-1 =? -1) with true. cbv iota.
  unfold answer, bind, ret. wsimpl.
  eexists. eexists. split; [reflexivity|].
  unfold waiting. wsimpl.
  split; [|done].
  split; [apply lowest_free_nonneg|]. split; [by rewrite lookup_insert_eq|done].
Qed.


End Served.

(** * The claims *)

(** C3.  The polling loop of selfpipetrick.c, by the outcome of its poll:
    the return value is -1 or more; 0 prints the timeout message and exits
    with EXIT_SUCCESS; -1 with errno EINTR prints nothing and starts the
    loop, that is the poll, again; -1 with any other errno prints the
    diagnostic of "poll" and exits with EXIT_FAILURE; a positive value goes
    on with handle_signal and then the loop. *)
Theorem selfpipe_poll_outcomes (L : libc) (read_fd r : Z) (w w1 : world) :
  poll SelfPipe.on_sigint read_fd POLLIN 5000 w = (Ret r, w1) ->
  -1 <= r /\
  (r = 0 ->
     @forever Z (SelfPipe.iteration L read_fd) w
     = (Exit EXIT_SUCCESS, put_stdout timeout_message w1)) /\
  (r < 0 -> errno w1 = EINTR ->
     @forever Z (SelfPipe.iteration L read_fd) w
     = forever (SelfPipe.iteration L read_fd) w1 /\
     stdout w1 = stdout w /\ stderr w1 = stderr w) /\
  (r < 0 -> errno w1 <> EINTR ->
     @forever Z (SelfPipe.iteration L read_fd) w
     = (Exit EXIT_FAILURE, put_stderr (diagnostic L "poll" (errno w1)) w1)) /\
  (0 < r ->
     @forever Z (SelfPipe.iteration L read_fd) w
     = (SelfPipe.handle_signal L read_fd ;;; forever (SelfPipe.iteration L read_fd)) w1).
Proof.
  intros Hpoll.
  pose proof (poll_range _ _ _ _ _ _ _ Hpoll) as Hr.
  split; [done|].
  rewrite (selfpipe_loop_step L read_fd w r w1 Hpoll).
  unfold bind, SelfPipe.switch.
  split; [|split; [|split]].
  - intros ->. reflexivity.
  - intros Hneg Herr. assert (r = -1) as -> by lia.
    pose proof (streams_poll (stdout w) (stderr w) read_fd POLLIN 5000 w) as Hs.
    rewrite Hpoll in Hs. destruct Hs as [Hout Herr']; [done|].
    split; [|done].
    simpl. unfold gets, bind. simpl. rewrite Herr. reflexivity.
  - intros Hneg Herr. assert (r = -1) as -> by lia. simpl. unfold gets, bind. simpl.
    destruct (errno w1 =? EINTR) eqn:He; [apply Z.eqb_eq in He; done|].
    reflexivity.
  - intros Hpos.
    destruct (r =? 0) eqn:H0; [apply Z.eqb_eq in H0; lia|].
    destruct (r =? -1) eqn:H1; [apply Z.eqb_eq in H1; lia|].
    reflexivity.
Qed.

Lemma selfpipe_poll_outcomes_witness :
  poll SelfPipe.on_sigint 3 POLLIN 5000 (selfpipe_world [Sigint Normal; Complete (Fault EINTR)])
  = (Ret (-1),
     snd (poll SelfPipe.on_sigint 3 POLLIN 5000
            (selfpipe_world [Sigint Normal; Complete (Fault EINTR)]))) /\
  @forever Z (SelfPipe.iteration glibc 3)
     (selfpipe_world [Sigint Normal; Complete (Fault EINTR)])
  = forever (SelfPipe.iteration glibc 3)
      (snd (poll SelfPipe.on_sigint 3 POLLIN 5000
              (selfpipe_world [Sigint Normal; Complete (Fault EINTR)]))).
Proof.
  assert (H : poll SelfPipe.on_sigint 3 POLLIN 5000
                (selfpipe_world [Sigint Normal; Complete (Fault EINTR)])
              = (Ret (-1),
                 snd (poll SelfPipe.on_sigint 3 POLLIN 5000
                        (selfpipe_world [Sigint Normal; Complete (Fault EINTR)]))))
    by (vm_compute; reflexivity).
  split; [exact H|].
  destruct (selfpipe_poll_outcomes glibc 3 (-1) _ _ H) as (_ & _ & Hintr & _).
  apply Hintr; [lia|vm_compute; reflexivity].
Defined.

(** C4.  The loop of signalfd.c, by the outcome of its poll: a positive
    value runs handle_signal and then the loop again; any other value ends
    the loop at once, and what is left of main returns 0 without a further
    call. *)
Theorem signalfd_loop_policy (L : libc) (pollfd_fd r : Z) (w w1 : world) :
  poll SignalFd.no_handler pollfd_fd POLLIN 5000 w = (Ret r, w1) ->
  (0 < r ->
     SignalFd.event_loop L pollfd_fd w
     = (SignalFd.handle_signal L pollfd_fd ;;; SignalFd.event_loop L pollfd_fd) w1) /\
  (r <= 0 ->
     SignalFd.event_loop L pollfd_fd w = (Ret tt, w1) /\
     (SignalFd.event_loop L pollfd_fd ;;; ret 0) w = (Ret 0, w1)).
Proof.
  intros Hpoll.
  assert (Hstep : SignalFd.event_loop L pollfd_fd w
            = (if r >? 0
               then SignalFd.handle_signal L pollfd_fd ;;; SignalFd.event_loop L pollfd_fd
               else ret tt) w1).
  { rewrite signalfd_loop_unfold. unfold SignalFd.wait_ready, bind at 1 2.
    rewrite Hpoll. reflexivity. }
  split.
  - intros Hr. rewrite Hstep. destruct (r >? 0) eqn:E; [done|lia].
  - intros Hr. assert (Hend : SignalFd.event_loop L pollfd_fd w = (Ret tt, w1)).
    { rewrite Hstep. destruct (r >? 0) eqn:E; [lia|done]. }
    split; [done|]. unfold bind. by rewrite Hend.
Qed.

Lemma signalfd_loop_policy_witness :
  poll SignalFd.no_handler 3 POLLIN 5000 (signalfd_world [Complete Normal])
  = (Ret 0, snd (poll SignalFd.no_handler 3 POLLIN 5000 (signalfd_world [Complete Normal]))) /\
  (SignalFd.event_loop glibc 3 ;;; ret 0) (signalfd_world [Complete Normal])
  = (Ret 0, snd (poll SignalFd.no_handler 3 POLLIN 5000 (signalfd_world [Complete Normal]))).
Proof.
  assert (H : poll SignalFd.no_handler 3 POLLIN 5000 (signalfd_world [Complete Normal])
              = (Ret 0, snd (poll SignalFd.no_handler 3 POLLIN 5000
                               (signalfd_world [Complete Normal]))))
    by (vm_compute; reflexivity).
  split; [exact H|].
  destruct (signalfd_loop_policy glibc 3 0 _ _ H) as [_ Hend].
  apply Hend. lia.
Defined.

(** C5.  handle_signal of signalfd.c makes one read, of sizeof (struct
    signalfd_siginfo) bytes.  When the read returns anything but that size
    it prints the diagnostic of "read" and exits with status 1; otherwise it
    prints one line with the number in ssi_signo and the name strsignal has
    for it.  The number is the one the kernel put in the record. *)
Theorem signalfd_consume (L : libc) (signal_fd s : Z) (siginfo : list Byte.byte)
    (w w1 : world) :
  read SignalFd.no_handler signal_fd sizeof_siginfo w = (Ret (s, siginfo), w1) ->
  tally is_read (trace w1) = S (tally is_read (trace w)) /\
  (s <> sizeof_siginfo ->
     SignalFd.handle_signal L signal_fd w
     = (Exit 1, put_stderr (diagnostic L "read" (errno w1)) w1)) /\
  (s = sizeof_siginfo ->
     SignalFd.handle_signal L signal_fd w
     = (Ret tt,
        put_stdout ("Received signal " ++ fmt_d (uint32_at 0 siginfo) ++ " ("
                    ++ strsignal L (int32 (uint32_at 0 siginfo)) ++ ")" ++ newline)%string
                   w1)) /\
  (forall signo, 0 <= signo < 4294967296 -> uint32_at 0 (siginfo_record signo) = signo).
Proof.
  intros Hread. split; [|split; [|split]].
  - pose proof (signalfd_read_counts signal_fd sizeof_siginfo w) as H.
    by rewrite Hread in H.
  - intros Hs. unfold SignalFd.handle_signal, bind at 1 2. rewrite Hread. simpl.
    destruct (s =? sizeof_siginfo) eqn:E; [apply Z.eqb_eq in E; done|]. reflexivity.
  - intros ->. unfold SignalFd.handle_signal, bind at 1 2. rewrite Hread. reflexivity.
  - apply uint32_at_siginfo_record.
Qed.

Lemma signalfd_consume_witness :
  read SignalFd.no_handler 3 sizeof_siginfo (signalfd_world [Sigint Normal; Complete Normal])
  = (Ret (128, siginfo_record SIGINT),
     snd (read SignalFd.no_handler 3 sizeof_siginfo
            (signalfd_world [Sigint Normal; Complete Normal]))) /\
  SignalFd.handle_signal glibc 3 (signalfd_world [Sigint Normal; Complete Normal])
  = (Ret tt,
     put_stdout ("Received signal 2 (Interrupt)" ++ newline)%string
       (snd (read SignalFd.no_handler 3 sizeof_siginfo
               (signalfd_world [Sigint Normal; Complete Normal])))).
Proof.
  assert (H : read SignalFd.no_handler 3 sizeof_siginfo
                (signalfd_world [Sigint Normal; Complete Normal])
              = (Ret (128, siginfo_record SIGINT),
                 snd (read SignalFd.no_handler 3 sizeof_siginfo
                        (signalfd_world [Sigint Normal; Complete Normal]))))
    by (vm_compute; reflexivity).
  split; [exact H|].
  destruct (signalfd_consume glibc 3 128 _ _ _ H) as (_ & _ & Hok & _).
  exact (Hok eq_refl).
Defined.

(** C6.  handle_signal of selfpipetrick.c makes one read, of one byte.
    When the read returns anything but 1 it prints the diagnostic of "read"
    and exits with EXIT_FAILURE; otherwise it prints the fixed line
    "Received signal", in which there is no digit. *)
Theorem selfpipe_consume (L : libc) (signal_fd n : Z) (buff : list Byte.byte)
    (w w1 : world) :
  read SelfPipe.on_sigint signal_fd 1 w = (Ret (n, buff), w1) ->
  tally is_read (trace w1) = S (tally is_read (trace w)) /\
  (n <> 1 ->
     SelfPipe.handle_signal L signal_fd w
     = (Exit EXIT_FAILURE, put_stderr (diagnostic L "read" (errno w1)) w1)) /\
  (n = 1 ->
     SelfPipe.handle_signal L signal_fd w = (Ret tt, put_stdout received_message w1)) /\
  forallb (fun c => negb (is_digit c)) (list_ascii_of_string received_message) = true.
Proof.
  intros Hread. split; [|split; [|split]].
  - pose proof (selfpipe_read_counts signal_fd 1 w) as H.
    by rewrite Hread in H.
  - intros Hn. unfold SelfPipe.handle_signal, bind at 1 2. rewrite Hread. simpl.
    destruct (n =? 1) eqn:E; [apply Z.eqb_eq in E; done|]. reflexivity.
  - intros ->. unfold SelfPipe.handle_signal, bind at 1 2. rewrite Hread. reflexivity.
  - reflexivity.
Qed.

Lemma selfpipe_consume_witness :
  read SelfPipe.on_sigint 3 1 (selfpipe_world [Sigint Normal; Complete Normal])
  = (Ret (1, [Byte.x00]),
     snd (read SelfPipe.on_sigint 3 1 (selfpipe_world [Sigint Normal; Complete Normal]))) /\
  SelfPipe.handle_signal glibc 3 (selfpipe_world [Sigint Normal; Complete Normal])
  = (Ret tt,
     put_stdout received_message
       (snd (read SelfPipe.on_sigint 3 1 (selfpipe_world [Sigint Normal; Complete Normal])))).
Proof.
  assert (H : read SelfPipe.on_sigint 3 1 (selfpipe_world [Sigint Normal; Complete Normal])
              = (Ret (1, [Byte.x00]),
                 snd (read SelfPipe.on_sigint 3 1
                        (selfpipe_world [Sigint Normal; Complete Normal]))))
    by (vm_compute; reflexivity).
  split; [exact H|].
  destruct (selfpipe_consume glibc 3 1 _ _ _ H) as (_ & _ & Hok & _).
  exact (Hok eq_refl).
Defined.

(** C9.  In signalfd.c a poll that returns 0 or less, for whatever reason
    and with whatever errno, ends the run in one and the same way: the loop
    is left, main returns 0, and nothing was printed on either stream since
    before the poll. *)
Theorem signalfd_wait_failure_silent (L : libc) (pollfd_fd r : Z) (w w1 : world) :
  poll SignalFd.no_handler pollfd_fd POLLIN 5000 w = (Ret r, w1) ->
  r <= 0 ->
  (SignalFd.event_loop L pollfd_fd ;;; ret 0) w = (Ret 0, w1) /\
  observable ((SignalFd.event_loop L pollfd_fd ;;; ret 0) w) = (Some 0, stdout w, stderr w).
Proof.
  intros Hpoll Hr.
  assert (Hend : (SignalFd.event_loop L pollfd_fd ;;; ret 0) w = (Ret 0, w1)).
  { unfold bind at 1. rewrite signalfd_loop_unfold.
    unfold SignalFd.wait_ready, bind. rewrite Hpoll.
    destruct (r >? 0) eqn:E; [lia|reflexivity]. }
  split; [done|]. rewrite Hend. unfold observable. simpl.
  pose proof (streams_poll_signalfd (stdout w) (stderr w) pollfd_fd POLLIN 5000 w) as Hs.
  rewrite Hpoll in Hs. destruct Hs as [-> ->]; done.
Qed.

Lemma signalfd_wait_failure_silent_witness :
  poll SignalFd.no_handler 3 POLLIN 5000 (signalfd_world [Complete (Fault EINTR)])
  = (Ret (-1),
     snd (poll SignalFd.no_handler 3 POLLIN 5000 (signalfd_world [Complete (Fault EINTR)]))) /\
  -1 <= 0 /\
  observable ((SignalFd.event_loop glibc 3 ;;; ret 0) (signalfd_world [Complete (Fault EINTR)]))
  = (Some 0, [], []).
Proof.
  assert (H : poll SignalFd.no_handler 3 POLLIN 5000 (signalfd_world [Complete (Fault EINTR)])
              = (Ret (-1),
                 snd (poll SignalFd.no_handler 3 POLLIN 5000
                        (signalfd_world [Complete (Fault EINTR)]))))
    by (vm_compute; reflexivity).
  split; [exact H|]. split; [lia|].
  apply (signalfd_wait_failure_silent glibc 3 (-1) _ _ H). lia.
Defined.




(** C2, as amended.  In selfpipetrick.c a failing pipe() and a failing
    fcntl(), the first or the second, end the program at once: the
    diagnostic of the call is printed, the exit status is EXIT_FAILURE and
    no poll was made.  The set-up of signalfd.c looks at no return value: it
    never exits and never prints, and whatever sigprocmask() and signalfd()
    return, -1 included, the set-up returns and main goes on to the wait:
    it polls the value of signalfd(), with nothing printed before that poll
    returns, and the value of the poll decides what comes next. *)
Theorem setup_failures (L : libc) :
  (forall w w1,
     pipe SelfPipe.on_sigint w = (Ret (-1), w1) ->
     SelfPipe.main L w = (Exit EXIT_FAILURE, put_stderr (diagnostic L "pipe" (errno w1)) w1) /\
     tally is_poll (trace w1) = tally is_poll (trace w)) /\
  (forall w rc w1 w2,
     pipe SelfPipe.on_sigint w = (Ret rc, w1) -> rc <> -1 ->
     fcntl SelfPipe.on_sigint (fst (pipefds w1)) F_SETFD O_NONBLOCK w1 = (Ret (-1), w2) ->
     SelfPipe.main L w = (Exit EXIT_FAILURE, put_stderr (diagnostic L "fcntl" (errno w2)) w2) /\
     tally is_poll (trace w2) = tally is_poll (trace w)) /\
  (forall w rc w1 rc' w2 w3,
     pipe SelfPipe.on_sigint w = (Ret rc, w1) -> rc <> -1 ->
     fcntl SelfPipe.on_sigint (fst (pipefds w1)) F_SETFD O_NONBLOCK w1 = (Ret rc', w2) ->
     rc' <> -1 ->
     fcntl SelfPipe.on_sigint (snd (pipefds w2)) F_SETFD O_NONBLOCK w2 = (Ret (-1), w3) ->
     SelfPipe.main L w = (Exit EXIT_FAILURE, put_stderr (diagnostic L "fcntl" (errno w3)) w3) /\
     tally is_poll (trace w3) = tally is_poll (trace w)) /\
  (forall w,
     (forall c, fst (SignalFd.setup w) <> Exit c) /\
     stdout (snd (SignalFd.setup w)) = stdout w /\
     stderr (snd (SignalFd.setup w)) = stderr w /\
     tally is_poll (trace (snd (SignalFd.setup w))) = tally is_poll (trace w)) /\
  (forall w rc w1 fd w2,
     sigprocmask SignalFd.no_handler SIG_SETMASK (sigaddset sigemptyset SIGINT) w
     = (Ret rc, w1) ->
     signalfd SignalFd.no_handler (-1) (sigaddset sigemptyset SIGINT) SFD_NONBLOCK w1
     = (Ret fd, w2) ->
     SignalFd.setup w = (Ret fd, w2) /\
     SignalFd.main L w = (SignalFd.event_loop L fd ;;; ret 0) w2 /\
     forall r w3,
       poll SignalFd.no_handler fd POLLIN 5000 w2 = (Ret r, w3) ->
       tally is_poll (trace w3) = S (tally is_poll (trace w)) /\
       stdout w3 = stdout w /\ stderr w3 = stderr w /\
       (r <= 0 -> SignalFd.main L w = (Ret 0, w3)) /\
       (0 < r ->
          SignalFd.main L w
          = ((SignalFd.handle_signal L fd ;;; SignalFd.event_loop L fd) ;;; ret 0) w3)).
Proof.
  assert (Hpipe : forall w r w1, pipe SelfPipe.on_sigint w = (Ret r, w1) ->
            tally is_poll (trace w1) = tally is_poll (trace w)).
  { intros w r w1 H. pose proof (polls_pipe (tally is_poll (trace w)) w eq_refl) as Hp.
    by rewrite H in Hp. }
  assert (Hfcntl : forall fd w r w1,
            fcntl SelfPipe.on_sigint fd F_SETFD O_NONBLOCK w = (Ret r, w1) ->
            tally is_poll (trace w1) = tally is_poll (trace w)).
  { intros fd w r w1 H.
    pose proof (polls_fcntl (tally is_poll (trace w)) fd F_SETFD O_NONBLOCK w eq_refl) as Hp.
    by rewrite H in Hp. }
  split; [|split; [|split; [|split]]].
  - intros w w1 H. split; [|by eapply Hpipe].
    unfold SelfPipe.main, SelfPipe.setup, bind at 1 2 3. rewrite H. reflexivity.
  - intros w rc w1 w2 H Hrc H1. split.
    + unfold SelfPipe.main, SelfPipe.setup, bind at 1 2 3. rewrite H.
      destruct (rc =? -1) eqn:E; [apply Z.eqb_eq in E; done|].
      unfold ret at 1, bind at 1 2, gets at 1, bind at 1 2. rewrite H1. reflexivity.
    + erewrite Hfcntl by eassumption. by eapply Hpipe.
  - intros w rc w1 rc' w2 w3 H Hrc H1 Hrc' H2. split.
    + unfold SelfPipe.main, SelfPipe.setup, bind at 1 2 3. rewrite H.
      destruct (rc =? -1) eqn:E; [apply Z.eqb_eq in E; done|].
      unfold ret at 1, bind at 1 2, gets at 1, bind at 1 2. rewrite H1.
      destruct (rc' =? -1) eqn:E'; [apply Z.eqb_eq in E'; done|].
      unfold ret at 1, bind at 1 2, gets at 1, bind at 1 2. rewrite H2. reflexivity.
    + erewrite Hfcntl by eassumption. erewrite Hfcntl by eassumption. by eapply Hpipe.
  - intros w.
    pose proof (signalfd_setup_goes_on w) as Hs.
    pose proof (polls_signalfd_setup (tally is_poll (trace w)) w eq_refl) as Hp.
    unfold streams in Hs.
    destruct (SignalFd.setup w) as [[fd|c| |] w']; simpl in *.
    + repeat split; try discriminate; tauto.
    + destruct Hs as [_ Hs]. by specialize (Hs c).
    + repeat split; try discriminate; tauto.
    + repeat split; try discriminate; tauto.
  - intros w rc w1 fd w2 H1 H2.
    assert (Hsetup : SignalFd.setup w = (Ret fd, w2)).
    { unfold SignalFd.setup, bind at 1. rewrite H1. unfold bind at 1. by rewrite H2. }
    assert (Hmain : SignalFd.main L w = (SignalFd.event_loop L fd ;;; ret 0) w2).
    { unfold SignalFd.main, bind at 1. by rewrite Hsetup. }
    split; [exact Hsetup|]. split; [exact Hmain|].
    intros r w3 Hpoll.
    pose proof (signalfd_setup_goes_on w) as Hs.
    pose proof (polls_signalfd_setup (tally is_poll (trace w)) w eq_refl) as Hp.
    rewrite Hsetup in Hs, Hp. simpl in Hs, Hp. destruct Hs as [Hout Herr].
    pose proof (streams_poll_signalfd (stdout w2) (stderr w2) fd POLLIN 5000 w2) as Hs3.
    rewrite Hpoll in Hs3. destruct Hs3 as [Hout3 Herr3]; [done|].
    assert (Hc : tally is_poll (trace w3) = S (tally is_poll (trace w2))).
    { pose proof (poll_counts SignalFd.no_handler fd POLLIN 5000 w2) as Hc.
      rewrite Hpoll in Hc. apply Hc. intros k rep. by apply framed_no_handler. }
    split; [by rewrite Hc, Hp|].
    split; [congruence|]. split; [congruence|].
    assert (Hstep : (SignalFd.event_loop L fd ;;; ret 0) w2
              = ((if r >? 0
                  then SignalFd.handle_signal L fd ;;; SignalFd.event_loop L fd
                  else ret tt) ;;; ret 0) w3).
    { unfold bind at 1. rewrite signalfd_loop_unfold.
      unfold SignalFd.wait_ready, bind at 1 2. rewrite Hpoll. reflexivity. }
    rewrite Hmain, Hstep.
    split; intros Hr; (destruct (r >? 0) eqn:E; [|]); try lia; reflexivity.
Qed.

(* C2 as it was stated: signalfd.c with a signalfd() call that fails goes on
   to poll, prints no diagnostic and ends with status 0. *)
Lemma signalfd_failure_goes_unnoticed :
  trace (snd signalfd_refused)
  = [Called (Sigprocmask SIG_SETMASK (sigaddset sigemptyset SIGINT)) (Done 0);
     Called (Signalfd (-1) (sigaddset sigemptyset SIGINT) SFD_NONBLOCK) (Fail EMFILE);
     Called (Poll (-1) POLLIN 5000) (Done 0)] /\
  observable signalfd_refused = (Some 0, [], []).
Proof.
  vm_compute. done.
Qed.

Lemma setup_failures_witness :
  pipe SelfPipe.on_sigint (boot stdio [Complete (Fault EMFILE)])
  = (Ret (-1), snd (pipe SelfPipe.on_sigint (boot stdio [Complete (Fault EMFILE)]))) /\
  observable (SelfPipe.main glibc (boot stdio [Complete (Fault EMFILE)]))
  = (Some EXIT_FAILURE, [], [diagnostic glibc "pipe" EMFILE]) /\
  exists w1 w2 w3,
    sigprocmask SignalFd.no_handler SIG_SETMASK (sigaddset sigemptyset SIGINT)
      (boot stdio [Complete Normal; Complete (Fault EMFILE); Complete Normal])
    = (Ret 0, w1) /\
    signalfd SignalFd.no_handler (-1) (sigaddset sigemptyset SIGINT) SFD_NONBLOCK w1
    = (Ret (-1), w2) /\
    poll SignalFd.no_handler (-1) POLLIN 5000 w2 = (Ret 0, w3) /\
    SignalFd.main glibc (boot stdio [Complete Normal; Complete (Fault EMFILE); Complete Normal])
    = (Ret 0, w3).
Proof.
  assert (H : pipe SelfPipe.on_sigint (boot stdio [Complete (Fault EMFILE)])
              = (Ret (-1), snd (pipe SelfPipe.on_sigint (boot stdio [Complete (Fault EMFILE)]))))
    by (vm_compute; reflexivity).
  split; [exact H|].
  destruct (setup_failures glibc) as (Hpipe & _ & _ & _ & Hgoes).
  split.
  { destruct (Hpipe _ _ H) as [-> _]. vm_compute. reflexivity. }
  set (w0 := boot stdio [Complete Normal; Complete (Fault EMFILE); Complete Normal]).
  set (w1 := snd (sigprocmask SignalFd.no_handler SIG_SETMASK (sigaddset sigemptyset SIGINT)
                    w0)).
  set (w2 := snd (signalfd SignalFd.no_handler (-1) (sigaddset sigemptyset SIGINT)
                    SFD_NONBLOCK w1)).
  set (w3 := snd (poll SignalFd.no_handler (-1) POLLIN 5000 w2)).
  assert (H1 : sigprocmask SignalFd.no_handler SIG_SETMASK (sigaddset sigemptyset SIGINT) w0
               = (Ret 0, w1)) by (vm_compute; reflexivity).
  assert (H2 : signalfd SignalFd.no_handler (-1) (sigaddset sigemptyset SIGINT)
                 SFD_NONBLOCK w1 = (Ret (-1), w2)) by (vm_compute; reflexivity).
  assert (H3 : poll SignalFd.no_handler (-1) POLLIN 5000 w2 = (Ret 0, w3))
    by (vm_compute; reflexivity).
  exists w1, w2, w3. split; [exact H1|]. split; [exact H2|]. split; [exact H3|].
  destruct (Hgoes w0 0 w1 (-1) w2 H1 H2) as (_ & _ & Hpoll).
  destruct (Hpoll 0 w3 H3) as (_ & _ & _ & Hdone & _).
  apply Hdone. lia.
Defined.

(** C1 (the code does not do what the claim says).  Whenever the set-up of
    selfpipetrick.c completes, it has called fcntl(read_fd, F_SETFD,
    O_NONBLOCK) with success, and the read end of the pipe is open with
    descriptor flags O_NONBLOCK & FD_CLOEXEC, which is 0, and with status
    flags in which O_NONBLOCK is not set. *)
Theorem selfpipe_read_end_stays_blocking (L : libc) (inherited : gmap Z file)
    (evs : list event) (read_fd : Z) (w' : world) :
  SelfPipe.setup L (boot inherited evs) = (Ret read_fd, w') ->
  In (Called (Fcntl read_fd F_SETFD O_NONBLOCK) (Done 0)) (trace w') /\
  exists f,
    k_fds (kern w') !! read_fd = Some f /\
    f_kind f = PipeRead /\
    f_fdflags f = Z.land O_NONBLOCK FD_CLOEXEC /\
    Z.land (f_status f) O_NONBLOCK = 0.
Proof.
  intros Hsetup.
  pose proof (selfpipe_setup_post L False (boot inherited evs)) as Hpost.
  rewrite Hsetup in Hpost.
  destruct Hpost as (wr & ((Hw & _) & _) & _ & (res & Htr) & _).
  { apply boot_starting. apply Forall_forall. tauto. }
  destruct Hw as (_ & _ & Hrd & _).
  split.
  - rewrite Htr. simpl. tauto.
  - eexists. split; [exact Hrd|]. done.
Qed.

Lemma selfpipe_read_end_stays_blocking_witness :
  SelfPipe.setup glibc
    (boot stdio [Complete Normal; Complete Normal; Complete Normal; Complete Normal])
  = (Ret 3, selfpipe_world []) /\
  exists f,
    k_fds (kern (selfpipe_world [])) !! 3 = Some f /\
    f_kind f = PipeRead /\
    f_fdflags f = Z.land O_NONBLOCK FD_CLOEXEC /\
    Z.land (f_status f) O_NONBLOCK = 0.
Proof.
  assert (H : SelfPipe.setup glibc
                (boot stdio [Complete Normal; Complete Normal; Complete Normal; Complete Normal])
              = (Ret 3, selfpipe_world []))
    by (vm_compute; reflexivity).
  split; [exact H|].
  exact (proj2 (selfpipe_read_end_stays_blocking glibc stdio _ 3 _ H)).
Defined.

(** C10.  At every point of every run of selfpipetrick.c, either the trace
    holds nothing but pipe and fcntl calls (and the SIGINT that killed the
    process): signal() has not been called and the handler has not run.  Or
    the trace begins with the successful pipe(), the two fcntl() calls and
    then signal(), after which there are only polls, reads, signals and
    writes of one zero byte to the write end that pipe() returned; pipefds
    still holds the pair that pipe() stored, and its two descriptors are the
    read end and the write end of the pipe. *)
Theorem selfpipe_handler_writes_to_the_pipe (L : libc) (inherited : gmap Z file)
    (evs : list event) :
  forallb in_setup (trace (snd (SelfPipe.main L (boot inherited evs)))) = true \/
  exists r wr res rest,
    trace (snd (SelfPipe.main L (boot inherited evs))) = setup_trace r wr res ++ rest /\
    forallb (in_loop wr) rest = true /\
    pipefds (snd (SelfPipe.main L (boot inherited evs))) = (r, wr) /\
    k_fds (kern (snd (SelfPipe.main L (boot inherited evs)))) !! r
    = Some (File PipeRead 0 O_RDONLY) /\
    k_fds (kern (snd (SelfPipe.main L (boot inherited evs)))) !! wr
    = Some (File PipeWrite 0 O_WRONLY).
Proof.
  pose proof (selfpipe_main_post L False (boot inherited evs)) as Hpost.
  assert (Hst : starting False [] (boot inherited evs)).
  { apply boot_starting. apply Forall_forall. tauto. }
  specialize (Hpost Hst).
  destruct (SelfPipe.main L (boot inherited evs)) as [[v|c| |] w']; simpl in *; [done|..].
  all: destruct Hpost as [(Hin & _)|(r & wr & ((Hfds & _ & Hrd & Hwr & _) & res & rest & Htr & Hrest) & _)];
    [by left|right; exists r, wr, res, rest; done].
Qed.




(** * More about the two programs *)

(** ** Rules for programs that may stop *)

(* what goes for every stop, and the schedule getting shorter besides *)
Lemma post_spends {A} (Q : A -> world -> Prop) E (m : M A) w :
  spends m -> post Q E (m w) ->
  post (fun a w' => Q a w' /\ (length (sched w') < length (sched w))%nat) E (m w).
Proof.
  intros Hs Hp. eapply post_weaken; [exact (post_and _ _ _ _ _ Hp (Hs w))| |]; simpl; tauto.
Qed.

Lemma post_keeps {A} (Q : A -> world -> Prop) E (m : M A) w :
  keeps m -> post Q E (m w) ->
  post (fun a w' => Q a w' /\ (length (sched w') <= length (sched w))%nat) E (m w).
Proof.
  intros Hs Hp. eapply post_weaken; [exact (post_and _ _ _ _ _ Hp (Hs w))| |]; simpl; tauto.
Qed.

(** ** The calls that leave the signal state alone *)

Lemma do_pipe_signals k : same_signals k (snd (do_pipe k)).
Proof. done. Qed.

Lemma do_fcntl_signals fd cmd arg k : same_signals k (snd (do_fcntl fd cmd arg k)).
Proof. unfold do_fcntl. repeat case_match; done. Qed.

Lemma do_signalfd_signals fd mask flags k : same_signals k (snd (do_signalfd fd mask flags k)).
Proof. unfold do_signalfd. repeat case_match; done. Qed.

Lemma do_read_signals fd n k : same_signals k (snd (do_read fd n k)).
Proof. unfold do_read. repeat case_match; done. Qed.

Lemma do_write_signals fd buf k : same_signals k (snd (do_write fd buf k)).
Proof. unfold do_write. repeat case_match; done. Qed.

(* the value and the world that [answer] gives *)
Lemma answer_done c n w : answer c (Done n) w = (Ret n, log (Called c (Done n)) w).
Proof. done. Qed.

Lemma answer_fail c e w :
  answer c (Fail e) w = (Ret (-1), set_errno e (log (Called c (Fail e)) w)).
Proof. done. Qed.

(** A property [J] of the world that does not depend on the schedule or on
    errno, that survives the kernel changes which leave the signal state
    alone and the trace entries in [allowed], and that the arrival of a
    SIGINT keeps, survives the system calls below; the ways to stop short
    are in [E]. *)

Section Halting.
Variable handler : reply -> M unit.
Variable J : world -> Prop.
Variable allowed : entry -> Prop.
Variable E : halt -> world -> Prop.
Hypothesis J_sched : forall w evs, J w -> J (set_sched evs w).
Hypothesis J_errno : forall w e, J w -> J (set_errno e w).
Hypothesis J_kern : forall w k, same_signals (kern w) k -> J w -> J (set_kern k w).
Hypothesis J_log : forall w e, allowed e -> J w -> J (log e w).
Hypothesis J_sigint : forall rep w, J w -> post (fun _ w' => J w') E (take_sigint handler rep w).
Hypothesis E_stuck : forall w, J w -> E Stuck w.
Hypothesis J_merged : forall w, J w -> J (log (Arrived Merged) w).

Lemma halting_coalesced n rep w :
  J w -> post (fun _ w' => J w') E (take_coalesced handler n rep w).
Proof using J_merged J_sigint.
  intros HJ. apply coalesced_post; auto.
Qed.

Lemma halting_enter w :
  J w -> post (fun _ w' => J w') E (enter handler w).
Proof using J_sched J_merged J_sigint E_stuck.
  intros HJ.
  eapply post_weaken; [apply (enter_post handler J (fun _ => True) E)| |]; auto.
  - intros n rep w0 _. apply halting_coalesced.
  - by apply Forall_forall.
  - simpl. tauto.
Qed.

Lemma halting_answer c r w :
  allowed (Called c r) -> J w -> post (fun _ w' => J w') E (answer c r w).
Proof using J_errno J_log.
  intros Hc HJ. unfold answer. destruct r; simpl; auto.
Qed.

Lemma halting_syscall c op w :
  (forall r, allowed (Called c r)) ->
  (forall w, J w -> J (set_kern (snd (op (kern w))) w)) ->
  J w -> post (fun _ w' => J w') E (syscall handler c op w).
Proof using J_sched J_errno J_log J_merged J_sigint E_stuck.
  intros Hc Hop HJ. unfold syscall.
  eapply post_bind; [by apply halting_enter|].
  intros rep w0 H0.
  assert (Hok : post (fun _ w' => J w') E (perform c op w0)).
  { unfold perform. pose proof (Hop w0 H0) as Hk.
    destruct (op (kern w0)) as [r k]. apply halting_answer; auto. }
  destruct rep as [|e|n d]; [exact Hok| |exact Hok].
  by apply halting_answer.
Qed.

Lemma halting_pipe w :
  (forall w p, J w -> J (set_pipefds p w)) ->
  (forall fds r, allowed (Called (Pipe fds) r)) ->
  J w -> post (fun _ w' => J w') E (pipe handler w).
Proof using All.
  intros Hp Hc HJ. unfold pipe.
  eapply post_bind; [by apply halting_enter|].
  intros rep w0 H0.
  assert (Hok : post (fun _ w' => J w') E
            (let (fds, k) := do_pipe (kern w0) in
             answer (Pipe fds) (Done 0) (set_pipefds fds (set_kern k w0)))).
  { pose proof (do_pipe_signals (kern w0)) as Hk.
    destruct (do_pipe (kern w0)) as [fds k]. apply halting_answer; auto. }
  destruct rep as [|e|n d]; [exact Hok| |exact Hok].
  by apply halting_answer.
Qed.

(* a call that may have to wait: [Q] says what becomes of [J] once the call
   has returned *)
Lemma halting_blocking {A} restarts (attempt : M A -> reply -> M A) (Q : A -> world -> Prop) w :
  (forall (R : A -> world -> Prop) wait rep w,
     J w -> (forall a w', Q a w' -> R a w') ->
     (forall w', J w' -> sched w' = sched w -> post R E (wait w')) ->
     post R E (attempt wait rep w)) ->
  J w -> post Q E (blocking handler restarts attempt w).
Proof using J_sched J_merged J_sigint E_stuck.
  intros Hatt HJ.
  apply (blocking_post handler restarts attempt J (fun _ => True) Q E); auto.
  - intros n rep w0 _. apply halting_coalesced.
  - by apply Forall_forall.
Qed.

Lemma halting_poll fd ev t w :
  (forall r, allowed (Called (Poll fd ev t) r)) ->
  J w -> post (fun _ w' => J w') E (poll handler fd ev t w).
Proof using All.
  intros Hc HJ. unfold poll. apply halting_blocking; [|done].
  intros R wait rep w0 H0 Hret Hwait.
  assert (Hans : forall r, post R E (answer (Poll fd ev t) r w0)).
  { intros r. eapply post_weaken; [by apply halting_answer| |done]. auto. }
  destruct rep as [|e|n d]; simpl; auto.
  destruct (do_poll fd ev t (kern w0)) as [r| | |]; simpl; auto.
Qed.

(* a read puts its own entry in the trace: [Q] says what becomes of [J]
   once the read has returned [v] *)
Lemma halting_read fd n (Q : Z -> world -> Prop) w :
  (forall w1 r v w', J w1 -> answer (Read fd n) r w1 = (Ret v, w') -> Q v w') ->
  J w -> post (fun res w' => Q (fst res) w') E (read handler fd n w).
Proof using J_sched J_kern J_merged J_sigint E_stuck.
  intros HQ HJ. unfold read. apply halting_blocking; [|done].
  intros R wait rep w0 H0 Hret Hwait.
  assert (Hans : forall r (got : list Byte.byte) w1, J w1 ->
            post R E ((r' <- answer (Read fd n) r ;; ret (r', got)) w1)).
  { intros r got w1 H1. unfold bind.
    destruct (answer (Read fd n) r w1) as [[v|c| |] w'] eqn:Ha;
      try (destruct r; discriminate).
    unfold ret. simpl. apply Hret. by eapply HQ. }
  destruct rep as [|e|k d]; unfold read_with; [|by apply Hans..].
  pose proof (do_read_signals fd n (kern w0)) as Hk.
  destruct (do_read fd n (kern w0)) as [[[r got]|c| |] k']; simpl; auto.
Qed.

(* a poll puts its own entry in the trace, too *)
Lemma halting_poll_entry fd ev t (Q : Z -> world -> Prop) w :
  (forall w1 r v w', J w1 -> answer (Poll fd ev t) r w1 = (Ret v, w') -> Q v w') ->
  J w -> post Q E (poll handler fd ev t w).
Proof using J_sched J_merged J_sigint E_stuck.
  intros HQ HJ. unfold poll. apply halting_blocking; [|done].
  intros R wait rep w0 H0 Hret Hwait.
  assert (Hans : forall r w1, J w1 -> post R E (answer (Poll fd ev t) r w1)).
  { intros r w1 H1.
    destruct (answer (Poll fd ev t) r w1) as [[v|c| |] w'] eqn:Ha;
      try (destruct r; discriminate).
    simpl. apply Hret. by eapply HQ. }
  destruct rep as [|e|n d]; unfold poll_with; [|by apply Hans..].
  destruct (do_poll fd ev t (kern w0)) as [r| | |]; simpl; auto.
Qed.

End Halting.

(** ** The handler returns, or waits in its write *)

Lemma signal_action_outcome signum rep w :
  fst (SelfPipe.signal_action signum rep w) = Ret tt \/
  fst (SelfPipe.signal_action signum rep w) = Pending.
Proof.
  unfold SelfPipe.signal_action, bind, gets, write, answer, ret.
  destruct rep as [|e|n d]; simpl; eauto.
  all: pose proof (do_write_cases (snd (pipefds w)) [Byte.x00] (kern w)) as Hc;
    destruct (do_write _ _ _) as [[[v|e]|c| |] k']; simpl in *; eauto;
    by destruct Hc as [[? ?]|?].
Qed.

(* a property the handler keeps is kept when a SIGINT comes, but for the
   process being killed *)
Lemma take_sigint_selfpipe (J : world -> Prop) (E : halt -> world -> Prop) rep w :
  (forall w k, same_signals (kern w) k -> J w -> J (set_kern k w)) ->
  (forall w f, J w -> J (log (Arrived f) w)) ->
  preserves J (SelfPipe.on_sigint rep) ->
  (forall w, J w -> k_sigint (kern w) = SIG_DFL ->
             sigismember (k_blocked (kern w)) SIGINT = false ->
             E Died (log (Arrived Lethal) w)) ->
  (forall w, J w -> E Stuck w) ->
  J w -> post (fun _ w' => J w') E (take_sigint SelfPipe.on_sigint rep w).
Proof.
  intros Hk Hlog Hh Hd Hstuck HJ. unfold take_sigint.
  destruct (sigismember (k_blocked (kern w)) SIGINT) eqn:Hb; simpl.
  - apply Hlog, Hk; done.
  - destruct (k_sigint (kern w)) eqn:Hs; simpl; [by apply Hd|].
    pose proof (Hh (log (Arrived Caught) w) (Hlog _ _ HJ)) as Hp.
    unfold SelfPipe.on_sigint in *.
    destruct (signal_action_outcome SIGINT rep (log (Arrived Caught) w)) as [Ho|Ho];
      destruct (SelfPipe.signal_action SIGINT rep (log (Arrived Caught) w)) as [o w'];
      simpl in Ho; subst o; simpl in *; auto.
Qed.

(** ** What selfpipetrick.c prints, whatever happens *)

Section SelfPipeOutput.
Variable L : libc.
Variable w0 : world.

Lemma told_log k j e w :
  is_read_of 1 e = false -> told w0 k j w -> told w0 k j (log e w).
Proof using Type.
  intros He (Hout & Herr & Ht). unfold told. simpl. rewrite tally_snoc, He.
  split; [done|split; [done|lia]].
Qed.

Lemma told_stuck k h w :
  told w0 k k w -> (forall c, h <> Exited c) -> selfpipe_stop L w0 h w.
Proof using Type.
  intros (Hout & Herr & Ht) Hh. exists k. split; [done|].
  destruct h as [c| |]; [by specialize (Hh c)|done..].
Qed.

Lemma told_handler k j signum rep :
  preserves (told w0 k j) (SelfPipe.signal_action signum rep).
Proof using Type.
  apply framed_signal_action with (allowed := fun e => is_read_of 1 e = false); auto.
  intros w e He. by apply told_log.
Qed.

Lemma told_sigint k rep w :
  told w0 k k w ->
  post (fun _ w' => told w0 k k w') (selfpipe_stop L w0) (take_sigint SelfPipe.on_sigint rep w).
Proof using Type.
  apply take_sigint_selfpipe; auto.
  - intros w1 f. by apply told_log.
  - apply told_handler.
  - intros w1 H1 _ _. apply (told_stuck k); [by apply told_log|done].
  - intros w1 H1. by apply (told_stuck k).
Qed.

Lemma told_syscall k c op w :
  (forall r, is_read_of 1 (Called c r) = false) ->
  told w0 k k w ->
  post (fun _ w' => told w0 k k w') (selfpipe_stop L w0) (syscall SelfPipe.on_sigint c op w).
Proof using Type.
  intros Hc Hw.
  apply (halting_syscall SelfPipe.on_sigint (told w0 k k) (fun e => is_read_of 1 e = false));
    auto.
  - intros w1 e He. by apply told_log.
  - intros rep w1. apply told_sigint.
  - intros w1 H1. by apply (told_stuck k).
  - intros w1. by apply told_log.
Qed.

Lemma told_pipe k w :
  told w0 k k w ->
  post (fun _ w' => told w0 k k w') (selfpipe_stop L w0) (pipe SelfPipe.on_sigint w).
Proof using Type.
  intros Hw.
  apply (halting_pipe SelfPipe.on_sigint (told w0 k k) (fun e => is_read_of 1 e = false));
    auto.
  - intros w1 e He. by apply told_log.
  - intros rep w1. apply told_sigint.
  - intros w1 H1. by apply (told_stuck k).
  - intros w1. by apply told_log.
Qed.

Lemma told_poll k fd ev t w :
  told w0 k k w ->
  post (fun _ w' => told w0 k k w') (selfpipe_stop L w0) (poll SelfPipe.on_sigint fd ev t w).
Proof using Type.
  intros Hw.
  apply (halting_poll SelfPipe.on_sigint (told w0 k k) (fun e => is_read_of 1 e = false));
    auto.
  - intros w1 e He. by apply told_log.
  - intros rep w1. apply told_sigint.
  - intros w1 H1. by apply (told_stuck k).
  - intros w1. by apply told_log.
Qed.

(* the read: one more read that returned 1 when it returns 1 *)
Lemma told_read k fd n w :
  told w0 k k w ->
  post (fun res w' => told w0 k (if fst res =? 1 then S k else k) w')
       (selfpipe_stop L w0) (read SelfPipe.on_sigint fd n w).
Proof using Type.
  intros Hw.
  apply (halting_read SelfPipe.on_sigint (told w0 k k) (selfpipe_stop L w0)
           (fun w evs H => H) (fun w k' _ H => H)
           (fun rep w1 => told_sigint k rep w1)
           (fun w1 H1 => told_stuck k Stuck w1 H1 ltac:(done))
           (fun w1 => told_log k k (Arrived Merged) w1 eq_refl) fd n
           (fun v w' => told w0 k (if v =? 1 then S k else k) w')); [|done].
  intros w1 r v w' (Hout & Herr & Ht) Ha. destruct r as [m|e].
  - rewrite answer_done in Ha. inversion Ha; subst; clear Ha.
    unfold told. simpl. rewrite tally_snoc. simpl.
    split; [done|split; [done|]]. destruct (v =? 1); lia.
  - rewrite answer_fail in Ha. inversion Ha; subst; clear Ha.
    unfold told. simpl. rewrite tally_snoc. simpl.
    split; [done|split; [done|lia]].
Qed.

Lemma told_handle_err k desc w :
  In desc selfpipe_descs -> told w0 k k w ->
  post (fun _ _ => False) (selfpipe_stop L w0) (SelfPipe.handle_err L desc w).
Proof using Type.
  intros Hd (Hout & Herr & Ht).
  unfold SelfPipe.handle_err, bind, perror, exit. simpl.
  exists k. split; [done|]. right. split; [done|]. split; [done|].
  exists desc. split; [done|]. simpl. by rewrite Herr.
Qed.

Lemma told_handle_signal k fd w :
  told w0 k k w ->
  post (fun _ w' => told w0 (S k) (S k) w') (selfpipe_stop L w0) (SelfPipe.handle_signal L fd w).
Proof using Type.
  intros Hw. unfold SelfPipe.handle_signal.
  eapply post_bind; [by apply told_read|].
  intros [v buff] w1 H1. cbn [fst snd] in *.
  destruct (v =? 1) eqn:Hv; cbn [negb].
  - unfold bind, ret, printf, modify. simpl.
    destruct H1 as (Hout & Herr & Ht). unfold told. simpl.
    rewrite Hout, <- app_assoc, repeat_snoc. done.
  - eapply post_bind; [apply (told_handle_err k); [simpl; tauto|done]|]. done.
Qed.

Lemma told_iteration k fd w :
  told w0 k k w ->
  post (fun _ w' => exists k', told w0 k' k' w') (selfpipe_stop L w0) (SelfPipe.iteration L fd w).
Proof using Type.
  intros Hw. unfold SelfPipe.iteration.
  eapply post_bind; [by apply told_poll|].
  intros rc w1 H1. unfold SelfPipe.switch.
  destruct (rc =? 0).
  - unfold bind, printf, modify, exit. simpl.
    destruct H1 as (Hout & Herr & Ht).
    exists k. split; [done|]. left. simpl. rewrite Hout, <- app_assoc. done.
  - destruct (rc =? -1).
    + unfold bind at 1, gets. destruct (errno w1 =? EINTR).
      * unfold ret. simpl. by exists k.
      * eapply post_bind; [apply (told_handle_err k); [simpl; tauto|done]|]. done.
    + eapply post_weaken; [apply (told_handle_signal k); exact H1| |done].
      intros ? w2 H2. by exists (S k).
Qed.

Lemma told_loop fd w :
  (exists k, told w0 k k w) ->
  post (fun (_ : Z) _ => False) (selfpipe_stop L w0) (forever (SelfPipe.iteration L fd) w).
Proof using Type.
  apply (forever_post (fun w' => exists k, told w0 k k w')).
  intros w1 [k H1]. apply post_spends; [apply spends_iteration|].
  by apply (told_iteration k).
Qed.

(* the test of a return value of the set-up against -1 *)
Lemma told_check desc rc w :
  In desc selfpipe_descs -> told w0 0 0 w ->
  post (fun _ w' => told w0 0 0 w') (selfpipe_stop L w0)
       ((if rc =? -1 then SelfPipe.handle_err L desc else ret tt) w).
Proof using Type.
  intros Hd Hw. destruct (rc =? -1); [|done].
  eapply post_weaken; [by apply (told_handle_err 0%nat desc)|done|done].
Qed.

Lemma told_setup w :
  told w0 0 0 w ->
  post (fun _ w' => told w0 0 0 w') (selfpipe_stop L w0) (SelfPipe.setup L w).
Proof using Type.
  intros Hw. unfold SelfPipe.setup, fcntl, signal.
  eapply post_bind; [by apply told_pipe|]. intros rc w1 H1.
  eapply post_bind; [apply told_check; [simpl; tauto|done]|]. intros ? w2 H2.
  unfold bind at 1, gets at 1.
  eapply post_bind; [apply (told_syscall 0%nat); [done|exact H2]|]. intros rc' w3 H3.
  eapply post_bind; [apply told_check; [simpl; tauto|done]|]. intros ? w4 H4.
  unfold bind at 1, gets at 1.
  eapply post_bind; [apply (told_syscall 0%nat); [done|exact H4]|]. intros rc'' w5 H5.
  eapply post_bind; [apply told_check; [simpl; tauto|done]|]. intros ? w6 H6.
  unfold bind at 1, gets at 1.
  eapply post_bind; [apply (told_syscall 0%nat); [done|exact H6]|]. intros ? w7 H7.
  done.
Qed.

Lemma told_main :
  post (fun _ _ => False) (selfpipe_stop L w0) (SelfPipe.main L w0).
Proof using Type.
  unfold SelfPipe.main.
  eapply post_bind.
  - apply told_setup. unfold told. simpl. rewrite app_nil_r. split; [done|split; [done|lia]].
  - intros fd w1 H1. apply told_loop. by exists 0%nat.
Qed.

End SelfPipeOutput.

(** X1.  selfpipetrick.c, started in any state and with anything to come,
    never returns from main.  It prints "Received signal" lines on stdout
    and nothing else, one for each read that returned 1, until it stops: by
    exit(EXIT_SUCCESS), with the timeout message as the last line of stdout
    and nothing on stderr; by exit(EXIT_FAILURE), with one diagnostic on
    stderr, for "pipe", "fcntl", "poll" or "read" and the errno of that
    moment; or killed or inside a system call, with nothing on stderr. *)
Theorem selfpipe_output_grammar (L : libc) (w : world) :
  exists k : nat,
    tally (is_read_of 1) (trace (snd (SelfPipe.main L w)))
    = (tally (is_read_of 1) (trace w) + k)%nat /\
    match fst (SelfPipe.main L w) with
    | Ret _ => False
    | Exit c =>
        (c = EXIT_SUCCESS /\
         stdout (snd (SelfPipe.main L w))
         = stdout w ++ repeat received_message k ++ [timeout_message] /\
         stderr (snd (SelfPipe.main L w)) = stderr w) \/
        (c = EXIT_FAILURE /\
         stdout (snd (SelfPipe.main L w)) = stdout w ++ repeat received_message k /\
         exists desc,
           In desc ["pipe"%string; "fcntl"%string; "poll"%string; "read"%string] /\
           stderr (snd (SelfPipe.main L w))
           = stderr w ++ [diagnostic L desc (errno (snd (SelfPipe.main L w)))])
    | Killed | Pending =>
        stdout (snd (SelfPipe.main L w)) = stdout w ++ repeat received_message k /\
        stderr (snd (SelfPipe.main L w)) = stderr w
    end.
Proof.
  pose proof (told_main L w) as H.
  destruct (SelfPipe.main L w) as [[v|c| |] w']; simpl in *; [done|exact H..].
Qed.

(** ** What signalfd.c prints, whatever happens *)

(* with no handler installed a SIGINT is held, merged or lethal *)
Lemma take_sigint_signalfd (J : world -> Prop) (E : halt -> world -> Prop) rep w :
  (forall w k, same_signals (kern w) k -> J w -> J (set_kern k w)) ->
  (forall w f, J w -> J (log (Arrived f) w)) ->
  (forall w, J w -> k_sigint (kern w) = SIG_DFL ->
             sigismember (k_blocked (kern w)) SIGINT = false ->
             E Died (log (Arrived Lethal) w)) ->
  J w -> post (fun _ w' => J w') E (take_sigint SignalFd.no_handler rep w).
Proof.
  intros Hk Hlog Hd HJ. unfold take_sigint.
  destruct (sigismember (k_blocked (kern w)) SIGINT) eqn:Hb; simpl.
  - apply Hlog, Hk; done.
  - destruct (k_sigint (kern w)) eqn:Hs; simpl; [by apply Hd|by apply Hlog].
Qed.

Lemma byte_at_range i buf : 0 <= byte_at i buf < 256.
Proof.
  unfold byte_at. pose proof (Byte.to_N_bounded (nth i buf Byte.x00)). lia.
Qed.

Lemma uint32_at_range i buf : 0 <= uint32_at i buf < 4294967296.
Proof.
  unfold uint32_at.
  pose proof (byte_at_range i buf). pose proof (byte_at_range (i + 1) buf).
  pose proof (byte_at_range (i + 2) buf). pose proof (byte_at_range (i + 3) buf). lia.
Qed.

Section SignalFdOutput.
Variable L : libc.
Variable w0 : world.

Lemma reported_log lines p e w :
  is_read e = false -> is_poll e = false ->
  reported L w0 lines p w -> reported L w0 lines p (log e w).
Proof using Type.
  intros Hr Hp (Hl & Hout & Herr & Hrd & Hpl). unfold reported. simpl.
  rewrite !tally_snoc, Hr, Hp.
  split; [done|split; [done|split; [done|split; lia]]].
Qed.

Lemma reported_stuck lines p h w :
  reported L w0 lines p w -> (forall c, h <> Exited c) -> signalfd_stop L w0 h w.
Proof using Type.
  intros (Hl & Hout & Herr & Hrd & Hpl) Hh. exists lines. split; [done|]. split; [done|].
  destruct h as [c| |]; [by specialize (Hh c)|done..].
Qed.

Lemma reported_sigint lines p rep w :
  reported L w0 lines p w ->
  post (fun _ w' => reported L w0 lines p w') (signalfd_stop L w0)
       (take_sigint SignalFd.no_handler rep w).
Proof using Type.
  apply take_sigint_signalfd; auto.
  - intros w1 f. by apply reported_log.
  - intros w1 H1 _ _. apply (reported_stuck lines p); [by apply reported_log|done].
Qed.

Lemma reported_syscall lines p c op w :
  (forall r, is_read (Called c r) = false) -> (forall r, is_poll (Called c r) = false) ->
  reported L w0 lines p w ->
  post (fun _ w' => reported L w0 lines p w') (signalfd_stop L w0)
       (syscall SignalFd.no_handler c op w).
Proof using Type.
  intros Hr Hp Hw.
  apply (halting_syscall SignalFd.no_handler (reported L w0 lines p)
           (fun e => is_read e = false /\ is_poll e = false)); auto.
  - intros w1 e [He1 He2]. by apply reported_log.
  - intros rep w1. apply reported_sigint.
  - intros w1 H1. by apply (reported_stuck lines p).
  - intros w1. by apply reported_log.
Qed.

(* the poll of the loop: one more poll *)
Lemma reported_poll lines p fd ev t w :
  reported L w0 lines p w ->
  post (fun _ w' => reported L w0 lines (S p) w') (signalfd_stop L w0)
       (poll SignalFd.no_handler fd ev t w).
Proof using Type.
  intros Hw.
  apply (halting_poll_entry SignalFd.no_handler (reported L w0 lines p) (signalfd_stop L w0)
           (fun w evs H => H)
           (fun rep w1 => reported_sigint lines p rep w1)
           (fun w1 H1 => reported_stuck lines p Stuck w1 H1 ltac:(done))
           (fun w1 => reported_log lines p (Arrived Merged) w1 eq_refl eq_refl) fd ev t
           (fun _ w' => reported L w0 lines (S p) w')); [|done].
  intros w1 r v w' (Hl & Hout & Herr & Hrd & Hpl) Ha. destruct r as [m|e].
  - rewrite answer_done in Ha. inversion Ha; subst; clear Ha.
    unfold reported. simpl. rewrite !tally_snoc. simpl.
    split; [done|split; [done|split; [done|split; lia]]].
  - rewrite answer_fail in Ha. inversion Ha; subst; clear Ha.
    unfold reported. simpl. rewrite !tally_snoc. simpl.
    split; [done|split; [done|split; [done|split; lia]]].
Qed.

(* the read of handle_signal: one more read than there are lines *)
Lemma reported_read lines fd n w :
  reported L w0 lines (S (length lines)) w ->
  post (fun _ w' =>
          stdout w' = stdout w0 ++ lines /\ stderr w' = stderr w0 /\
          tally is_read (trace w') = (tally is_read (trace w0) + length lines + 1)%nat /\
          tally is_poll (trace w') = (tally is_poll (trace w0) + length lines + 1)%nat)
       (signalfd_stop L w0) (read SignalFd.no_handler fd n w).
Proof using Type.
  intros Hw.
  apply (halting_read SignalFd.no_handler (reported L w0 lines (S (length lines)))
           (signalfd_stop L w0)
           (fun w evs H => H) (fun w k' _ H => H)
           (fun rep w1 => reported_sigint lines _ rep w1)
           (fun w1 H1 => reported_stuck lines _ Stuck w1 H1 ltac:(done))
           (fun w1 => reported_log lines _ (Arrived Merged) w1 eq_refl eq_refl) fd n
           (fun _ w' =>
              stdout w' = stdout w0 ++ lines /\ stderr w' = stderr w0 /\
              tally is_read (trace w') = (tally is_read (trace w0) + length lines + 1)%nat /\
              tally is_poll (trace w') = (tally is_poll (trace w0) + length lines + 1)%nat));
    [|done].
  intros w1 r v w' (Hl & Hout & Herr & Hrd & Hpl) Ha. destruct r as [m|e].
  - rewrite answer_done in Ha. inversion Ha; subst; clear Ha.
    simpl. rewrite !tally_snoc. simpl. split; [done|split; [done|split; lia]].
  - rewrite answer_fail in Ha. inversion Ha; subst; clear Ha.
    simpl. rewrite !tally_snoc. simpl. split; [done|split; [done|split; lia]].
Qed.

Lemma reported_handle_signal lines fd w :
  Forall (is_signal_line L) lines ->
  reported L w0 lines (S (length lines)) w ->
  post (fun _ w' => exists lines', reported L w0 lines' (length lines') w')
       (signalfd_stop L w0) (SignalFd.handle_signal L fd w).
Proof using Type.
  intros Hl Hw. unfold SignalFd.handle_signal.
  eapply post_bind; [by apply reported_read|].
  intros [s siginfo] w1 (Hout & Herr & Hrd & Hpl). cbn [fst snd].
  destruct (s =? sizeof_siginfo); cbn [negb].
  - unfold bind, ret, printf, modify. simpl.
    exists (lines ++ [signal_line L (uint32_at 0 siginfo)]).
    unfold reported. simpl. rewrite length_app, Hout, <- app_assoc. simpl.
    split; [|split; [done|split; [done|split; lia]]].
    apply Forall_app. split; [done|]. apply Forall_cons. split; [|done].
    exists (uint32_at 0 siginfo). split; [apply uint32_at_range|done].
  - unfold bind, perror, exit. cbn [post fst snd].
    exists lines. split; [done|]. split; [done|]. split; [done|].
    split; [|split; [exact Hrd|exact Hpl]].
    cbn [stderr put_stderr errno]. rewrite Herr. done.
Qed.

Lemma reported_loop fd w :
  (exists lines, reported L w0 lines (length lines) w) ->
  post (fun _ w' => exists lines, reported L w0 lines (S (length lines)) w')
       (signalfd_stop L w0) (SignalFd.event_loop L fd w).
Proof using Type.
  apply (while_post
           (fun w' => exists lines, reported L w0 lines (length lines) w')
           (fun w' => exists lines, reported L w0 lines (S (length lines)) w')
           (fun w' => exists lines, reported L w0 lines (S (length lines)) w')).
  - intros w1 [lines H1]. apply post_spends; [apply spends_wait_ready|].
    unfold SignalFd.wait_ready.
    eapply post_bind; [by apply reported_poll|].
    intros rc w2 H2. unfold ret. simpl. destruct (rc >? 0); by exists lines.
  - intros w1 [lines H1]. apply post_keeps; [apply keeps_signalfd_handle_signal|].
    apply (reported_handle_signal lines); [apply H1|done].
Qed.

Lemma reported_main :
  post (fun v w' => v = 0 /\ exists lines, reported L w0 lines (S (length lines)) w')
       (signalfd_stop L w0) (SignalFd.main L w0).
Proof using Type.
  assert (Hstart : reported L w0 [] 0 w0).
  { unfold reported. simpl. rewrite app_nil_r.
    split; [done|split; [done|split; [done|split; lia]]]. }
  unfold SignalFd.main, SignalFd.setup, sigprocmask, signalfd.
  eapply post_bind.
  - eapply post_bind; [by apply (reported_syscall [] 0%nat)|]. intros ? w1 H1.
    eapply post_bind; [by apply (reported_syscall [] 0%nat)|]. intros fd w2 H2.
    exact H2.
  - intros fd w2 H2. simpl in H2.
    eapply post_bind; [apply reported_loop; by exists []|].
    intros ? w3 H3. done.
Qed.

End SignalFdOutput.

(** X2.  signalfd.c, started in any state and with anything to come, prints
    on stdout nothing but the lines that its printf makes of a uint32_t
    signo: "Received signal", signo under %d, and in brackets what strsignal
    has for signo.  When main returns, it
    returns 0, stderr is as it was, every read gave a line, and there was
    one poll more than there were reads.  The only exit is exit(1), with
    the diagnostic of "read" and the errno of that moment on stderr, after
    a read that gave no line.  Killed or inside a system call, the program
    has written nothing on stderr. *)
Theorem signalfd_output_grammar (L : libc) (w : world) :
  exists lines : list string,
    Forall (is_signal_line L) lines /\
    stdout (snd (SignalFd.main L w)) = stdout w ++ lines /\
    match fst (SignalFd.main L w) with
    | Ret v =>
        v = 0 /\
        stderr (snd (SignalFd.main L w)) = stderr w /\
        tally is_read (trace (snd (SignalFd.main L w)))
        = (tally is_read (trace w) + length lines)%nat /\
        tally is_poll (trace (snd (SignalFd.main L w)))
        = (tally is_poll (trace w) + length lines + 1)%nat
    | Exit c =>
        c = 1 /\
        stderr (snd (SignalFd.main L w))
        = stderr w ++ [diagnostic L "read" (errno (snd (SignalFd.main L w)))] /\
        tally is_read (trace (snd (SignalFd.main L w)))
        = (tally is_read (trace w) + length lines + 1)%nat /\
        tally is_poll (trace (snd (SignalFd.main L w)))
        = (tally is_poll (trace w) + length lines + 1)%nat
    | Killed | Pending =>
        stderr (snd (SignalFd.main L w)) = stderr w /\
        tally is_read (trace (snd (SignalFd.main L w)))
        = (tally is_read (trace w) + length lines)%nat
    end.
Proof.
  pose proof (reported_main L w) as H.
  destruct (SignalFd.main L w) as [[v|c| |] w']; simpl in *; [|exact H..].
  destruct H as (-> & lines & Hl & Hout & Herr & Hrd & Hpl).
  exists lines. repeat split; try done; lia.
Qed.

(** ** The error paths of the two handle_signal *)

(* a read of signalfd.c that does not fail leaves errno as it was *)
Lemma signalfd_read_errno fd n w :
  post (fun res w' => 0 <= fst res -> errno w' = errno w) (fun _ _ => True)
       (read SignalFd.no_handler fd n w).
Proof.
  assert (Hsig : forall rep w1, errno w1 = errno w ->
            post (fun _ w' => errno w' = errno w) (fun _ _ => True)
                 (take_sigint SignalFd.no_handler rep w1)).
  { intros rep w1 H1. apply take_sigint_signalfd; auto. }
  apply (halting_read SignalFd.no_handler (fun w' => errno w' = errno w) (fun _ _ => True)
           (fun w1 evs H => H) (fun w1 k' _ H => H) Hsig (fun _ _ => I) (fun _ H => H) fd n
           (fun v w' => 0 <= v -> errno w' = errno w)); [|done].
  intros w1 r v w' H1 Ha Hv. destruct r as [m|e].
    + rewrite answer_done in Ha. inversion Ha; subst; clear Ha. done.
    + rewrite answer_fail in Ha. inversion Ha; subst; clear Ha. lia.
Qed.

(** X3.  handle_signal of signalfd.c after a short read, one that returned
    0 or more but not sizeof (struct signalfd_siginfo): the read has not
    touched errno, so the diagnostic that perror prints before exit(1) is
    made from the errno the process had before the read. *)
Theorem signalfd_short_read_stale_errno (L : libc) (signal_fd s : Z)
    (siginfo : list Byte.byte) (w w1 : world) :
  read SignalFd.no_handler signal_fd sizeof_siginfo w = (Ret (s, siginfo), w1) ->
  0 <= s -> s <> sizeof_siginfo ->
  errno w1 = errno w /\
  SignalFd.handle_signal L signal_fd w
  = (Exit 1, put_stderr (diagnostic L "read" (errno w)) w1).
Proof.
  intros Hread Hs Hne.
  pose proof (signalfd_read_errno signal_fd sizeof_siginfo w) as He.
  rewrite Hread in He. simpl in He. specialize (He Hs).
  split; [exact He|].
  unfold SignalFd.handle_signal, bind at 1 2. rewrite Hread. cbn [fst snd].
  destruct (s =? sizeof_siginfo) eqn:E; [apply Z.eqb_eq in E; done|].
  cbn [negb]. unfold bind, perror, exit. rewrite He. reflexivity.
Qed.

Lemma signalfd_short_read_stale_errno_witness :
  read SignalFd.no_handler 3 sizeof_siginfo (signalfd_world [Complete (Returns 64 [])])
  = (Ret (64, []),
     snd (read SignalFd.no_handler 3 sizeof_siginfo
            (signalfd_world [Complete (Returns 64 [])]))) /\
  stderr (snd (SignalFd.handle_signal glibc 3 (signalfd_world [Complete (Returns 64 [])])))
  = ["read: Success" ++ newline]%string.
Proof.
  assert (H : read SignalFd.no_handler 3 sizeof_siginfo
                (signalfd_world [Complete (Returns 64 [])])
              = (Ret (64, []),
                 snd (read SignalFd.no_handler 3 sizeof_siginfo
                        (signalfd_world [Complete (Returns 64 [])]))))
    by (vm_compute; reflexivity).
  split; [exact H|].
  destruct (signalfd_short_read_stale_errno glibc 3 64 [] _ _ H) as [_ Hrun];
    [lia|discriminate|].
  rewrite Hrun. vm_compute. reflexivity.
Defined.

(** X4.  handle_signal of signalfd.c, called when no SIGINT is pending on
    the descriptor that the set-up made: the descriptor is non-blocking, so
    the read that the kernel carries out fails with EAGAIN at once, and the
    program prints the diagnostic of "read" for EAGAIN and exits with
    status 1; nothing goes to stdout. *)
Theorem signalfd_empty_read_exits (L : libc) (fd : Z) (w : world) (rest : list event) :
  waiting fd w -> sched w = Complete Normal :: rest ->
  exists w',
    SignalFd.handle_signal L fd w = (Exit 1, w') /\
    trace w' = trace w ++ [Called (Read fd sizeof_siginfo) (Fail EAGAIN)] /\
    stdout w' = stdout w /\
    stderr w' = stderr w ++ [diagnostic L "read" EAGAIN] /\
    sched w' = rest.
Proof.
  intros (Hfd & Hlook & Hblk & Hpend) Hs.
  unfold SignalFd.handle_signal, read, blocking, read_with, bind at 1 2 3.
  rewrite (enter_complete _ _ _ _ Hs).
  unfold do_read. wsimpl. rewrite Hlook. cbn [f_kind f_status].
  change (sizeof_siginfo <? sizeof_siginfo) with false. cbv iota.
  rewrite Hpend.
  change (sigismember (Z.land 0 sigint_mask) SIGINT) with false. cbv iota.
  change (Z.land (Z.lor O_RDWR O_NONBLOCK) O_NONBLOCK =? 0) with false. cbv iota.
  unfold bind, answer, ret. wsimpl.
  change (negb (-1 =? sizeof_siginfo)) with true. cbv iota.
  unfold perror, exit. wsimpl.
  eexists. split; [reflexivity|]. wsimpl. done.
Qed.

Lemma signalfd_empty_read_exits_witness :
  waiting 3 (signalfd_world [Complete Normal]) /\
  exists w',
    SignalFd.handle_signal glibc 3 (signalfd_world [Complete Normal]) = (Exit 1, w') /\
    stderr w' = ["read: Resource temporarily unavailable" ++ newline]%string.
Proof.
  assert (Hw : waiting 3 (signalfd_world [Complete Normal])).
  { unfold waiting. vm_compute. repeat split; congruence. }
  split; [exact Hw|].
  destruct (signalfd_empty_read_exits glibc 3 _ [] Hw eq_refl)
    as (w' & Hrun & _ & _ & Herr & _).
  exists w'. split; [exact Hrun|]. rewrite Herr. vm_compute. reflexivity.
Defined.

(* a call that waits does not look at the schedule it finds *)
Lemma asleep_sched {A} handler restarts (attempt : M A -> reply -> M A) evs x w :
  asleep handler restarts attempt evs (set_sched x w) = asleep handler restarts attempt evs w.
Proof. by destruct evs. Qed.

(* the read of selfpipetrick.c on the empty pipe: completions do not wake it *)
Lemma selfpipe_read_sleeps r wr j :
  forall evs w,
    wired r wr w -> k_pipe (kern w) = [] ->
    asleep SelfPipe.on_sigint true (read_with r 1) (carried_out j ++ evs) w
    = asleep SelfPipe.on_sigint true (read_with r 1) evs w.
Proof.
  unfold carried_out. induction j as [|j IH]; intros evs w Hw Hpipe; [done|].
  pose proof Hw as (Hfds & Hr & Hrd & Hwr & Hblk).
  cbn [repeat app asleep wake]. unfold bind at 1 2, modify, ret. cbn [fst snd].
  unfold read_with, do_read. wsimpl. rewrite Hrd. cbn [f_kind f_status]. rewrite Hpipe.
  change (Z.land O_RDONLY O_NONBLOCK =? 0) with true. cbv iota.
  rewrite asleep_sched. by apply IH.
Qed.

(** X5.  handle_signal of selfpipetrick.c, called when the pipe is empty:
    the read end is still a blocking descriptor, as F_SETFD left it, so the
    read waits, and with it the loop, which is not in its poll then.  While
    nothing comes but completions, however many, the read does not return,
    nothing is printed and no call is added to the trace.  The next SIGINT
    ends the wait: the handler writes its byte, the read is started again
    and returns that byte, and handle_signal prints its line. *)
Theorem selfpipe_empty_read_waits (L : libc) (r wr : Z) (w : world) (j : nat)
    (rest : list event) :
  installed r wr w -> k_pipe (kern w) = [] ->
  (sched w = Complete Normal :: carried_out j ->
   exists w',
     SelfPipe.handle_signal L r w = (Pending, w') /\
     trace w' = trace w /\ stdout w' = stdout w /\ stderr w' = stderr w /\
     sched w' = []) /\
  (sched w = Complete Normal :: carried_out j ++ Sigint Normal :: rest ->
   exists w',
     SelfPipe.handle_signal L r w = (Ret tt, w') /\
     stdout w' = stdout w ++ [received_message] /\ stderr w' = stderr w /\
     tally is_caught (trace w') = S (tally is_caught (trace w)) /\
     tally is_read (trace w') = S (tally is_read (trace w)) /\
     k_pipe (kern w') = [] /\ sched w' = rest).
Proof.
  intros (Hw & Hsig) Hpipe.
  pose proof Hw as (Hfds & Hr & Hrd & Hwr & Hblk).
  assert (Hfirst : forall evs,
            sched w = Complete Normal :: carried_out j ++ evs ->
            read SelfPipe.on_sigint r 1 w
            = asleep SelfPipe.on_sigint true (read_with r 1) evs w).
  { intros evs Hs. unfold read, blocking, bind at 1.
    rewrite (enter_complete _ _ _ _ Hs).
    unfold read_with, do_read. wsimpl. rewrite Hrd. cbn [f_kind f_status]. rewrite Hpipe.
    change (Z.land O_RDONLY O_NONBLOCK =? 0) with true. cbv iota.
    rewrite asleep_sched. by apply (selfpipe_read_sleeps r wr). }
  split; intros Hs.
  - rewrite <- (app_nil_r (carried_out j)) in Hs.
    unfold SelfPipe.handle_signal, bind at 1 2. rewrite (Hfirst [] Hs).
    cbn [asleep]. eexists. split; [reflexivity|]. done.
  - unfold SelfPipe.handle_signal, bind at 1 2. rewrite (Hfirst _ Hs).
    cbn [asleep wake]. unfold bind at 1 2 3, modify. cbn [fst snd].
    unfold take_sigint. wsimpl. rewrite Hblk, Hsig.
    unfold SelfPipe.on_sigint.
    rewrite (signal_action_pipe SIGINT Normal wr 0);
      [|by cbn [pipefds log set_sched]; rewrite Hfds|exact Hwr].
    wsimpl. rewrite Hpipe. change (Z.of_nat (length []) <? pipe_capacity) with true. cbv iota.
    unfold ret at 1, resumed. cbn [orb].
    unfold read_with, do_read. wsimpl. rewrite Hrd. cbn [f_kind f_status app].
    unfold bind, answer, ret. wsimpl.
    change (negb (Z.of_nat (length (take (Z.to_nat 1) [Byte.x00])) =? 1)) with false. cbv iota.
    unfold printf, modify.
    eexists. split; [reflexivity|]. wsimpl. rewrite !tally_snoc. simpl.
    repeat split; lia.
Qed.

Lemma selfpipe_empty_read_waits_witness :
  installed 3 4 (selfpipe_world [Complete Normal; Complete Normal; Sigint Normal]) /\
  k_pipe (kern (selfpipe_world [Complete Normal; Complete Normal; Sigint Normal])) = [] /\
  exists w',
    SelfPipe.handle_signal glibc 3
      (selfpipe_world [Complete Normal; Complete Normal; Sigint Normal]) = (Ret tt, w') /\
    stdout w' = [received_message].
Proof.
  assert (Hw : installed 3 4 (selfpipe_world [Complete Normal; Complete Normal; Sigint Normal])).
  { unfold installed, wired. vm_compute. repeat split; congruence. }
  split; [exact Hw|]. split; [reflexivity|].
  destruct (selfpipe_empty_read_waits glibc 3 4 _ 1 [] Hw eq_refl) as [_ Hwake].
  destruct (Hwake eq_refl) as (w' & Hrun & Hout & _).
  exists w'. split; [exact Hrun|exact Hout].
Defined.

(** X6.  signalfd.c when signalfd() has returned -1: pollfd.fd is -1, an
    entry that poll ignores.  The first poll that the kernel carries out
    finds nothing, whatever is pending, and returns 0 when its timeout has
    run out; main returns 0 after this one poll, with no read made and
    nothing printed. *)
Theorem signalfd_failed_descriptor_polls_nothing (L : libc) (w w1 : world)
    (rest : list event) :
  SignalFd.setup w = (Ret (-1), w1) ->
  sched w1 = Complete Normal :: rest ->
  exists w',
    SignalFd.main L w = (Ret 0, w') /\
    trace w' = trace w1 ++ [Called (Poll (-1) POLLIN 5000) (Done 0)] /\
    stdout w' = stdout w1 /\ stderr w' = stderr w1 /\
    sched w' = rest.
Proof.
  intros Hsetup Hs.
  unfold SignalFd.main, bind at 1 2. rewrite Hsetup.
  rewrite signalfd_loop_unfold.
  unfold SignalFd.wait_ready, poll, blocking, poll_with, bind at 1 2 3.
  rewrite (enter_complete _ _ _ _ Hs).
  unfold do_poll. change (-1 <? 0) with true. cbv iota.
  change (5000 <? 0) with false. cbv iota.
  unfold answer, ret. change (0 >? 0) with false. cbv iota.
  eexists. split; [reflexivity|]. done.
Qed.

Lemma signalfd_failed_descriptor_polls_nothing_witness :
  SignalFd.setup (boot stdio [Complete Normal; Complete (Fault EMFILE); Complete Normal])
  = (Ret (-1),
     snd (SignalFd.setup
            (boot stdio [Complete Normal; Complete (Fault EMFILE); Complete Normal]))) /\
  observable (SignalFd.main glibc
                (boot stdio [Complete Normal; Complete (Fault EMFILE); Complete Normal]))
  = (Some 0, [], []).
Proof.
  assert (H : SignalFd.setup
                (boot stdio [Complete Normal; Complete (Fault EMFILE); Complete Normal])
              = (Ret (-1),
                 snd (SignalFd.setup
                        (boot stdio [Complete Normal; Complete (Fault EMFILE);
                                     Complete Normal]))))
    by (vm_compute; reflexivity).
  split; [exact H|].
  destruct (signalfd_failed_descriptor_polls_nothing glibc _ _ [] H eq_refl)
    as (w' & Hrun & _ & Hout & Herr & _).
  rewrite Hrun. unfold observable. cbn [fst snd exit_status]. rewrite Hout, Herr.
  vm_compute. reflexivity.
Defined.



(** ** SIGINT ends the process only before it is guarded against *)

(* the handler keeps what depends on the signal state, on the streams and
   on the entries of the trace other than its write *)
Lemma signal_action_keeps (J : world -> Prop) signum rep :
  (forall w e, J w -> J (set_errno e w)) ->
  (forall w k, same_signals (kern w) k -> J w -> J (set_kern k w)) ->
  (forall w fd r, J w -> J (log (Called (Write fd [Byte.x00]) r) w)) ->
  preserves J (SelfPipe.signal_action signum rep).
Proof.
  intros He Hk Hl w HJ.
  assert (Hans : forall r w1, J w1 ->
            post (fun _ w' => J w') (fun _ w' => J w')
                 ((_ <- answer (Write (snd (pipefds w)) [Byte.x00]) r ;; ret tt) w1)).
  { intros r w1 H1. unfold bind, answer, ret. destruct r; simpl; auto. }
  unfold SelfPipe.signal_action, bind at 1, gets, write.
  destruct rep as [|e|n d]; [|by apply Hans|].
  all: pose proof (do_write_signals (snd (pipefds w)) [Byte.x00] (kern w)) as Hsame;
    unfold bind at 1;
    destruct (do_write (snd (pipefds w)) [Byte.x00] (kern w)) as [[r|c| |] k];
    simpl in Hsame; [apply (Hans r (set_kern k w))|simpl..]; auto.
Qed.

Section Guarded.
Variable exposed : kernel -> Prop.
Variable p : entry -> bool.
Hypothesis exposed_signals : forall k k', same_signals k k' -> exposed k' -> exposed k.
Hypothesis exposed_lethal :
  forall k, k_sigint k = SIG_DFL -> sigismember (k_blocked k) SIGINT = false -> exposed k.
Hypothesis p_arrived : forall f, p (Arrived f) = false.

Lemma unguarded_kern w k :
  same_signals (kern w) k -> unguarded exposed p w -> unguarded exposed p (set_kern k w).
Proof using exposed_signals.
  intros Hs Hw Hx. apply Hw. by apply (exposed_signals _ k).
Qed.

Lemma unguarded_log w e :
  p e = false -> unguarded exposed p w -> unguarded exposed p (log e w).
Proof using Type.
  intros He Hw Hx. simpl. rewrite tally_snoc, He. rewrite Hw by done. done.
Qed.

Lemma unguarded_lethal w :
  unguarded exposed p w -> k_sigint (kern w) = SIG_DFL ->
  sigismember (k_blocked (kern w)) SIGINT = false ->
  killed_unguarded p Died (log (Arrived Lethal) w).
Proof using exposed_lethal p_arrived.
  intros Hw Hd Hb _. simpl. rewrite tally_snoc, p_arrived.
  split; [|by exists (trace w)].
  rewrite Hw by auto. done.
Qed.

Lemma unguarded_stop h w : h <> Died -> killed_unguarded p h w.
Proof using Type. intros Hh Hd. done. Qed.

Lemma unguarded_sigint_selfpipe rep w :
  (forall fd r, p (Called (Write fd [Byte.x00]) r) = false) ->
  unguarded exposed p w ->
  post (fun _ w' => unguarded exposed p w') (killed_unguarded p)
       (take_sigint SelfPipe.on_sigint rep w).
Proof using All.
  intros Hwrite. apply take_sigint_selfpipe.
  - apply unguarded_kern.
  - intros w1 f. apply unguarded_log, p_arrived.
  - apply signal_action_keeps; [done|apply unguarded_kern|].
    intros w1 fd r. apply unguarded_log, Hwrite.
  - apply unguarded_lethal.
  - intros w1 _. by apply unguarded_stop.
Qed.

Lemma unguarded_sigint_signalfd rep w :
  unguarded exposed p w ->
  post (fun _ w' => unguarded exposed p w') (killed_unguarded p)
       (take_sigint SignalFd.no_handler rep w).
Proof using All.
  apply take_sigint_signalfd.
  - apply unguarded_kern.
  - intros w1 f. apply unguarded_log, p_arrived.
  - apply unguarded_lethal.
Qed.

End Guarded.

Lemma handler_missing_signals k k' : same_signals k k' -> handler_missing k' -> handler_missing k.
Proof. intros [Hs _] H. unfold handler_missing in *. congruence. Qed.

Lemma sigint_unblocked_signals k k' :
  same_signals k k' -> sigint_unblocked k' -> sigint_unblocked k.
Proof. intros [_ Hb] H. unfold sigint_unblocked in *. congruence. Qed.

Section SelfPipeGuard.
Variable L : libc.

Lemma selfpipe_guard_sched w evs :
  unguarded handler_missing is_signal_done w ->
  unguarded handler_missing is_signal_done (set_sched evs w).
Proof using Type. done. Qed.

Lemma selfpipe_guard_errno w e :
  unguarded handler_missing is_signal_done w ->
  unguarded handler_missing is_signal_done (set_errno e w).
Proof using Type. done. Qed.

Lemma selfpipe_guard_sigint rep w :
  unguarded handler_missing is_signal_done w ->
  post (fun _ w' => unguarded handler_missing is_signal_done w')
       (killed_unguarded is_signal_done) (take_sigint SelfPipe.on_sigint rep w).
Proof using Type.
  apply unguarded_sigint_selfpipe; [apply handler_missing_signals|done..].
Qed.

Lemma selfpipe_guard_stuck w :
  unguarded handler_missing is_signal_done w -> killed_unguarded is_signal_done Stuck w.
Proof using Type. intros _. by apply unguarded_stop. Qed.

Lemma selfpipe_guard_merged w :
  unguarded handler_missing is_signal_done w ->
  unguarded handler_missing is_signal_done (log (Arrived Merged) w).
Proof using Type. by apply unguarded_log. Qed.

Lemma selfpipe_guard_kern w k :
  same_signals (kern w) k -> unguarded handler_missing is_signal_done w ->
  unguarded handler_missing is_signal_done (set_kern k w).
Proof using Type. apply unguarded_kern, handler_missing_signals. Qed.

Lemma selfpipe_guard_log w e :
  is_signal_done e = false -> unguarded handler_missing is_signal_done w ->
  unguarded handler_missing is_signal_done (log e w).
Proof using Type. apply unguarded_log. Qed.

Lemma selfpipe_guard_pipe w :
  unguarded handler_missing is_signal_done w ->
  post (fun _ w' => unguarded handler_missing is_signal_done w')
       (killed_unguarded is_signal_done) (pipe SelfPipe.on_sigint w).
Proof using Type.
  apply (halting_pipe SelfPipe.on_sigint (unguarded handler_missing is_signal_done)
           (fun e => is_signal_done e = false) (killed_unguarded is_signal_done)
           selfpipe_guard_sched selfpipe_guard_errno selfpipe_guard_kern selfpipe_guard_log
           selfpipe_guard_sigint selfpipe_guard_stuck selfpipe_guard_merged); done.
Qed.

Lemma selfpipe_guard_fcntl fd cmd arg w :
  unguarded handler_missing is_signal_done w ->
  post (fun _ w' => unguarded handler_missing is_signal_done w')
       (killed_unguarded is_signal_done) (fcntl SelfPipe.on_sigint fd cmd arg w).
Proof using Type.
  apply (halting_syscall SelfPipe.on_sigint (unguarded handler_missing is_signal_done)
           (fun e => is_signal_done e = false) (killed_unguarded is_signal_done)
           selfpipe_guard_sched selfpipe_guard_errno selfpipe_guard_log
           selfpipe_guard_sigint selfpipe_guard_stuck selfpipe_guard_merged); [done|].
  intros w1. apply selfpipe_guard_kern, do_fcntl_signals.
Qed.

(* signal(): carried out, it installs the handler; failed, it leaves no
   entry of a success *)
Lemma selfpipe_guard_signal w :
  unguarded handler_missing is_signal_done w ->
  post (fun _ w' => unguarded handler_missing is_signal_done w')
       (killed_unguarded is_signal_done) (signal SelfPipe.on_sigint SIGINT w).
Proof using Type.
  intros Hw. unfold signal, syscall.
  eapply post_bind.
  { apply (halting_enter SelfPipe.on_sigint (unguarded handler_missing is_signal_done)
             (killed_unguarded is_signal_done) selfpipe_guard_sched
             selfpipe_guard_sigint selfpipe_guard_stuck selfpipe_guard_merged). exact Hw. }
  intros rep w1 H1.
  assert (Hok : post (fun _ w' => unguarded handler_missing is_signal_done w')
                  (killed_unguarded is_signal_done)
                  (perform (Signal SIGINT) (do_signal SIGINT) w1)).
  { unfold perform, do_signal. change (SIGINT =? SIGINT) with true. cbv iota.
    unfold answer. simpl. intros Hx. done. }
  destruct rep as [|e|n d]; [exact Hok| |exact Hok].
  unfold answer. simpl. by apply selfpipe_guard_log.
Qed.

Lemma selfpipe_guard_poll fd ev t w :
  unguarded handler_missing is_signal_done w ->
  post (fun _ w' => unguarded handler_missing is_signal_done w')
       (killed_unguarded is_signal_done) (poll SelfPipe.on_sigint fd ev t w).
Proof using Type.
  apply (halting_poll SelfPipe.on_sigint (unguarded handler_missing is_signal_done)
           (fun e => is_signal_done e = false) (killed_unguarded is_signal_done)
           selfpipe_guard_sched selfpipe_guard_errno selfpipe_guard_kern selfpipe_guard_log
           selfpipe_guard_sigint selfpipe_guard_stuck selfpipe_guard_merged); done.
Qed.

Lemma selfpipe_guard_read fd n w :
  unguarded handler_missing is_signal_done w ->
  post (fun _ w' => unguarded handler_missing is_signal_done w')
       (killed_unguarded is_signal_done) (read SelfPipe.on_sigint fd n w).
Proof using Type.
  apply (halting_read SelfPipe.on_sigint (unguarded handler_missing is_signal_done)
           (killed_unguarded is_signal_done)
           selfpipe_guard_sched selfpipe_guard_kern
           selfpipe_guard_sigint selfpipe_guard_stuck selfpipe_guard_merged fd n
           (fun _ w' => unguarded handler_missing is_signal_done w')).
  intros w1 r v w' H1 Ha. destruct r as [m|e].
  - rewrite answer_done in Ha. inversion Ha; subst. by apply selfpipe_guard_log.
  - rewrite answer_fail in Ha. inversion Ha; subst. by apply selfpipe_guard_log.
Qed.

Lemma selfpipe_guard_handle_err desc w :
  post (fun _ w' => unguarded handler_missing is_signal_done w')
       (killed_unguarded is_signal_done) (SelfPipe.handle_err L desc w).
Proof using Type. unfold SelfPipe.handle_err, bind, perror, exit. simpl. done. Qed.

Lemma selfpipe_guard_handle_signal fd w :
  unguarded handler_missing is_signal_done w ->
  post (fun _ w' => unguarded handler_missing is_signal_done w')
       (killed_unguarded is_signal_done) (SelfPipe.handle_signal L fd w).
Proof using Type.
  intros Hw. unfold SelfPipe.handle_signal.
  eapply post_bind; [by apply selfpipe_guard_read|].
  intros res w1 H1.
  eapply post_bind with (R := fun _ w' => unguarded handler_missing is_signal_done w').
  - destruct (negb (fst res =? 1)); [apply selfpipe_guard_handle_err|done].
  - intros ? w2 H2. done.
Qed.

Lemma selfpipe_guard_iteration fd w :
  unguarded handler_missing is_signal_done w ->
  post (fun _ w' => unguarded handler_missing is_signal_done w')
       (killed_unguarded is_signal_done) (SelfPipe.iteration L fd w).
Proof using Type.
  intros Hw. unfold SelfPipe.iteration.
  eapply post_bind; [by apply selfpipe_guard_poll|].
  intros rc w1 H1. unfold SelfPipe.switch.
  destruct (rc =? 0); [done|].
  destruct (rc =? -1); [|by apply selfpipe_guard_handle_signal].
  unfold bind at 1, gets. destruct (errno w1 =? EINTR); [done|].
  eapply post_bind; [apply selfpipe_guard_handle_err|].
  intros ? w2 H2. by apply selfpipe_guard_handle_signal.
Qed.

Lemma selfpipe_guard_main w :
  unguarded handler_missing is_signal_done w ->
  post (fun _ _ => False) (killed_unguarded is_signal_done) (SelfPipe.main L w).
Proof using Type.
  intros Hw. unfold SelfPipe.main.
  apply post_bind with (R := fun _ w' => unguarded handler_missing is_signal_done w').
  - unfold SelfPipe.setup.
    eapply post_bind; [by apply selfpipe_guard_pipe|]. intros rc w1 H1.
    eapply post_bind with (R := fun _ w' => unguarded handler_missing is_signal_done w').
    { destruct (rc =? -1); [apply selfpipe_guard_handle_err|done]. }
    intros ? w2 H2. unfold bind at 1, gets at 1.
    eapply post_bind; [by apply selfpipe_guard_fcntl|]. intros rc' w3 H3.
    eapply post_bind with (R := fun _ w' => unguarded handler_missing is_signal_done w').
    { destruct (rc' =? -1); [apply selfpipe_guard_handle_err|done]. }
    intros ? w4 H4. unfold bind at 1, gets at 1.
    eapply post_bind; [by apply selfpipe_guard_fcntl|]. intros rc'' w5 H5.
    eapply post_bind with (R := fun _ w' => unguarded handler_missing is_signal_done w').
    { destruct (rc'' =? -1); [apply selfpipe_guard_handle_err|done]. }
    intros ? w6 H6. unfold bind at 1, gets at 1.
    eapply post_bind; [by apply selfpipe_guard_signal|]. intros ? w7 H7.
    done.
  - intros fd w1 H1.
    apply (forever_post (fun w' => unguarded handler_missing is_signal_done w')); [|done].
    intros w2 H2. apply post_spends; [apply spends_iteration|].
    by apply selfpipe_guard_iteration.
Qed.

End SelfPipeGuard.

(** X8.  selfpipetrick.c is ended by a SIGINT only while it has no handler
    for it: in a run that was killed, the SIGINT that killed it is the last
    thing that happened, and no signal() call had succeeded before it.
    Once signal(SIGINT, signal_action) has succeeded, no SIGINT ends the
    process, whatever else goes wrong. *)
Theorem selfpipe_killed_only_without_handler (L : libc) (inherited : gmap Z file)
    (evs : list event) :
  fst (SelfPipe.main L (boot inherited evs)) = Killed ->
  tally is_signal_done (trace (snd (SelfPipe.main L (boot inherited evs)))) = 0%nat /\
  exists tr, trace (snd (SelfPipe.main L (boot inherited evs))) = tr ++ [Arrived Lethal].
Proof.
  intros Hk.
  pose proof (selfpipe_guard_main L (boot inherited evs)) as H.
  destruct (SelfPipe.main L (boot inherited evs)) as [[v|c| |] w']; simpl in *;
    try discriminate.
  apply H; done.
Qed.

Lemma selfpipe_killed_only_without_handler_witness :
  fst (SelfPipe.main glibc (boot stdio [Complete Normal; Sigint Normal])) = Killed /\
  tally is_signal_done
    (trace (snd (SelfPipe.main glibc (boot stdio [Complete Normal; Sigint Normal])))) = 0%nat.
Proof.
  assert (H : fst (SelfPipe.main glibc (boot stdio [Complete Normal; Sigint Normal])) = Killed)
    by (vm_compute; reflexivity).
  split; [exact H|].
  exact (proj1 (selfpipe_killed_only_without_handler glibc stdio _ H)).
Defined.

Section SignalFdGuard.
Variable L : libc.

Lemma signalfd_guard_sched w evs :
  unguarded sigint_unblocked is_sigprocmask_done w ->
  unguarded sigint_unblocked is_sigprocmask_done (set_sched evs w).
Proof using Type. done. Qed.

Lemma signalfd_guard_errno w e :
  unguarded sigint_unblocked is_sigprocmask_done w ->
  unguarded sigint_unblocked is_sigprocmask_done (set_errno e w).
Proof using Type. done. Qed.

Lemma signalfd_guard_sigint rep w :
  unguarded sigint_unblocked is_sigprocmask_done w ->
  post (fun _ w' => unguarded sigint_unblocked is_sigprocmask_done w')
       (killed_unguarded is_sigprocmask_done) (take_sigint SignalFd.no_handler rep w).
Proof using Type.
  apply unguarded_sigint_signalfd; [apply sigint_unblocked_signals|done..].
Qed.

Lemma signalfd_guard_stuck w :
  unguarded sigint_unblocked is_sigprocmask_done w ->
  killed_unguarded is_sigprocmask_done Stuck w.
Proof using Type. intros _. by apply unguarded_stop. Qed.

Lemma signalfd_guard_merged w :
  unguarded sigint_unblocked is_sigprocmask_done w ->
  unguarded sigint_unblocked is_sigprocmask_done (log (Arrived Merged) w).
Proof using Type. by apply unguarded_log. Qed.

Lemma signalfd_guard_kern w k :
  same_signals (kern w) k -> unguarded sigint_unblocked is_sigprocmask_done w ->
  unguarded sigint_unblocked is_sigprocmask_done (set_kern k w).
Proof using Type. apply unguarded_kern, sigint_unblocked_signals. Qed.

Lemma signalfd_guard_log w e :
  is_sigprocmask_done e = false -> unguarded sigint_unblocked is_sigprocmask_done w ->
  unguarded sigint_unblocked is_sigprocmask_done (log e w).
Proof using Type. apply unguarded_log. Qed.

(* sigprocmask(SIG_SETMASK, {SIGINT}): carried out, it blocks SIGINT;
   failed, it leaves no entry of a success *)
Lemma signalfd_guard_sigprocmask w :
  unguarded sigint_unblocked is_sigprocmask_done w ->
  post (fun _ w' => unguarded sigint_unblocked is_sigprocmask_done w')
       (killed_unguarded is_sigprocmask_done)
       (sigprocmask SignalFd.no_handler SIG_SETMASK (sigaddset sigemptyset SIGINT) w).
Proof using Type.
  intros Hw. unfold sigprocmask, syscall.
  eapply post_bind.
  { apply (halting_enter SignalFd.no_handler (unguarded sigint_unblocked is_sigprocmask_done)
             (killed_unguarded is_sigprocmask_done) signalfd_guard_sched
             signalfd_guard_sigint signalfd_guard_stuck signalfd_guard_merged). exact Hw. }
  intros rep w1 H1.
  assert (Hok : post (fun _ w' => unguarded sigint_unblocked is_sigprocmask_done w')
                  (killed_unguarded is_sigprocmask_done)
                  (perform (Sigprocmask SIG_SETMASK (sigaddset sigemptyset SIGINT))
                     (do_sigprocmask SIG_SETMASK (sigaddset sigemptyset SIGINT)) w1)).
  { unfold perform, do_sigprocmask.
    change (SIG_SETMASK =? SIG_BLOCK) with false.
    change (SIG_SETMASK =? SIG_UNBLOCK) with false.
    change (SIG_SETMASK =? SIG_SETMASK) with true. cbv iota.
    unfold answer. simpl. intros Hx. done. }
  destruct rep as [|e|n d]; [exact Hok| |exact Hok].
  unfold answer. simpl. by apply signalfd_guard_log.
Qed.

Lemma signalfd_guard_signalfd fd mask flags w :
  unguarded sigint_unblocked is_sigprocmask_done w ->
  post (fun _ w' => unguarded sigint_unblocked is_sigprocmask_done w')
       (killed_unguarded is_sigprocmask_done)
       (signalfd SignalFd.no_handler fd mask flags w).
Proof using Type.
  apply (halting_syscall SignalFd.no_handler (unguarded sigint_unblocked is_sigprocmask_done)
           (fun e => is_sigprocmask_done e = false) (killed_unguarded is_sigprocmask_done)
           signalfd_guard_sched signalfd_guard_errno signalfd_guard_log
           signalfd_guard_sigint signalfd_guard_stuck signalfd_guard_merged); [done|].
  intros w1. apply signalfd_guard_kern, do_signalfd_signals.
Qed.

Lemma signalfd_guard_poll fd ev t w :
  unguarded sigint_unblocked is_sigprocmask_done w ->
  post (fun _ w' => unguarded sigint_unblocked is_sigprocmask_done w')
       (killed_unguarded is_sigprocmask_done) (poll SignalFd.no_handler fd ev t w).
Proof using Type.
  apply (halting_poll SignalFd.no_handler (unguarded sigint_unblocked is_sigprocmask_done)
           (fun e => is_sigprocmask_done e = false) (killed_unguarded is_sigprocmask_done)
           signalfd_guard_sched signalfd_guard_errno signalfd_guard_kern signalfd_guard_log
           signalfd_guard_sigint signalfd_guard_stuck signalfd_guard_merged); done.
Qed.

Lemma signalfd_guard_read fd n w :
  unguarded sigint_unblocked is_sigprocmask_done w ->
  post (fun _ w' => unguarded sigint_unblocked is_sigprocmask_done w')
       (killed_unguarded is_sigprocmask_done) (read SignalFd.no_handler fd n w).
Proof using Type.
  apply (halting_read SignalFd.no_handler (unguarded sigint_unblocked is_sigprocmask_done)
           (killed_unguarded is_sigprocmask_done)
           signalfd_guard_sched signalfd_guard_kern
           signalfd_guard_sigint signalfd_guard_stuck signalfd_guard_merged fd n
           (fun _ w' => unguarded sigint_unblocked is_sigprocmask_done w')).
  intros w1 r v w' H1 Ha. destruct r as [m|e].
  - rewrite answer_done in Ha. inversion Ha; subst. by apply signalfd_guard_log.
  - rewrite answer_fail in Ha. inversion Ha; subst. by apply signalfd_guard_log.
Qed.

Lemma signalfd_guard_handle_signal fd w :
  unguarded sigint_unblocked is_sigprocmask_done w ->
  post (fun _ w' => unguarded sigint_unblocked is_sigprocmask_done w')
       (killed_unguarded is_sigprocmask_done) (SignalFd.handle_signal L fd w).
Proof using Type.
  intros Hw. unfold SignalFd.handle_signal.
  eapply post_bind; [by apply signalfd_guard_read|].
  intros res w1 H1. cbn zeta.
  eapply post_bind with (R := fun _ w' => unguarded sigint_unblocked is_sigprocmask_done w').
  - destruct (negb (fst res =? sizeof_siginfo)); [|done].
    unfold bind, perror, exit. simpl. done.
  - intros ? w2 H2. done.
Qed.

Lemma signalfd_guard_main w :
  unguarded sigint_unblocked is_sigprocmask_done w ->
  post (fun _ _ => True) (killed_unguarded is_sigprocmask_done) (SignalFd.main L w).
Proof using Type.
  intros Hw. unfold SignalFd.main, SignalFd.setup.
  apply post_bind with (R := fun _ w' => unguarded sigint_unblocked is_sigprocmask_done w').
  - eapply post_bind; [by apply signalfd_guard_sigprocmask|]. intros ? w1 H1.
    eapply post_bind; [by apply signalfd_guard_signalfd|]. intros fd w2 H2.
    done.
  - intros fd w1 H1.
    eapply post_bind with (R := fun _ _ => True); [|done].
    eapply post_weaken;
      [apply (while_post
                (fun w' => unguarded sigint_unblocked is_sigprocmask_done w')
                (fun w' => unguarded sigint_unblocked is_sigprocmask_done w')
                (fun w' => unguarded sigint_unblocked is_sigprocmask_done w'))|done|done].
    + intros w2 H2. apply post_spends; [apply spends_wait_ready|].
      unfold SignalFd.wait_ready.
      eapply post_bind; [by apply signalfd_guard_poll|].
      intros rc w3 H3. unfold ret. simpl. by destruct (rc >? 0).
    + intros w2 H2. apply post_keeps; [apply keeps_signalfd_handle_signal|].
      by apply signalfd_guard_handle_signal.
    + exact H1.
Qed.

End SignalFdGuard.

(** X9.  signalfd.c is ended by a SIGINT only while SIGINT is not blocked:
    in a run that was killed, the SIGINT that killed it is the last thing
    that happened, and no sigprocmask() call had succeeded before it.  Once
    sigprocmask has blocked SIGINT, no SIGINT ends the process, whatever
    else goes wrong. *)
Theorem signalfd_killed_only_unblocked (L : libc) (inherited : gmap Z file)
    (evs : list event) :
  fst (SignalFd.main L (boot inherited evs)) = Killed ->
  tally is_sigprocmask_done (trace (snd (SignalFd.main L (boot inherited evs)))) = 0%nat /\
  exists tr, trace (snd (SignalFd.main L (boot inherited evs))) = tr ++ [Arrived Lethal].
Proof.
  intros Hk.
  pose proof (signalfd_guard_main L (boot inherited evs)) as H.
  destruct (SignalFd.main L (boot inherited evs)) as [[v|c| |] w']; simpl in *;
    try discriminate.
  apply H; done.
Qed.

Lemma signalfd_killed_only_unblocked_witness :
  fst (SignalFd.main glibc (boot stdio [Complete (Fault EINVAL); Sigint Normal])) = Killed /\
  tally is_sigprocmask_done
    (trace (snd (SignalFd.main glibc (boot stdio [Complete (Fault EINVAL); Sigint Normal]))))
  = 0%nat.
Proof.
  assert (H : fst (SignalFd.main glibc (boot stdio [Complete (Fault EINVAL); Sigint Normal]))
              = Killed) by (vm_compute; reflexivity).
  split; [exact H|].
  exact (proj1 (signalfd_killed_only_unblocked glibc stdio _ H)).
Defined.

(** ** Runs in which every call is carried out *)

(** X10.  signalfd.c in a run in which every call is carried out: the
    program never calls exit, so it never ends with status 1, and it writes
    nothing on stderr. *)
Theorem signalfd_no_error_exit_when_calls_succeed (L : libc) (inherited : gmap Z file)
    (evs : list event) :
  forallb quiet evs = true ->
  (forall c, fst (SignalFd.main L (boot inherited evs)) <> Exit c) /\
  stderr (snd (SignalFd.main L (boot inherited evs))) = [].
Proof.
  intros Hquiet.
  assert (Hq : Forall (fun ev => quiet ev = true) evs).
  { apply Forall_forall. intros ev Hin.
    rewrite forallb_forall in Hquiet. apply Hquiet. by apply list_elem_of_In. }
  pose proof (signalfd_main_post L inherited evs Hq) as Hpost.
  pose proof (reported_main L (boot inherited evs)) as Hrep.
  destruct (SignalFd.main L (boot inherited evs)) as [[v|c| |] w']; simpl in *.
  - split; [discriminate|]. tauto.
  - done.
  - split; [discriminate|]. destruct Hrep as (lines & _ & _ & Herr & _). exact Herr.
  - split; [discriminate|]. destruct Hrep as (lines & _ & _ & Herr & _). exact Herr.
Qed.

Lemma signalfd_no_error_exit_when_calls_succeed_witness :
  forallb quiet (signalfd_setup_ok ++ served 2) = true /\
  stderr (snd (SignalFd.main glibc (boot stdio (signalfd_setup_ok ++ served 2)))) = [].
Proof.
  assert (H : forallb quiet (signalfd_setup_ok ++ served 2) = true) by reflexivity.
  split; [exact H|].
  exact (proj2 (signalfd_no_error_exit_when_calls_succeed glibc stdio _ H)).
Defined.

Section SelfPipeQuiet.
Variable L : libc.
Variables r wr : Z.

Lemma sound_log n e w :
  is_read e = false -> sound r wr n w -> sound r wr n (log e w).
Proof using Type.
  intros He (Hw & Hn & Herr & Ht).
  assert (He' : is_read_of 1 e = false) by (by destruct e as [[] []|]).
  split; [exact Hw|]. split; [exact Hn|]. split; [exact Herr|].
  simpl. rewrite !tally_snoc, He, He'. lia.
Qed.

Lemma sound_stop n h w :
  sound r wr n w -> (forall c, h <> Exited c) -> clean_stop h w.
Proof using Type.
  intros (Hw & Hn & Herr & Ht) Hh. split; [done|]. split; [done|].
  destruct h as [c| |]; [by specialize (Hh c)|done..].
Qed.

Lemma sound_sigint n w :
  sound r wr n w ->
  post (fun _ w' => sound r wr n w') clean_stop (take_sigint SelfPipe.on_sigint Normal w).
Proof using Type.
  intros Hs. pose proof Hs as ((Hfds & Hr & Hrd & Hwr & Hblk) & Hn & Herr & Ht).
  unfold take_sigint. rewrite Hblk.
  destruct (k_sigint (kern w)); simpl.
  - apply (sound_stop n); [by apply sound_log|done].
  - unfold SelfPipe.on_sigint.
    rewrite (signal_action_pipe SIGINT Normal wr 0 (log (Arrived Caught) w))
      by (by cbn [pipefds kern log]; rewrite ?Hfds).
    cbn [kern log].
    destruct (Z.of_nat (length (k_pipe (kern w))) <? pipe_capacity); simpl.
    + unfold sound, wired. simpl.
      split; [done|]. rewrite length_app. simpl. split; [lia|]. split; [done|].
      rewrite !tally_snoc. simpl. lia.
    + unfold clean_stop. simpl. rewrite !tally_snoc. simpl. split; [done|]. split; [lia|done].
Qed.

Lemma sound_enter n w :
  sound r wr n w -> Forall (fun ev => quiet ev = true) (sched w) ->
  post (fun rep w' => rep = Normal /\ sound r wr n w' /\
                      Forall (fun ev => quiet ev = true) (sched w'))
       clean_stop (enter SelfPipe.on_sigint w).
Proof using Type.
  intros Hs Hq.
  eapply post_weaken;
    [apply (enter_post SelfPipe.on_sigint (sound r wr n) (fun ev => quiet ev = true)
              clean_stop)| |]; try done.
  - intros rep w1 Hrep H1. destruct rep; try discriminate. by apply sound_sigint.
  - intros w1 H1 _. by apply (sound_stop n).
  - simpl. intros rep w1 (H1 & Hq1 & Hrep & _).
    split; [by apply quiet_complete|done].
Qed.

(* the poll: 0 on an empty pipe, 1 on a pipe that holds a byte *)
Lemma sound_poll w :
  sound r wr 0 w -> Forall (fun ev => quiet ev = true) (sched w) ->
  post (fun rc w' =>
          Forall (fun ev => quiet ev = true) (sched w') /\
          ((rc = 0 /\ sound r wr 0 w') \/ (rc = 1 /\ sound r wr 1 w')))
       clean_stop (poll SelfPipe.on_sigint r POLLIN 5000 w).
Proof using Type.
  intros Hs Hq. unfold poll, blocking, poll_with.
  eapply post_bind; [by apply sound_enter|].
  intros rep w1 (-> & H1 & Hq1).
  pose proof H1 as ((Hfds & Hr & Hrd & Hwr & Hblk) & Hn & Herr & Ht).
  unfold do_poll, readable. rewrite Hrd. simpl.
  destruct (r <? 0) eqn:Hneg; [lia|].
  destruct (k_pipe (kern w1)) as [|b bs] eqn:Hp; unfold answer; simpl.
  - split; [done|]. left. split; [done|]. by apply sound_log.
  - split; [done|]. right. split; [done|]. apply sound_log; [done|].
    split; [done|]. rewrite Hp. simpl. split; [lia|done].
Qed.

(* the read, made when the pipe holds a byte: it returns 1 *)
Lemma sound_read w :
  sound r wr 1 w -> Forall (fun ev => quiet ev = true) (sched w) ->
  post (fun res w' =>
          fst res = 1 /\ sound r wr 0 w' /\ Forall (fun ev => quiet ev = true) (sched w'))
       clean_stop (read SelfPipe.on_sigint r 1 w).
Proof using Type.
  intros Hs Hq. unfold read, blocking, read_with.
  eapply post_bind; [by apply sound_enter|].
  intros rep w1 (-> & H1 & Hq1).
  pose proof H1 as ((Hfds & Hr & Hrd & Hwr & Hblk) & Hn & Herr & Ht).
  unfold do_read. rewrite Hrd. simpl.
  destruct (k_pipe (kern w1)) as [|b bs] eqn:Hp; simpl in Hn; [lia|].
  unfold bind, answer, ret. simpl.
  split; [done|]. split; [|done]. unfold sound. simpl.
  split; [done|]. split; [lia|]. split; [done|].
  rewrite !tally_snoc. simpl. lia.
Qed.

Lemma sound_iteration w :
  sound r wr 0 w -> Forall (fun ev => quiet ev = true) (sched w) ->
  post (fun _ w' => sound r wr 0 w' /\ Forall (fun ev => quiet ev = true) (sched w'))
       clean_stop (SelfPipe.iteration L r w).
Proof using Type.
  intros Hs Hq. unfold SelfPipe.iteration.
  eapply post_bind; [by apply sound_poll|].
  intros rc w1 (Hq1 & [(-> & H1)|(-> & H1)]); unfold SelfPipe.switch.
  - change (0 =? 0) with true. cbv iota. unfold bind, printf, modify, exit. simpl.
    destruct H1 as (_ & _ & Herr & Ht). done.
  - change (1 =? 0) with false. change (1 =? -1) with false. cbv iota.
    unfold SelfPipe.handle_signal.
    eapply post_bind; [by apply sound_read|].
    intros res w2 (Hres & H2 & Hq2). rewrite Hres.
    change (negb (1 =? 1)) with false. cbv iota.
    unfold bind, ret, printf, modify. simpl. done.
Qed.

Lemma sound_loop w :
  sound r wr 0 w -> Forall (fun ev => quiet ev = true) (sched w) ->
  post (fun (_ : Z) _ => False) clean_stop (forever (SelfPipe.iteration L r) w).
Proof using Type.
  intros Hs Hq.
  apply (forever_post
           (fun w' => sound r wr 0 w' /\ Forall (fun ev => quiet ev = true) (sched w')));
    [|done].
  intros w1 [H1 Hq1]. apply post_spends; [apply spends_iteration|].
  by apply sound_iteration.
Qed.

End SelfPipeQuiet.

(* entering a call of the set-up in a quiet run *)
Lemma enter_fresh handler w :
  fresh w ->
  post (fun rep w' => rep = Normal /\ fresh w' /\ kern w' = kern w /\ pipefds w' = pipefds w)
       clean_stop (enter handler w).
Proof.
  intros (Hd & Hb & Herr & Ht & Hq).
  rewrite (enter_default handler w Hd Hb).
  destruct (sched w) as [|[rep|rep|k rep] rest] eqn:Hs; unfold clean_stop, fresh; simpl.
  - done.
  - rewrite !tally_snoc. simpl. split; [done|]. split; [lia|done].
  - apply Forall_cons in Hq as [Hrep Hrest]. apply quiet_complete in Hrep. done.
  - apply Forall_cons in Hq as [Hrep Hrest]. discriminate.
Qed.

Lemma fresh_log e w : is_read e = false -> fresh w -> fresh (log e w).
Proof.
  intros He (Hd & Hb & Herr & Ht & Hq).
  assert (He' : is_read_of 1 e = false) by (by destruct e as [[] []|]).
  unfold fresh. simpl. rewrite !tally_snoc, He, He'.
  split; [done|]. split; [done|]. split; [done|]. split; [lia|done].
Qed.

Section SelfPipeQuietSetup.
Variable L : libc.

Lemma fresh_pipe w :
  fresh w ->
  post (fun rc w' => rc = 0 /\ exists r wr, wired r wr w' /\ fresh w')
       clean_stop (pipe SelfPipe.on_sigint w).
Proof using Type.
  intros Hf. unfold pipe.
  eapply post_bind; [by apply enter_fresh|].
  intros rep w1 (-> & H1 & Hk & Hp).
  destruct (do_pipe (kern w1)) as [[r wr] k'] eqn:Hdp.
  apply do_pipe_spec in Hdp as (Hr & Hrd & Hwr & Hp' & Hb' & Hd').
  destruct H1 as (Hd & Hb & Herr & Ht & Hq).
  unfold answer. simpl. split; [done|]. exists r, wr. split.
  - unfold wired. simpl. rewrite Hb'. done.
  - apply fresh_log; [done|]. unfold fresh. simpl. rewrite Hd', Hb'. done.
Qed.

Lemma fresh_fcntl fd r wr w :
  fd = r \/ fd = wr ->
  wired r wr w -> fresh w ->
  post (fun rc w' => rc = 0 /\ wired r wr w' /\ fresh w')
       clean_stop (fcntl SelfPipe.on_sigint fd F_SETFD O_NONBLOCK w).
Proof using Type.
  intros Hfd Hw Hf. unfold fcntl, syscall.
  eapply post_bind; [by apply enter_fresh|].
  intros rep w1 (-> & H1 & Hk & Hp).
  pose proof (wired_distinct r wr w Hw) as Hne.
  destruct Hw as (Hfds & Hr & Hrd & Hwr & Hblk).
  destruct H1 as (Hd & Hb & Herr & Ht & Hq).
  unfold perform. rewrite Hk.
  destruct Hfd as [-> | ->].
  - rewrite (do_fcntl_setfd r O_NONBLOCK (kern w) _ Hrd).
    unfold answer. simpl. split; [done|]. split.
    + unfold wired. simpl. rewrite Hp, lookup_insert_eq, lookup_insert_ne by done. done.
    + apply fresh_log; [done|]. unfold fresh. simpl. rewrite <- Hk. done.
  - rewrite (do_fcntl_setfd wr O_NONBLOCK (kern w) _ Hwr).
    unfold answer. simpl. split; [done|]. split.
    + unfold wired. simpl. rewrite Hp, lookup_insert_eq, lookup_insert_ne by done. done.
    + apply fresh_log; [done|]. unfold fresh. simpl. rewrite <- Hk. done.
Qed.

Lemma fresh_signal r wr w :
  wired r wr w -> fresh w ->
  post (fun _ w' => sound r wr 0 w' /\ Forall (fun ev => quiet ev = true) (sched w'))
       clean_stop (signal SelfPipe.on_sigint SIGINT w).
Proof using Type.
  intros Hw Hf. unfold signal, syscall.
  eapply post_bind; [by apply enter_fresh|].
  intros rep w1 (-> & H1 & Hk & Hp).
  destruct Hw as (Hfds & Hr & Hrd & Hwr & Hblk).
  destruct H1 as (Hd & Hb & Herr & Ht & Hq).
  unfold perform, do_signal. change (SIGINT =? SIGINT) with true. cbv iota.
  unfold answer. simpl. split; [|done].
  unfold sound, wired. simpl. rewrite Hk, Hp, !tally_snoc. simpl.
  split; [done|]. split; [lia|]. split; [done|lia].
Qed.

Lemma fresh_setup w :
  fresh w ->
  post (fun read_fd w' => exists wr,
          sound read_fd wr 0 w' /\ Forall (fun ev => quiet ev = true) (sched w'))
       clean_stop (SelfPipe.setup L w).
Proof using Type.
  intros Hf. unfold SelfPipe.setup.
  eapply post_bind; [by apply fresh_pipe|]. intros rc w1 (-> & r & wr & Hw1 & Hf1).
  change (0 =? -1) with false. cbv iota. unfold ret at 1, bind at 1.
  unfold bind at 1, gets at 1.
  assert (Hfds1 : pipefds w1 = (r, wr)) by apply Hw1. rewrite Hfds1. cbn [fst].
  eapply post_bind; [apply (fresh_fcntl r r wr); [by left|done|done]|].
  intros rc' w2 (-> & Hw2 & Hf2).
  change (0 =? -1) with false. cbv iota. unfold ret at 1, bind at 1.
  unfold bind at 1, gets at 1.
  assert (Hfds2 : pipefds w2 = (r, wr)) by apply Hw2. rewrite Hfds2. cbn [snd].
  eapply post_bind; [apply (fresh_fcntl wr r wr); [by right|done|done]|].
  intros rc'' w3 (-> & Hw3 & Hf3).
  change (0 =? -1) with false. cbv iota. unfold ret at 1, bind at 1.
  unfold bind at 1, gets at 1.
  assert (Hfds3 : pipefds w3 = (r, wr)) by apply Hw3. rewrite Hfds3. cbn [fst].
  eapply post_bind; [by apply (fresh_signal r wr)|].
  intros ? w4 H4. unfold ret. simpl. by exists wr.
Qed.

Lemma fresh_main w :
  fresh w -> post (fun _ _ => False) clean_stop (SelfPipe.main L w).
Proof using Type.
  intros Hf. unfold SelfPipe.main.
  eapply post_bind; [by apply fresh_setup|].
  intros read_fd w1 (wr & H1 & Hq1). by apply (sound_loop L read_fd wr).
Qed.

End SelfPipeQuietSetup.

(** X11.  selfpipetrick.c in a run in which every call is carried out, the
    writes of the handler included: the only exit is the one with
    EXIT_SUCCESS, nothing is written on stderr, and every read that was made
    returned 1. *)
Theorem selfpipe_no_error_exit_when_calls_succeed (L : libc) (inherited : gmap Z file)
    (evs : list event) :
  forallb quiet evs = true ->
  (forall c, fst (SelfPipe.main L (boot inherited evs)) = Exit c -> c = EXIT_SUCCESS) /\
  stderr (snd (SelfPipe.main L (boot inherited evs))) = [] /\
  tally is_read (trace (snd (SelfPipe.main L (boot inherited evs))))
  = tally (is_read_of 1) (trace (snd (SelfPipe.main L (boot inherited evs)))).
Proof.
  intros Hquiet.
  assert (Hf : fresh (boot inherited evs)).
  { unfold fresh. simpl. repeat split; try done.
    apply Forall_forall. intros ev Hin.
    rewrite forallb_forall in Hquiet. apply Hquiet. by apply list_elem_of_In. }
  pose proof (fresh_main L (boot inherited evs) Hf) as H.
  destruct (SelfPipe.main L (boot inherited evs)) as [[v|c| |] w']; simpl in *; [done|..].
  all: destruct H as (Herr & Ht & Hc); split; [|done].
  - intros c' Hc'. by inversion Hc'; subst.
  - discriminate.
  - discriminate.
Qed.

Lemma selfpipe_no_error_exit_when_calls_succeed_witness :
  forallb quiet (selfpipe_setup_ok ++ served 2) = true /\
  fst (SelfPipe.main glibc (boot stdio (selfpipe_setup_ok ++ served 2))) = Exit EXIT_SUCCESS /\
  stderr (snd (SelfPipe.main glibc (boot stdio (selfpipe_setup_ok ++ served 2)))) = [].
Proof.
  assert (H : forallb quiet (selfpipe_setup_ok ++ served 2) = true) by reflexivity.
  split; [exact H|]. split; [vm_compute; reflexivity|].
  exact (proj1 (proj2 (selfpipe_no_error_exit_when_calls_succeed glibc stdio _ H))).
Defined.

(** ** The result of signal() *)

(** X12.  selfpipetrick.c does not look at what signal() returns: when the
    set-up has got as far as calling signal(SIGINT, signal_action), it
    completes, whatever the call returned, SIG_ERR included.  It returns
    pipefds[0] and has printed nothing. *)
Theorem selfpipe_signal_result_unchecked (L : libc) (inherited : gmap Z file)
    (evs : list event) (res : sysres) :
  In (Called (Signal SIGINT) res) (trace (snd (SelfPipe.setup L (boot inherited evs)))) ->
  fst (SelfPipe.setup L (boot inherited evs))
  = Ret (fst (pipefds (snd (SelfPipe.setup L (boot inherited evs))))) /\
  stdout (snd (SelfPipe.setup L (boot inherited evs))) = [] /\
  stderr (snd (SelfPipe.setup L (boot inherited evs))) = [].
Proof.
  intros Hin.
  pose proof (selfpipe_setup_post L False (boot inherited evs)) as Hpost.
  assert (Hst : starting False [] (boot inherited evs)).
  { apply boot_starting. apply Forall_forall. tauto. }
  specialize (Hpost Hst).
  destruct (SelfPipe.setup L (boot inherited evs)) as [[v|c| |] w']; simpl in *.
  - destruct Hpost as (wr & (((Hfds & _) & _) & _) & _ & _ & _ & Hout & Herr).
    rewrite Hfds. done.
  - destruct Hpost as (Hall & _). rewrite forallb_forall in Hall.
    by specialize (Hall _ Hin).
  - destruct Hpost as (Hall & _). rewrite forallb_forall in Hall.
    by specialize (Hall _ Hin).
  - destruct Hpost as (Hall & _). rewrite forallb_forall in Hall.
    by specialize (Hall _ Hin).
Qed.

Lemma selfpipe_signal_result_unchecked_witness :
  In (Called (Signal SIGINT) (Fail EINVAL))
     (trace (snd (SelfPipe.setup glibc
                    (boot stdio [Complete Normal; Complete Normal; Complete Normal;
                                 Complete (Fault EINVAL)])))) /\
  fst (SelfPipe.setup glibc
         (boot stdio [Complete Normal; Complete Normal; Complete Normal;
                      Complete (Fault EINVAL)]))
  = Ret 3.
Proof.
  assert (H : In (Called (Signal SIGINT) (Fail EINVAL))
                (trace (snd (SelfPipe.setup glibc
                               (boot stdio [Complete Normal; Complete Normal; Complete Normal;
                                            Complete (Fault EINVAL)]))))).
  { vm_compute. tauto. }
  split; [exact H|].
  destruct (selfpipe_signal_result_unchecked glibc stdio _ _ H) as (Hret & _).
  rewrite Hret. vm_compute. reflexivity.
Defined.

(** ** What the set-up of signalfd.c leaves behind *)

Lemma sigint_mask_members s : sigismember sigint_mask s = true <-> s = SIGINT.
Proof.
  unfold sigismember. change sigint_mask with (2 ^ 1).
  rewrite Z.pow2_bits_eqb by lia. unfold SIGINT. rewrite Z.eqb_eq. lia.
Qed.

(** X13.  The set-up of signalfd.c when both of its calls are carried out,
    from any state: the signal mask of the process becomes the set that
    holds SIGINT and nothing else, whatever was blocked before
    (SIG_SETMASK); the value is the lowest descriptor that was free, now a
    signalfd descriptor for that set whose status flags have O_NONBLOCK;
    the other descriptors are as they were. *)
Theorem signalfd_setup_establishes (w : world) (rest : list event) :
  sched w = Complete Normal :: Complete Normal :: rest ->
  exists f w',
    SignalFd.setup w = (Ret (lowest_free (k_fds (kern w))), w') /\
    k_fds (kern w) !! lowest_free (k_fds (kern w)) = None /\
    k_fds (kern w') = <[lowest_free (k_fds (kern w)) := f]> (k_fds (kern w)) /\
    f_kind f = SignalFd sigint_mask /\
    Z.land (f_status f) O_NONBLOCK = O_NONBLOCK /\
    k_blocked (kern w') = sigint_mask /\
    (forall s, sigismember (k_blocked (kern w')) s = true <-> s = SIGINT) /\
    sched w' = rest.
Proof.
  intros Hs.
  unfold SignalFd.setup, sigprocmask, syscall, bind at 1 2.
  rewrite (enter_complete _ _ _ _ Hs).
  unfold perform, do_sigprocmask.
  change (SIG_SETMASK =? SIG_BLOCK) with false.
  change (SIG_SETMASK =? SIG_UNBLOCK) with false.
  change (SIG_SETMASK =? SIG_SETMASK) with true. cbv iota.
  unfold answer. wsimpl.
  unfold signalfd, syscall, bind at 1 2.
  erewrite enter_complete by reflexivity.
  unfold perform, do_signalfd.
  change (negb (Z.ldiff SFD_NONBLOCK (Z.lor SFD_NONBLOCK SFD_CLOEXEC) =? 0)) with false.
  change (-1 =? -1) with true. cbv iota.
  unfold answer, bind, ret. wsimpl.
  eexists. eexists. split; [reflexivity|]. wsimpl.
  split; [apply lowest_free_free|]. split; [reflexivity|]. split; [reflexivity|].
  split; [reflexivity|]. split; [reflexivity|]. split; [|reflexivity].
  apply sigint_mask_members.
Qed.

Lemma signalfd_setup_establishes_witness :
  exists f w',
    SignalFd.setup (boot stdio [Complete Normal; Complete Normal]) = (Ret 3, w') /\
    k_fds (kern w') !! 3 = Some f /\
    f_kind f = SignalFd sigint_mask /\
    Z.land (f_status f) O_NONBLOCK = O_NONBLOCK.
Proof.
  destruct (signalfd_setup_establishes (boot stdio [Complete Normal; Complete Normal]) []
              eq_refl) as (f & w' & Hrun & _ & Hfds & Hkind & Hst & _).
  exists f, w'. split; [exact Hrun|]. split; [|split; [exact Hkind|exact Hst]].
  rewrite Hfds. apply lookup_insert_eq.
Defined.

(** ** Signals that come in a burst *)

Lemma enter_from_sched handler w : enter_from handler (sched w) w = enter handler w.
Proof. done. Qed.

(* selfpipetrick.c: a SIGINT runs the handler, which adds its byte to the
   pipe when there is room for it *)
Lemma selfpipe_take_sigint_byte r wr w :
  installed r wr w ->
  Z.of_nat (length (k_pipe (kern w))) < pipe_capacity ->
  exists w',
    take_sigint SelfPipe.on_sigint Normal w = (Ret tt, w') /\
    installed r wr w' /\
    k_pipe (kern w') = k_pipe (kern w) ++ [Byte.x00] /\
    sched w' = sched w /\ stdout w' = stdout w /\ stderr w' = stderr w /\
    tally is_caught (trace w') = S (tally is_caught (trace w)) /\
    trace w' = trace w ++ [Arrived Caught; Called (Write wr [Byte.x00]) (Done 1)].
Proof.
  intros ((Hfds & Hr & Hrd & Hwr & Hblk) & Hsig) Hroom.
  unfold take_sigint. rewrite Hblk, Hsig. unfold SelfPipe.on_sigint.
  rewrite (signal_action_pipe SIGINT Normal wr 0 (log (Arrived Caught) w))
    by (by cbn [pipefds kern log]; rewrite ?Hfds).
  wsimpl. apply Z.ltb_lt in Hroom. rewrite Hroom.
  eexists. split; [reflexivity|]. unfold installed, wired. wsimpl.
  rewrite !tally_snoc, <- app_assoc. simpl. repeat split; first [done|lia].
Qed.

(* each SIGINT of a burst does, while the pipe has room *)
Lemma selfpipe_enter_burst r wr n :
  forall w rep rest,
    installed r wr w -> sched w = burst n ++ Complete rep :: rest ->
    Z.of_nat (length (k_pipe (kern w)) + n) <= pipe_capacity ->
    exists w',
      enter SelfPipe.on_sigint w = (Ret rep, w') /\
      installed r wr w' /\
      k_pipe (kern w') = k_pipe (kern w) ++ repeat Byte.x00 n /\
      sched w' = rest /\ stdout w' = stdout w /\ stderr w' = stderr w /\
      tally is_caught (trace w') = (tally is_caught (trace w) + n)%nat.
Proof.
  unfold burst. induction n as [|n IH]; intros w rep rest Hi Hs Hroom.
  - simpl in Hs. rewrite (enter_complete _ _ _ _ Hs).
    eexists. split; [reflexivity|]. split; [exact Hi|]. wsimpl. rewrite app_nil_r.
    repeat split; first [done|lia].
  - simpl in Hs. rewrite (enter_sigint _ _ _ _ Hs).
    destruct (selfpipe_take_sigint_byte r wr
                (set_sched (repeat (Sigint Normal) n ++ Complete rep :: rest) w))
      as (w1 & Htake & Hi1 & Hp1 & Hs1 & Hout1 & Herr1 & Ht1 & _); [exact Hi|wsimpl; lia|].
    unfold bind. rewrite Htake.
    wsimpl. rewrite <- Hs1, enter_from_sched.
    destruct (IH w1 rep rest Hi1 Hs1) as (w' & He & Hi' & Hp & Hs' & Hout & Herr & Ht).
    { rewrite Hp1, length_app. wsimpl. simpl. lia. }
    rewrite He.
    exists w'. split; [reflexivity|]. split; [exact Hi'|].
    rewrite Hp, Hp1, <- app_assoc, Ht, Ht1, Hout, Hout1, Herr, Herr1. simpl.
    repeat split; first [done|lia].
Qed.

(* the poll of the loop when the pipe holds a byte once the signals that
   come before it have been taken *)
Lemma selfpipe_poll_burst r wr n w b bs rest :
  installed r wr w -> sched w = burst n ++ Complete Normal :: rest ->
  Z.of_nat (length (k_pipe (kern w)) + n) <= pipe_capacity ->
  k_pipe (kern w) ++ repeat Byte.x00 n = b :: bs ->
  exists w',
    poll SelfPipe.on_sigint r POLLIN 5000 w = (Ret 1, w') /\
    installed r wr w' /\ k_pipe (kern w') = b :: bs /\
    sched w' = rest /\ stdout w' = stdout w /\ stderr w' = stderr w /\
    tally is_caught (trace w') = (tally is_caught (trace w) + n)%nat.
Proof.
  intros Hi Hs Hroom Hp.
  destruct (selfpipe_enter_burst r wr n w Normal rest Hi Hs Hroom)
    as (w1 & He & Hi1 & Hp1 & Hs1 & Hout1 & Herr1 & Ht1).
  unfold poll, blocking, poll_with, bind. rewrite He.
  destruct Hi1 as ((Hfds & Hr & Hrd & Hwr & Hblk) & Hsig).
  unfold do_poll, readable. rewrite Hrd. cbn [f_kind]. rewrite Hp1, Hp.
  destruct (r <? 0) eqn:Hneg; [lia|].
  change (negb (Z.land POLLIN POLLIN =? 0) && true) with true. cbv iota.
  unfold answer.
  eexists. split; [reflexivity|]. unfold installed, wired. wsimpl.
  rewrite tally_snoc, Hp1, Hp. simpl.
  repeat split; first [done|lia].
Qed.

(* handle_signal when the pipe holds a byte *)
Lemma selfpipe_handle_signal_byte (L : libc) r wr w b bs rest :
  installed r wr w -> sched w = Complete Normal :: rest ->
  k_pipe (kern w) = b :: bs ->
  exists w',
    SelfPipe.handle_signal L r w = (Ret tt, w') /\
    installed r wr w' /\ k_pipe (kern w') = bs /\
    sched w' = rest /\ stdout w' = stdout w ++ [received_message] /\ stderr w' = stderr w /\
    tally is_caught (trace w') = tally is_caught (trace w) /\
    trace w' = trace w ++ [Called (Read r 1) (Done 1)].
Proof.
  intros ((Hfds & Hr & Hrd & Hwr & Hblk) & Hsig) Hs Hp.
  unfold SelfPipe.handle_signal, read, blocking, read_with, bind at 1 2 3.
  rewrite (enter_complete _ _ _ _ Hs).
  unfold do_read. wsimpl. rewrite Hrd. cbn [f_kind f_status]. rewrite Hp.
  unfold bind, answer, ret. wsimpl.
  change (Z.to_nat 1) with 1%nat. cbn [take length drop].
  change (negb (Z.of_nat 1 =? 1)) with false. cbv iota.
  unfold printf, modify.
  eexists. split; [reflexivity|]. unfold installed, wired. wsimpl.
  rewrite tally_snoc, drop_0. simpl.
  repeat split; first [done|lia].
Qed.

(* no more signals were held or merged than came *)
Lemma held_merged_arrived tr :
  (tally is_held tr + tally is_merged tr <= tally is_arrival tr)%nat.
Proof.
  induction tr as [|e tr IH] using rev_ind; [done|].
  rewrite !tally_snoc. destruct e as [|[]]; simpl; lia.
Qed.

(* nor were more caught *)
Lemma caught_arrived tr : (tally is_caught tr <= tally is_arrival tr)%nat.
Proof.
  induction tr as [|e tr IH] using rev_ind; [done|].
  rewrite !tally_snoc. destruct e as [|[]]; simpl; lia.
Qed.

Lemma tally_repeat p e n tr :
  tally p (tr ++ repeat e n) = (tally p tr + (if p e then n else 0))%nat.
Proof.
  induction n as [|n IH]; simpl.
  - rewrite app_nil_r. destruct (p e); lia.
  - rewrite repeat_cons, app_assoc, tally_snoc, IH. destruct (p e); lia.
Qed.

Lemma enter_coalesced handler w n rep rest :
  sched w = Coalesced n rep :: rest ->
  enter handler w
  = (take_coalesced handler n rep ;;; enter_from handler rest) (set_sched rest w).
Proof. intros H. unfold enter. by rewrite H. Qed.

(* selfpipetrick.c: of [n] + 1 SIGINTs that are generated before the
   process takes the first, one runs the handler: the pipe gets one byte *)
Lemma selfpipe_take_coalesced_byte r wr n w :
  installed r wr w ->
  Z.of_nat (length (k_pipe (kern w))) < pipe_capacity ->
  exists w',
    take_coalesced SelfPipe.on_sigint n Normal w = (Ret tt, w') /\
    installed r wr w' /\
    k_pipe (kern w') = k_pipe (kern w) ++ [Byte.x00] /\
    sched w' = sched w /\ stdout w' = stdout w /\ stderr w' = stderr w /\
    tally is_caught (trace w') = S (tally is_caught (trace w)) /\
    tally is_merged (trace w') = (tally is_merged (trace w) + n)%nat /\
    tally is_arrival (trace w') = (tally is_arrival (trace w) + S n)%nat.
Proof.
  intros Hi Hroom.
  destruct (selfpipe_take_sigint_byte r wr w Hi Hroom)
    as (w0 & Htake & Hi0 & Hp0 & Hs0 & Hout0 & Herr0 & _ & Ht0).
  pose proof Hi0 as ((Hfds & Hr & Hrd & Hwr & Hblk) & Hsig).
  destruct (merge_sigints_unblocked SelfPipe.on_sigint n w0 Hblk)
    as (w' & Hm & Hk & _ & Hp & Hout & Herr & Hs & Ht).
  exists w'. unfold take_coalesced, bind. rewrite Htake, Hm.
  split; [done|]. split; [unfold installed, wired; by rewrite Hk, Hp|].
  rewrite Hk, Hp0, Hs, Hs0, Hout, Hout0, Herr, Herr0, Ht, Ht0.
  rewrite !tally_repeat, (cons_middle (Arrived Caught)), !app_assoc, !tally_snoc.
  simpl. repeat split; first [done|lia].
Qed.

Section Bursts.
Variable L : libc.

(* one round of the loop of selfpipetrick.c that starts with a burst *)
Lemma selfpipe_round_burst r wr n w b bs rest :
  installed r wr w ->
  sched w = burst n ++ Complete Normal :: Complete Normal :: rest ->
  Z.of_nat (length (k_pipe (kern w)) + n) <= pipe_capacity ->
  k_pipe (kern w) ++ repeat Byte.x00 n = b :: bs ->
  exists w',
    SelfPipe.iteration L r w = (Ret tt, w') /\
    installed r wr w' /\ k_pipe (kern w') = bs /\
    sched w' = rest /\ stdout w' = stdout w ++ [received_message] /\ stderr w' = stderr w /\
    tally is_caught (trace w') = (tally is_caught (trace w) + n)%nat.
Proof using Type.
  intros Hi Hs Hroom Hp.
  destruct (selfpipe_poll_burst r wr n w b bs _ Hi Hs Hroom Hp)
    as (w1 & Hpoll & Hi1 & Hp1 & Hs1 & Hout1 & Herr1 & Ht1).
  destruct (selfpipe_handle_signal_byte L r wr w1 b bs rest Hi1 Hs1 Hp1)
    as (w2 & Hhs & Hi2 & Hp2 & Hs2 & Hout2 & Herr2 & Ht2 & _).
  unfold SelfPipe.iteration, bind. rewrite Hpoll.
  unfold SelfPipe.switch. change (1 =? 0) with false. change (1 =? -1) with false.
  cbv iota. rewrite Hhs.
  exists w2. split; [done|]. rewrite Hout2, Hout1, Herr2, Herr1, Ht2, Ht1. done.
Qed.

(* the round that finds the pipe empty: the poll times out *)
Lemma selfpipe_iteration_timeout r wr w rest :
  installed r wr w -> k_pipe (kern w) = [] -> sched w = Complete Normal :: rest ->
  exists w',
    SelfPipe.iteration L r w = (Exit EXIT_SUCCESS, w') /\
    stdout w' = stdout w ++ [timeout_message] /\ stderr w' = stderr w /\
    trace w' = trace w ++ [Called (Poll r POLLIN 5000) (Done 0)].
Proof using Type.
  intros ((Hfds & Hr & Hrd & Hwr & Hblk) & Hsig) Hp Hs.
  unfold SelfPipe.iteration, poll, blocking, poll_with, bind at 1 2.
  rewrite (enter_complete _ _ _ _ Hs).
  unfold do_poll, readable. wsimpl. rewrite Hrd. cbn [f_kind]. rewrite Hp.
  destruct (r <? 0) eqn:Hneg; [lia|].
  change (negb (Z.land POLLIN POLLIN =? 0) && false) with false. cbv iota.
  change (5000 <? 0) with false. cbv iota.
  unfold answer, SelfPipe.switch. change (0 =? 0) with true. cbv iota.
  unfold bind, printf, modify, exit.
  eexists. split; [reflexivity|]. wsimpl. done.
Qed.

(* the poll that takes [n] + 1 SIGINTs of which the process gets one *)
Lemma selfpipe_poll_coalesced r wr n w rest :
  installed r wr w -> sched w = Coalesced n Normal :: Complete Normal :: rest ->
  Z.of_nat (length (k_pipe (kern w))) < pipe_capacity ->
  exists w',
    poll SelfPipe.on_sigint r POLLIN 5000 w = (Ret 1, w') /\
    installed r wr w' /\ k_pipe (kern w') = k_pipe (kern w) ++ [Byte.x00] /\
    sched w' = rest /\ stdout w' = stdout w /\ stderr w' = stderr w /\
    tally is_caught (trace w') = S (tally is_caught (trace w)) /\
    tally is_merged (trace w') = (tally is_merged (trace w) + n)%nat /\
    tally is_arrival (trace w') = (tally is_arrival (trace w) + S n)%nat.
Proof using Type.
  intros Hi Hs Hroom.
  destruct (selfpipe_take_coalesced_byte r wr n (set_sched (Complete Normal :: rest) w))
    as (w1 & Htake & ((Hfds & Hr & Hrd & Hwr & Hblk) & Hsig) & Hp1 & Hs1 & Hout1 & Herr1
        & Htc & Htm & Hta); [exact Hi|exact Hroom|].
  unfold poll, blocking, poll_with, bind at 1. rewrite (enter_coalesced _ _ _ _ _ Hs).
  unfold bind at 1. rewrite Htake. cbn [sched set_sched] in Hs1. rewrite <- Hs1, enter_from_sched.
  rewrite (enter_complete _ _ _ _ Hs1).
  unfold do_poll, readable. wsimpl. rewrite Hrd. cbn [f_kind]. rewrite Hp1. wsimpl.
  destruct (r <? 0) eqn:Hneg; [lia|].
  destruct (k_pipe (kern w) ++ [Byte.x00]) as [|b bs] eqn:Hp; [by destruct (k_pipe (kern w))|].
  change (negb (Z.land POLLIN POLLIN =? 0) && true) with true. cbv iota.
  unfold answer.
  eexists. split; [reflexivity|]. unfold installed, wired. wsimpl.
  rewrite !tally_snoc, Hp1, Htc, Htm, Hta. simpl. wsimpl.
  repeat split; first [done|lia].
Qed.

(* the loop takes the bytes out of the pipe one by one, and then times out *)
Lemma selfpipe_drain r wr j rest :
  Z.of_nat j <= pipe_capacity ->
  forall w,
    installed r wr w -> length (k_pipe (kern w)) = j ->
    sched w = carried_out (2 * j + 1) ++ rest ->
    exists w',
      @forever Z (SelfPipe.iteration L r) w = (Exit EXIT_SUCCESS, w') /\
      stdout w' = stdout w ++ repeat received_message j ++ [timeout_message] /\
      stderr w' = stderr w /\
      tally is_caught (trace w') = tally is_caught (trace w).
Proof using Type.
  induction j as [|j IH]; intros Hroom w Hi Hlen Hs.
  - destruct (k_pipe (kern w)) as [|b bs] eqn:Hp; [|discriminate].
    destruct (selfpipe_iteration_timeout r wr w rest Hi Hp Hs)
      as (w' & Hit & Hout & Herr & Htr).
    exists w'. rewrite selfpipe_loop_unfold. unfold bind. rewrite Hit.
    rewrite Htr, tally_snoc. simpl. repeat split; first [done|lia].
  - destruct (k_pipe (kern w)) as [|b bs] eqn:Hp; [discriminate|].
    replace (2 * S j + 1)%nat with (S (S (2 * j + 1))) in Hs by lia.
    destruct (selfpipe_round_burst r wr 0 w b bs (carried_out (2 * j + 1) ++ rest) Hi Hs)
      as (w1 & Hit & Hi1 & Hp1 & Hs1 & Hout1 & Herr1 & Ht1).
    { rewrite Hp, Hlen. lia. }
    { rewrite Hp. simpl. by rewrite app_nil_r. }
    destruct (IH ltac:(lia) w1 Hi1) as (w' & Hloop & Hout & Herr & Ht); [|exact Hs1|].
    { rewrite Hp1. simpl in Hlen. lia. }
    exists w'. rewrite selfpipe_loop_unfold. unfold bind. rewrite Hit.
    split; [done|]. rewrite Hout, Hout1, Herr, Herr1, Ht, Ht1, <- app_assoc. simpl.
    repeat split; first [done|lia].
Qed.

End Bursts.

(* the set-up when each of its four calls is carried out: the pipe is empty,
   the handler is installed, and no signal has come *)
Lemma selfpipe_setup_installed (L : libc) (inherited : gmap Z file) (rest : list event) :
  exists r wr w',
    SelfPipe.setup L (boot inherited (selfpipe_setup_ok ++ rest)) = (Ret r, w') /\
    installed r wr w' /\ k_pipe (kern w') = [] /\ sched w' = rest /\
    stdout w' = [] /\ stderr w' = [] /\ tally is_arrival (trace w') = 0%nat.
Proof.
  destruct (selfpipe_setup_normal L inherited rest)
    as (r & wr & w1 & Hsetup & (Hw & Hsig & Hpipe) & Hs & Hout & Ht & Hta).
  assert (Herr : stderr w1 = []).
  { pose proof (selfpipe_setup_post L False (boot inherited (selfpipe_setup_ok ++ rest)))
      as Hpost.
    rewrite Hsetup in Hpost. simpl in Hpost.
    destruct Hpost as (wr' & _ & _ & _ & _ & _ & Herr); [|exact Herr].
    apply boot_starting. apply Forall_forall. tauto. }
  exists r, wr, w1. done.
Qed.

(** X14.  selfpipetrick.c prints a line for each run of its handler, not
    for each SIGINT that is sent.  After a set-up whose calls are carried
    out:
    - n SIGINTs, each taken by the process before the next is generated and
      all of them before the next poll of the loop completes, n being no
      more than the 65536 bytes the pipe has room for: the handler runs n
      times and puts n bytes in the pipe, and the loop, with its calls
      carried out, takes them out one by one: n "Received signal" lines,
      then the timeout message and exit(EXIT_SUCCESS);
    - n + 1 SIGINTs that are generated before the process takes the first:
      they are merged into one, the handler runs once, and the loop prints
      one line, then the timeout message, and calls exit(EXIT_SUCCESS). *)
Theorem selfpipe_counts_handler_runs (L : libc) (inherited : gmap Z file) (n : nat)
    (rest : list event) :
  (Z.of_nat n <= pipe_capacity ->
   exists w',
     SelfPipe.main L
       (boot inherited (selfpipe_setup_ok ++ burst n ++ carried_out (2 * n + 1) ++ rest))
     = (Exit EXIT_SUCCESS, w') /\
     stdout w' = repeat received_message n ++ [timeout_message] /\
     stderr w' = [] /\
     tally is_caught (trace w') = n) /\
  (exists w',
     SelfPipe.main L
       (boot inherited (selfpipe_setup_ok ++ Coalesced n Normal :: carried_out 3 ++ rest))
     = (Exit EXIT_SUCCESS, w') /\
     stdout w' = [received_message; timeout_message] /\
     stderr w' = [] /\
     tally is_arrival (trace w') = S n /\
     tally is_caught (trace w') = 1%nat /\
     tally is_merged (trace w') = n).
Proof.
  split.
  - intros Hn.
    destruct (selfpipe_setup_installed L inherited
                (burst n ++ carried_out (2 * n + 1) ++ rest))
      as (r & wr & w1 & Hsetup & Hi & Hpipe & Hs & Hout & Herr & Hta).
    assert (Ht : tally is_caught (trace w1) = 0%nat).
    { pose proof (caught_arrived (trace w1)). lia. }
    unfold SelfPipe.main, bind. rewrite Hsetup.
    destruct n as [|n].
    + destruct (selfpipe_drain L r wr 0 rest ltac:(done) w1 Hi)
        as (w' & Hloop & Hout' & Herr' & Ht'); [by rewrite Hpipe|exact Hs|].
      exists w'. split; [exact Hloop|]. rewrite Hout', Hout, Herr', Herr, Ht', Ht. done.
    + replace (2 * S n + 1)%nat with (S (S (2 * n + 1))) in Hs by lia.
      destruct (selfpipe_round_burst L r wr (S n) w1 Byte.x00 (repeat Byte.x00 n)
                  (carried_out (2 * n + 1) ++ rest) Hi Hs)
        as (w2 & Hit & Hi2 & Hp2 & Hs2 & Hout2 & Herr2 & Ht2).
      { rewrite Hpipe. simpl length. lia. }
      { by rewrite Hpipe. }
      destruct (selfpipe_drain L r wr n rest ltac:(lia) w2 Hi2)
        as (w' & Hloop & Hout' & Herr' & Ht');
        [by rewrite Hp2, repeat_length|exact Hs2|].
      exists w'. rewrite selfpipe_loop_unfold. unfold bind. rewrite Hit.
      split; [exact Hloop|].
      rewrite Hout', Hout2, Hout, Herr', Herr2, Herr, Ht', Ht2, Ht. done.
  - destruct (selfpipe_setup_installed L inherited
                (Coalesced n Normal :: carried_out 3 ++ rest))
      as (r & wr & w1 & Hsetup & Hi & Hpipe & Hs & Hout & Herr & Hta).
    pose proof (caught_arrived (trace w1)) as Hca.
    pose proof (held_merged_arrived (trace w1)) as Hma.
    destruct (selfpipe_poll_coalesced r wr n w1 _ Hi Hs)
      as (w2 & Hpoll & Hi2 & Hp2 & Hs2 & Hout2 & Herr2 & Htc2 & Htm2 & Hta2).
    { rewrite Hpipe. done. }
    rewrite Hpipe in Hp2.
    destruct (selfpipe_handle_signal_byte L r wr w2 Byte.x00 [] _ Hi2 Hs2 Hp2)
      as (w3 & Hhs & Hi3 & Hp3 & Hs3 & Hout3 & Herr3 & _ & Htr3).
    destruct (selfpipe_iteration_timeout L r wr w3 _ Hi3 Hp3 Hs3)
      as (w4 & Hit & Hout4 & Herr4 & Htr4).
    exists w4. unfold SelfPipe.main, bind. rewrite Hsetup.
    rewrite selfpipe_loop_unfold. unfold SelfPipe.iteration at 1, bind. rewrite Hpoll.
    unfold SelfPipe.switch. change (1 =? 0) with false. change (1 =? -1) with false.
    cbv iota. rewrite Hhs. rewrite selfpipe_loop_unfold. unfold bind. rewrite Hit.
    split; [done|].
    rewrite Hout4, Hout3, Hout2, Hout, Herr4, Herr3, Herr2, Herr, Htr4, Htr3, !tally_snoc.
    simpl. repeat split; first [done|lia].
Qed.

Lemma selfpipe_counts_handler_runs_witness :
  Z.of_nat 3 <= pipe_capacity /\
  exists w',
    SelfPipe.main glibc
      (boot stdio (selfpipe_setup_ok ++ burst 3 ++ carried_out (2 * 3 + 1) ++ []))
    = (Exit EXIT_SUCCESS, w') /\
    stdout w' = repeat received_message 3 ++ [timeout_message].
Proof.
  assert (H : Z.of_nat 3 <= pipe_capacity) by (unfold pipe_capacity; lia).
  split; [exact H|].
  destruct (proj1 (selfpipe_counts_handler_runs glibc stdio 3 []) H)
    as (w' & Hrun & Hout & _).
  exists w'. split; [exact Hrun|exact Hout].
Defined.

(* signalfd.c: the first SIGINT of a burst becomes pending *)
Lemma signalfd_take_first fd w :
  waiting fd w ->
  exists w',
    take_sigint SignalFd.no_handler Normal w = (Ret tt, w') /\
    armed fd w' /\ sched w' = sched w /\ stdout w' = stdout w /\ stderr w' = stderr w /\
    tally is_arrival (trace w') = S (tally is_arrival (trace w)) /\
    tally is_held (trace w') = S (tally is_held (trace w)) /\
    tally is_merged (trace w') = tally is_merged (trace w).
Proof.
  intros (Hfd & Hlook & Hblk & Hpend).
  unfold take_sigint. rewrite Hblk, Hpend.
  change (sigismember 0 SIGINT) with false. cbv iota.
  eexists. split; [reflexivity|]. unfold armed. wsimpl.
  rewrite !tally_snoc. simpl. repeat split; first [done|lia].
Qed.

(* and every further one is merged with it *)
Lemma signalfd_take_more fd w :
  armed fd w ->
  exists w',
    take_sigint SignalFd.no_handler Normal w = (Ret tt, w') /\
    armed fd w' /\ sched w' = sched w /\ stdout w' = stdout w /\ stderr w' = stderr w /\
    tally is_arrival (trace w') = S (tally is_arrival (trace w)) /\
    tally is_held (trace w') = tally is_held (trace w) /\
    tally is_merged (trace w') = S (tally is_merged (trace w)).
Proof.
  intros (Hfd & Hlook & Hblk & Hpend).
  unfold take_sigint. rewrite Hblk, Hpend.
  change (sigismember sigint_mask SIGINT) with true. cbv iota.
  eexists. split; [reflexivity|]. unfold armed. wsimpl.
  rewrite !tally_snoc. simpl. repeat split; first [done|lia].
Qed.

Lemma signalfd_enter_merged fd n :
  forall w rep rest,
    armed fd w -> sched w = burst n ++ Complete rep :: rest ->
    exists w',
      enter SignalFd.no_handler w = (Ret rep, w') /\
      armed fd w' /\ sched w' = rest /\ stdout w' = stdout w /\ stderr w' = stderr w /\
      tally is_arrival (trace w') = (tally is_arrival (trace w) + n)%nat /\
      tally is_held (trace w') = tally is_held (trace w) /\
      tally is_merged (trace w') = (tally is_merged (trace w) + n)%nat.
Proof.
  unfold burst. induction n as [|n IH]; intros w rep rest Ha Hs.
  - simpl in Hs. rewrite (enter_complete _ _ _ _ Hs).
    eexists. split; [reflexivity|]. split; [exact Ha|]. wsimpl.
    repeat split; first [done|lia].
  - simpl in Hs. rewrite (enter_sigint _ _ _ _ Hs).
    destruct (signalfd_take_more fd
                (set_sched (repeat (Sigint Normal) n ++ Complete rep :: rest) w))
      as (w1 & Htake & Ha1 & Hs1 & Hout1 & Herr1 & Hta1 & Hth1 & Htm1); [exact Ha|].
    unfold bind. rewrite Htake.
    wsimpl. rewrite <- Hs1, enter_from_sched.
    destruct (IH w1 rep rest Ha1 Hs1)
      as (w' & He & Ha' & Hs' & Hout & Herr & Hta & Hth & Htm).
    rewrite He.
    exists w'. split; [reflexivity|]. split; [exact Ha'|].
    rewrite Hout, Hout1, Herr, Herr1, Hta, Hta1, Hth, Hth1, Htm, Htm1.
    repeat split; first [done|lia].
Qed.

Section SignalFdBurst.
Variable L : libc.

(* the poll that takes a burst, and the read that follows it *)
Lemma signalfd_round_burst fd n w rest :
  waiting fd w ->
  sched w = burst (S n) ++ Complete Normal :: Complete Normal :: rest ->
  exists w1 w',
    SignalFd.wait_ready fd w = (Ret true, w1) /\
    SignalFd.handle_signal L fd w1 = (Ret tt, w') /\
    waiting fd w' /\ sched w' = rest /\
    stdout w' = stdout w ++ [sigint_line L] /\ stderr w' = stderr w /\
    tally is_arrival (trace w') = (tally is_arrival (trace w) + S n)%nat /\
    tally is_held (trace w') = S (tally is_held (trace w)) /\
    tally is_merged (trace w') = (tally is_merged (trace w) + n)%nat.
Proof using Type.
  intros Hw Hs. unfold burst in Hs. simpl in Hs.
  unfold SignalFd.wait_ready, poll, blocking, poll_with, bind at 1 2.
  rewrite (enter_sigint _ _ _ _ Hs).
  destruct (signalfd_take_first fd
              (set_sched (repeat (Sigint Normal) n ++ Complete Normal :: Complete Normal :: rest)
                 w))
    as (w0 & Htake & Ha0 & Hs0 & Hout0 & Herr0 & Hta0 & Hth0 & Htm0); [exact Hw|].
  unfold bind at 1. rewrite Htake. wsimpl. rewrite <- Hs0, enter_from_sched.
  destruct (signalfd_enter_merged fd n w0 Normal (Complete Normal :: rest) Ha0 Hs0)
    as (w1 & He & (Hfd & Hlook & Hblk & Hpend) & Hs1 & Hout1 & Herr1 & Hta1 & Hth1 & Htm1).
  rewrite He.
  unfold do_poll, readable. rewrite Hlook. cbn [f_kind]. rewrite Hpend.
  destruct (fd <? 0) eqn:Hneg; [lia|].
  change (negb (Z.land POLLIN POLLIN =? 0) &&
          negb (Z.land sigint_mask sigint_mask =? 0)) with true. cbv iota.
  unfold answer, ret. change (1 >? 0) with true.
  eexists. eexists. split; [reflexivity|].
  unfold SignalFd.handle_signal, read, blocking, read_with, bind at 1 2 3.
  erewrite enter_complete by (wsimpl; exact Hs1).
  unfold do_read. wsimpl. rewrite Hlook. cbn [f_kind f_status].
  change (sizeof_siginfo <? sizeof_siginfo) with false. cbv iota.
  rewrite Hpend.
  change (sigismember (Z.land sigint_mask sigint_mask) SIGINT) with true. cbv iota.
  unfold bind, answer, ret. wsimpl.
  change (negb (sizeof_siginfo =? sizeof_siginfo)) with false. cbv iota.
  rewrite sigint_line_eq. unfold printf, modify.
  split; [reflexivity|].
  unfold waiting. wsimpl. rewrite !tally_snoc, Hout1, Hout0, Herr1, Herr0. simpl.
  rewrite Hta1, Hta0, Hth1, Hth0, Htm1, Htm0.
  repeat split; first [done|lia].
Qed.

End SignalFdBurst.

(** X15.  signalfd.c does not count the SIGINTs of a burst: when n + 1 of
    them come with nothing between them, the first becomes pending and the
    others are merged with it, and the loop, with its calls carried out,
    reads one record and prints one line; the next poll times out and main
    returns 0. *)
Theorem signalfd_burst_one_line (L : libc) (inherited : gmap Z file) (n : nat)
    (rest : list event) :
  exists w',
    SignalFd.main L
      (boot inherited (signalfd_setup_ok ++ burst (S n) ++ carried_out 3 ++ rest))
    = (Ret 0, w') /\
    stdout w' = [sigint_line L] /\
    stderr w' = [] /\
    tally is_arrival (trace w') = S n /\
    tally is_held (trace w') = 1%nat /\
    tally is_merged (trace w') = n.
Proof.
  destruct (signalfd_setup_normal inherited (burst (S n) ++ carried_out 3 ++ rest))
    as (fd & w1 & Hsetup & Hw & Hs & Hout & Herr & Ht).
  assert (Htr : tally is_held (trace w1) = 0%nat /\ tally is_merged (trace w1) = 0%nat).
  { assert (Hle : forall tr, (tally is_held tr + tally is_merged tr <= tally is_arrival tr)%nat).
    { induction tr as [|e tr IH] using rev_ind; [done|].
      rewrite !tally_snoc. destruct e as [|[]]; simpl; lia. }
    specialize (Hle (trace w1)). lia. }
  destruct Htr as [Hth Htm].
  destruct (signalfd_round_burst L fd n w1 (Complete Normal :: rest) Hw Hs)
    as (w2 & w3 & Hwait & Hhs & Hw3 & Hs3 & Hout3 & Herr3 & Hta3 & Hth3 & Htm3).
  destruct (signalfd_last_round fd w3 rest Hw3 Hs3)
    as (w4 & Hwait4 & Hout4 & Herr4 & Hta4 & Htr4).
  assert (Hlast : tally is_held (trace w4) = tally is_held (trace w3) /\
                  tally is_merged (trace w4) = tally is_merged (trace w3)).
  { rewrite Htr4, !tally_snoc. simpl. lia. }
  destruct Hlast as [Hth4 Htm4].
  exists w4. unfold SignalFd.main, bind. rewrite Hsetup.
  rewrite signalfd_loop_unfold. unfold bind. rewrite Hwait. rewrite Hhs.
  rewrite signalfd_loop_unfold. unfold bind. rewrite Hwait4.
  split; [reflexivity|].
  rewrite Hout4, Hout3, Hout, Herr4, Herr3, Herr, Hta4, Hta3, Ht, Hth4, Hth3, Hth,
    Htm4, Htm3, Htm.
  repeat split; first [done|lia].
Qed.

(** ** Writes of the handler that fail *)

(* a SIGINT whose write fails leaves the pipe as it is *)
Lemma selfpipe_take_sigint_lost r wr e w :
  installed r wr w ->
  exists w',
    take_sigint SelfPipe.on_sigint (Fault e) w = (Ret tt, w') /\
    installed r wr w' /\
    k_pipe (kern w') = k_pipe (kern w) /\
    sched w' = sched w /\ stdout w' = stdout w /\ stderr w' = stderr w /\
    tally is_caught (trace w') = S (tally is_caught (trace w)).
Proof.
  intros ((Hfds & Hr & Hrd & Hwr & Hblk) & Hsig).
  unfold take_sigint. rewrite Hblk, Hsig.
  unfold SelfPipe.on_sigint, SelfPipe.signal_action, bind, gets, write, answer, ret.
  eexists. split; [reflexivity|]. unfold installed, wired. wsimpl.
  rewrite !tally_snoc. simpl. repeat split; first [done|lia].
Qed.

Lemma selfpipe_enter_lost r wr e n :
  forall w rep rest,
    installed r wr w -> sched w = lost_burst e n ++ Complete rep :: rest ->
    exists w',
      enter SelfPipe.on_sigint w = (Ret rep, w') /\
      installed r wr w' /\
      k_pipe (kern w') = k_pipe (kern w) /\
      sched w' = rest /\ stdout w' = stdout w /\ stderr w' = stderr w /\
      tally is_caught (trace w') = (tally is_caught (trace w) + n)%nat.
Proof.
  unfold lost_burst. induction n as [|n IH]; intros w rep rest Hi Hs.
  - simpl in Hs. rewrite (enter_complete _ _ _ _ Hs).
    eexists. split; [reflexivity|]. split; [exact Hi|]. wsimpl.
    repeat split; first [done|lia].
  - simpl in Hs. rewrite (enter_sigint _ _ _ _ Hs).
    destruct (selfpipe_take_sigint_lost r wr e
                (set_sched (repeat (Sigint (Fault e)) n ++ Complete rep :: rest) w))
      as (w1 & Htake & Hi1 & Hp1 & Hs1 & Hout1 & Herr1 & Ht1); [exact Hi|].
    unfold bind. rewrite Htake.
    wsimpl. rewrite <- Hs1, enter_from_sched.
    destruct (IH w1 rep rest Hi1 Hs1) as (w' & He & Hi' & Hp & Hs' & Hout & Herr & Ht).
    rewrite He.
    exists w'. split; [reflexivity|]. split; [exact Hi'|].
    rewrite Hp, Hp1, Ht, Ht1, Hout, Hout1, Herr, Herr1.
    repeat split; first [done|lia].
Qed.

(** X16.  A SIGINT whose write fails in signal_action is lost: the handler
    drops the result of write, no byte reaches the pipe, and the loop never
    hears of the signal.  When n SIGINTs come whose writes all fail, the
    handler has run n times, and the poll that follows, carried out, finds
    the pipe empty: the program prints the timeout message alone and
    exits with EXIT_SUCCESS. *)
Theorem selfpipe_failed_writes_lose_signals (L : libc) (inherited : gmap Z file)
    (e : Z) (n : nat) (rest : list event) :
  exists w',
    SelfPipe.main L
      (boot inherited (selfpipe_setup_ok ++ lost_burst e n ++ Complete Normal :: rest))
    = (Exit EXIT_SUCCESS, w') /\
    stdout w' = [timeout_message] /\
    tally is_caught (trace w') = n /\
    k_pipe (kern w') = [].
Proof.
  destruct (selfpipe_setup_normal L inherited (lost_burst e n ++ Complete Normal :: rest))
    as (r & wr & w1 & Hsetup & (Hw & Hsig & Hpipe) & Hs & Hout & Ht & Hta).
  assert (Hi : installed r wr w1) by done.
  destruct (selfpipe_enter_lost r wr e n w1 Normal rest Hi Hs)
    as (w2 & He & ((Hfds & Hr & Hrd & Hwr & Hblk) & Hsig2) & Hp2 & Hs2 & Hout2 & Herr2 & Ht2).
  unfold SelfPipe.main, bind. rewrite Hsetup.
  rewrite selfpipe_loop_unfold.
  unfold SelfPipe.iteration, poll, blocking, poll_with, bind. rewrite He.
  unfold do_poll, readable. rewrite Hrd. cbn [f_kind]. rewrite Hp2, Hpipe.
  destruct (r <? 0) eqn:Hneg; [lia|].
  change (negb (Z.land POLLIN POLLIN =? 0) && false) with false. cbv iota.
  change (5000 <? 0) with false. cbv iota.
  unfold answer, SelfPipe.switch. change (0 =? 0) with true. cbv iota.
  unfold printf, modify, exit.
  eexists. split; [reflexivity|]. wsimpl.
  rewrite tally_snoc, Hout2, Hout, Ht2, Ht, Hp2, Hpipe. simpl.
  repeat split; first [done|lia].
Qed.

(** ** The calls of the two loops *)

Section Grown.
Variable tr0 : list entry.
Variable ok : entry -> bool.



End Grown.

Section LoopCalls.
Variable L : libc.



End LoopCalls.





(** ** How much the pipe holds *)













Section PipeBound.
Variable L : libc.



End PipeBound.


(** ** When the signals stop, the programs end *)

(* a quiet schedule that holds a completion begins with a burst and the
   completion *)
Lemma quiet_split s :
  Forall (fun ev => quiet ev = true) s -> (1 <= completions s)%nat ->
  exists j s',
    s = burst j ++ Complete Normal :: s' /\
    Forall (fun ev => quiet ev = true) s' /\
    signals s = (j + signals s')%nat /\
    completions s = S (completions s').
Proof.
  induction s as [|ev s IH]; intros Hq Hc; simpl in Hc; [lia|].
  apply Forall_cons in Hq as [Hev Hq].
  destruct ev as [rep|rep|k rep]; destruct rep; try discriminate.
  - destruct (IH Hq Hc) as (j & s' & -> & Hq' & Hs & Hc').
    exists (S j), s'. simpl. rewrite Hs, Hc'. done.
  - exists 0%nat, s. done.
Qed.

Section SignalsStop.
Variable L : libc.

(* handle_signal when the pipe holds a byte once the signals that come
   before the read completes have been taken *)
Lemma selfpipe_handle_signal_burst r wr n w b bs rest :
  installed r wr w -> sched w = burst n ++ Complete Normal :: rest ->
  Z.of_nat (length (k_pipe (kern w)) + n) <= pipe_capacity ->
  k_pipe (kern w) ++ repeat Byte.x00 n = b :: bs ->
  exists w',
    SelfPipe.handle_signal L r w = (Ret tt, w') /\
    installed r wr w' /\ k_pipe (kern w') = bs /\
    sched w' = rest /\ stdout w' = stdout w ++ [received_message] /\ stderr w' = stderr w /\
    tally is_caught (trace w') = (tally is_caught (trace w) + n)%nat.
Proof using Type.
  intros Hi Hs Hroom Hp.
  destruct (selfpipe_enter_burst r wr n w Normal rest Hi Hs Hroom)
    as (w1 & He & Hi1 & Hp1 & Hs1 & Hout1 & Herr1 & Ht1).
  unfold SelfPipe.handle_signal, read, blocking, read_with, bind at 1 2 3. rewrite He.
  destruct Hi1 as ((Hfds & Hr & Hrd & Hwr & Hblk) & Hsig).
  unfold do_read. rewrite Hrd. cbn [f_kind f_status]. rewrite Hp1, Hp.
  unfold bind, answer, ret. wsimpl.
  change (Z.to_nat 1) with 1%nat. cbn [take length drop].
  change (negb (Z.of_nat 1 =? 1)) with false. cbv iota.
  unfold printf, modify.
  eexists. split; [reflexivity|]. unfold installed, wired. wsimpl.
  rewrite tally_snoc, drop_0, Hout1, Herr1, Ht1. simpl.
  repeat split; first [done|lia].
Qed.

(* the poll that finds the pipe empty *)
Lemma selfpipe_timeout r wr w rest :
  installed r wr w -> k_pipe (kern w) = [] -> sched w = Complete Normal :: rest ->
  exists w',
    @forever Z (SelfPipe.iteration L r) w = (Exit EXIT_SUCCESS, w') /\
    stdout w' = stdout w ++ [timeout_message] /\ stderr w' = stderr w /\
    tally is_caught (trace w') = tally is_caught (trace w).
Proof using Type.
  intros Hi Hp Hs.
  destruct (selfpipe_drain L r wr 0 rest ltac:(done) w Hi) as (w' & Hloop & Hout & Herr & Ht);
    [by rewrite Hp|exact Hs|].
  exists w'. done.
Qed.

(* the loop of selfpipetrick.c on a quiet schedule with two completions
   for each byte and each signal, and one more, when the pipe has room for
   the bytes of all the signals *)
Lemma selfpipe_settles r wr m :
  Z.of_nat m <= pipe_capacity ->
  forall w s rest,
    installed r wr w -> Forall (fun ev => quiet ev = true) s ->
    sched w = s ++ rest ->
    (length (k_pipe (kern w)) + signals s = m)%nat ->
    (2 * m + 1 <= completions s)%nat ->
    exists w' j,
      @forever Z (SelfPipe.iteration L r) w = (Exit EXIT_SUCCESS, w') /\
      stdout w' = stdout w ++ repeat received_message (length (k_pipe (kern w)) + j)
                  ++ [timeout_message] /\
      stderr w' = stderr w /\
      tally is_caught (trace w') = (tally is_caught (trace w) + j)%nat /\
      (j <= signals s)%nat.
Proof using Type.
  induction m as [|m IH]; intros Hroom w s rest Hi Hq Hs Hm Hc.
  - destruct (quiet_split s Hq) as (j & s1 & Es & Hq1 & Hsig & Hc1); [lia|].
    assert (j = 0%nat) as -> by lia. rewrite Es in Hs. simpl in Hs.
    assert (Hp : k_pipe (kern w) = []) by (apply length_zero_iff_nil; lia).
    destruct (selfpipe_timeout r wr w (s1 ++ rest) Hi Hp Hs) as (w' & Hloop & Hout & Herr & Ht).
    exists w', 0%nat. rewrite Hp. simpl. split; [done|]. split; [done|]. split; [done|].
    split; lia.
  - destruct (quiet_split s Hq) as (j1 & s1 & Es & Hq1 & Hsig1 & Hc1); [lia|].
    rewrite Es, <- app_assoc in Hs. simpl in Hs.
    destruct (k_pipe (kern w) ++ repeat Byte.x00 j1) as [|b bs] eqn:Hp.
    + (* nothing in the pipe and no signal before the poll: the timeout *)
      apply app_eq_nil in Hp as [Hp Hj]. destruct j1; [|discriminate].
      simpl in Hs.
      destruct (selfpipe_timeout r wr w (s1 ++ rest) Hi Hp Hs)
        as (w' & Hloop & Hout & Herr & Ht).
      exists w', 0%nat. rewrite Hp. simpl. split; [done|]. split; [done|]. split; [done|].
      split; lia.
    + destruct (quiet_split s1 Hq1) as (j2 & s2 & Es1 & Hq2 & Hsig2 & Hc2); [lia|].
      rewrite Es1, <- app_assoc in Hs. simpl in Hs.
      assert (Hlen : (length (k_pipe (kern w)) + j1 = S (length bs))%nat).
      { apply (f_equal length) in Hp. rewrite length_app, repeat_length in Hp.
        simpl in Hp. lia. }
      destruct (selfpipe_poll_burst r wr j1 w b bs _ Hi Hs ltac:(lia) Hp)
        as (w1 & Hpoll & Hi1 & Hp1 & Hs1 & Hout1 & Herr1 & Ht1).
      destruct (selfpipe_handle_signal_burst r wr j2 w1 b (bs ++ repeat Byte.x00 j2)
                  (s2 ++ rest) Hi1 Hs1)
        as (w2 & Hhs & Hi2 & Hp2 & Hs2 & Hout2 & Herr2 & Ht2).
      { rewrite Hp1. simpl length. lia. }
      { rewrite Hp1. done. }
      assert (Hlen2 : length (k_pipe (kern w2)) = (length bs + j2)%nat).
      { by rewrite Hp2, length_app, repeat_length. }
      destruct (IH ltac:(lia) w2 s2 rest Hi2 Hq2 Hs2)
        as (w' & j & Hloop & Hout & Herr & Ht & Hj'); [lia|lia|].
      exists w', (j1 + j2 + j)%nat.
      rewrite selfpipe_loop_unfold. unfold SelfPipe.iteration, bind. rewrite Hpoll.
      unfold SelfPipe.switch. change (1 =? 0) with false. change (1 =? -1) with false.
      cbv iota. rewrite Hhs. split; [exact Hloop|].
      rewrite Hout, Hout2, Hout1, Herr, Herr2, Herr1, Ht, Ht2, Ht1, Hlen2.
      rewrite <- app_assoc.
      replace (length (k_pipe (kern w)) + (j1 + j2 + j))%nat
        with (S (length bs + j2 + j)) by lia. simpl.
      split; [done|]. split; [done|]. split; lia.
Qed.

End SignalsStop.

(** X20.  selfpipetrick.c ends by its timeout when the signals stop: after
    a set-up whose calls are carried out, let SIGINTs, each taken by the
    process before the next is generated, and completions of calls come in
    any order, every call being carried out, with two completions for each
    SIGINT and one more, and no more SIGINTs than the 65536 bytes the pipe
    has room for, so that every write of the handler is carried out.  Then
    the program reaches exit(EXIT_SUCCESS); it has printed one "Received
    signal" line for each SIGINT it caught, then the timeout message, and
    nothing on stderr. *)
Theorem selfpipe_times_out_when_signals_stop (L : libc) (inherited : gmap Z file)
    (s rest : list event) :
  forallb quiet s = true ->
  (2 * signals s + 1 <= completions s)%nat ->
  Z.of_nat (signals s) <= pipe_capacity ->
  exists w',
    SelfPipe.main L (boot inherited (selfpipe_setup_ok ++ s ++ rest))
    = (Exit EXIT_SUCCESS, w') /\
    stdout w' = repeat received_message (tally is_caught (trace w')) ++ [timeout_message] /\
    stderr w' = [] /\
    (tally is_caught (trace w') <= signals s)%nat.
Proof.
  intros Hquiet Hc Hroom.
  assert (Hq : Forall (fun ev => quiet ev = true) s).
  { apply Forall_forall. intros ev Hin.
    rewrite forallb_forall in Hquiet. apply Hquiet. by apply list_elem_of_In. }
  destruct (selfpipe_setup_normal L inherited (s ++ rest))
    as (r & wr & w1 & Hsetup & (Hw & Hsig & Hpipe) & Hs & Hout & Ht & Hta).
  assert (Herr : stderr w1 = []).
  { pose proof (selfpipe_setup_post L False
                  (boot inherited (selfpipe_setup_ok ++ s ++ rest))) as Hpost.
    rewrite Hsetup in Hpost. simpl in Hpost.
    destruct Hpost as (wr' & _ & _ & _ & _ & _ & Herr); [|exact Herr].
    apply boot_starting. apply Forall_forall. tauto. }
  assert (Hi : installed r wr w1) by done.
  destruct (selfpipe_settles L r wr (signals s) Hroom w1 s rest Hi Hq Hs)
    as (w' & j & Hloop & Hout' & Herr' & Ht' & Hj); [by rewrite Hpipe|exact Hc|].
  exists w'. unfold SelfPipe.main, bind. rewrite Hsetup.
  split; [exact Hloop|].
  rewrite Hout', Hout, Herr', Herr, Ht', Ht, Hpipe. simpl.
  split; [done|]. split; [done|lia].
Qed.

Lemma selfpipe_times_out_when_signals_stop_witness :
  forallb quiet mixed_run = true /\
  (2 * signals mixed_run + 1 <= completions mixed_run)%nat /\
  Z.of_nat (signals mixed_run) <= pipe_capacity /\
  exists w',
    SelfPipe.main glibc (boot stdio (selfpipe_setup_ok ++ mixed_run ++ []))
    = (Exit EXIT_SUCCESS, w') /\
    stderr w' = [].
Proof.
  assert (Hq : forallb quiet mixed_run = true) by reflexivity.
  assert (Hc : (2 * signals mixed_run + 1 <= completions mixed_run)%nat) by (simpl; lia).
  assert (Hr : Z.of_nat (signals mixed_run) <= pipe_capacity) by (vm_compute; discriminate).
  split; [exact Hq|]. split; [exact Hc|]. split; [exact Hr|].
  destruct (selfpipe_times_out_when_signals_stop glibc stdio mixed_run [] Hq Hc Hr)
    as (w' & Hrun & _ & Herr & _).
  exists w'. split; [exact Hrun|exact Herr].
Defined.

Section SignalsStopSignalFd.
Variable L : libc.

(* one round of the loop of signalfd.c: signals before the poll completes,
   one of them at least, and signals before the read completes *)
Lemma signalfd_round_bursts fd n j w rest :
  waiting fd w ->
  sched w = burst (S n) ++ Complete Normal :: burst j ++ Complete Normal :: rest ->
  exists w1 w',
    SignalFd.wait_ready fd w = (Ret true, w1) /\
    SignalFd.handle_signal L fd w1 = (Ret tt, w') /\
    waiting fd w' /\ sched w' = rest /\
    stdout w' = stdout w ++ [sigint_line L] /\ stderr w' = stderr w /\
    tally is_arrival (trace w') = (tally is_arrival (trace w) + S n + j)%nat /\
    tally is_held (trace w') = S (tally is_held (trace w)) /\
    tally is_merged (trace w') = (tally is_merged (trace w) + n + j)%nat.
Proof using Type.
  intros Hw Hs. unfold burst in Hs. simpl in Hs.
  unfold SignalFd.wait_ready, poll, blocking, poll_with, bind at 1 2.
  rewrite (enter_sigint _ _ _ _ Hs).
  destruct (signalfd_take_first fd
              (set_sched (repeat (Sigint Normal) n ++
                          Complete Normal :: repeat (Sigint Normal) j ++
                          Complete Normal :: rest) w))
    as (w0 & Htake & Ha0 & Hs0 & Hout0 & Herr0 & Hta0 & Hth0 & Htm0); [exact Hw|].
  unfold bind at 1. rewrite Htake. wsimpl. rewrite <- Hs0, enter_from_sched.
  destruct (signalfd_enter_merged fd n w0 Normal
              (repeat (Sigint Normal) j ++ Complete Normal :: rest) Ha0 Hs0)
    as (w1 & He & (Hfd & Hlook & Hblk & Hpend) & Hs1 & Hout1 & Herr1 & Hta1 & Hth1 & Htm1).
  rewrite He.
  unfold do_poll, readable. rewrite Hlook. cbn [f_kind]. rewrite Hpend.
  destruct (fd <? 0) eqn:Hneg; [lia|].
  change (negb (Z.land POLLIN POLLIN =? 0) &&
          negb (Z.land sigint_mask sigint_mask =? 0)) with true. cbv iota.
  unfold answer, ret. change (1 >? 0) with true.
  destruct (signalfd_enter_merged fd j
              (log (Called (Poll fd POLLIN 5000) (Done 1)) w1) Normal rest)
    as (w2 & He2 & (_ & Hlook2 & Hblk2 & Hpend2) & Hs2 & Hout2 & Herr2
        & Hta2 & Hth2 & Htm2); [by repeat split|exact Hs1|].
  eexists. eexists. split; [reflexivity|].
  unfold SignalFd.handle_signal, read, blocking, read_with, bind at 1 2 3. rewrite He2.
  unfold do_read. rewrite Hlook2. cbn [f_kind f_status].
  change (sizeof_siginfo <? sizeof_siginfo) with false. cbv iota.
  rewrite Hpend2.
  change (sigismember (Z.land sigint_mask sigint_mask) SIGINT) with true. cbv iota.
  unfold bind, answer, ret. wsimpl.
  change (negb (sizeof_siginfo =? sizeof_siginfo)) with false. cbv iota.
  rewrite sigint_line_eq. unfold printf, modify.
  split; [reflexivity|].
  unfold waiting. wsimpl. rewrite !tally_snoc, Hout2, Herr2, Hta2, Hth2, Htm2. wsimpl.
  rewrite !tally_snoc, Hout1, Hout0, Herr1, Herr0, Hta1, Hta0, Hth1, Hth0, Htm1, Htm0.
  simpl. repeat split; first [done|lia].
Qed.

(* a poll that is carried out with no signal before it ends the loop *)
Lemma signalfd_loop_ends fd w rest :
  waiting fd w -> sched w = Complete Normal :: rest ->
  exists w',
    SignalFd.event_loop L fd w = (Ret tt, w') /\
    stdout w' = stdout w /\ stderr w' = stderr w /\
    tally is_held (trace w') = tally is_held (trace w) /\
    tally is_merged (trace w') = tally is_merged (trace w) /\
    tally is_arrival (trace w') = tally is_arrival (trace w).
Proof using Type.
  intros Hw Hs.
  destruct (signalfd_last_round fd w rest Hw Hs) as (w' & Hwait & Hout & Herr & Hta & Htr).
  exists w'. rewrite signalfd_loop_unfold. unfold bind. rewrite Hwait.
  split; [reflexivity|].
  rewrite Htr, !tally_snoc. simpl. repeat split; first [done|lia].
Qed.

(* the loop of signalfd.c on a quiet schedule with two completions for
   each signal and one more *)
Lemma signalfd_settles fd m :
  forall w s rest,
    waiting fd w -> Forall (fun ev => quiet ev = true) s ->
    sched w = s ++ rest ->
    (signals s <= m)%nat ->
    (2 * signals s + 1 <= completions s)%nat ->
    exists w' k j,
      SignalFd.event_loop L fd w = (Ret tt, w') /\
      stdout w' = stdout w ++ repeat (sigint_line L) k /\
      stderr w' = stderr w /\
      tally is_held (trace w') = (tally is_held (trace w) + k)%nat /\
      tally is_merged (trace w') = (tally is_merged (trace w) + j)%nat /\
      tally is_arrival (trace w') = (tally is_arrival (trace w) + k + j)%nat /\
      (k + j <= signals s)%nat.
Proof using Type.
  assert (Hend : forall w s1 rest,
            waiting fd w -> sched w = Complete Normal :: s1 ++ rest ->
            forall n, exists w' k j,
              SignalFd.event_loop L fd w = (Ret tt, w') /\
              stdout w' = stdout w ++ repeat (sigint_line L) k /\
              stderr w' = stderr w /\
              tally is_held (trace w') = (tally is_held (trace w) + k)%nat /\
              tally is_merged (trace w') = (tally is_merged (trace w) + j)%nat /\
              tally is_arrival (trace w') = (tally is_arrival (trace w) + k + j)%nat /\
              (k + j <= n)%nat).
  { intros w s1 rest Hw Hs n.
    destruct (signalfd_loop_ends fd w (s1 ++ rest) Hw Hs)
      as (w' & Hloop & Hout & Herr & Hth & Htm & Hta).
    exists w', 0%nat, 0%nat. simpl. rewrite app_nil_r.
    repeat split; first [done|lia]. }
  induction m as [|m IH]; intros w s rest Hw Hq Hs Hm Hc;
    destruct (quiet_split s Hq) as (j1 & s1 & Es & Hq1 & Hsig1 & Hc1); try lia;
    rewrite Es in Hs; rewrite <- app_assoc in Hs; simpl in Hs;
    (destruct j1 as [|j1]; [by apply (Hend w s1 rest)|]); [lia|].
  destruct (quiet_split s1 Hq1) as (j2 & s2 & Es1 & Hq2 & Hsig2 & Hc2); [lia|].
  rewrite Es1 in Hs. rewrite <- app_assoc in Hs. simpl in Hs.
  destruct (signalfd_round_bursts fd j1 j2 w (s2 ++ rest) Hw Hs)
    as (w1 & w2 & Hwait & Hhs & Hw2 & Hs2 & Hout2 & Herr2 & Hta2 & Hth2 & Htm2).
  destruct (IH w2 s2 rest Hw2 Hq2 Hs2)
    as (w' & k & j & Hloop & Hout & Herr & Hth & Htm & Hta & Hkj); [lia|lia|].
  exists w', (S k), (j1 + j2 + j)%nat.
  rewrite signalfd_loop_unfold. unfold bind. rewrite Hwait, Hhs.
  split; [exact Hloop|].
  rewrite Hout, Hout2, Herr, Herr2, Hth, Hth2, Htm, Htm2, Hta, Hta2, <- app_assoc.
  simpl. repeat split; first [done|lia].
Qed.

End SignalsStopSignalFd.

(** X21.  signalfd.c ends when the signals stop: after a set-up whose calls
    are carried out, let SIGINTs and completions of calls come in any
    order, every call being carried out, with two completions for each
    SIGINT and one more.  Then main returns 0; the program has printed one
    line for each SIGINT that was held as pending, none for those that were
    merged, and nothing on stderr. *)
Theorem signalfd_returns_when_signals_stop (L : libc) (inherited : gmap Z file)
    (s rest : list event) :
  forallb quiet s = true ->
  (2 * signals s + 1 <= completions s)%nat ->
  exists w',
    SignalFd.main L (boot inherited (signalfd_setup_ok ++ s ++ rest)) = (Ret 0, w') /\
    stdout w' = repeat (sigint_line L) (tally is_held (trace w')) /\
    stderr w' = [] /\
    tally is_arrival (trace w')
    = (tally is_held (trace w') + tally is_merged (trace w'))%nat /\
    (tally is_arrival (trace w') <= signals s)%nat.
Proof.
  intros Hquiet Hc.
  assert (Hq : Forall (fun ev => quiet ev = true) s).
  { apply Forall_forall. intros ev Hin.
    rewrite forallb_forall in Hquiet. apply Hquiet. by apply list_elem_of_In. }
  destruct (signalfd_setup_normal inherited (s ++ rest))
    as (fd & w1 & Hsetup & Hw & Hs & Hout & Herr & Ht).
  pose proof (held_merged_arrived (trace w1)) as Hle.
  destruct (signalfd_settles L fd (signals s) w1 s rest Hw Hq Hs)
    as (w' & k & j & Hloop & Hout' & Herr' & Hth & Htm & Hta & Hkj); [lia|exact Hc|].
  exists w'. unfold SignalFd.main, bind. rewrite Hsetup, Hloop.
  split; [reflexivity|].
  rewrite Hout', Hout, Herr', Herr, Hth, Htm, Hta.
  replace (tally is_held (trace w1)) with 0%nat by lia.
  replace (tally is_merged (trace w1)) with 0%nat by lia.
  rewrite Ht. simpl. repeat split; first [done|lia].
Qed.

Lemma signalfd_returns_when_signals_stop_witness :
  forallb quiet mixed_run = true /\
  (2 * signals mixed_run + 1 <= completions mixed_run)%nat /\
  exists w',
    SignalFd.main glibc (boot stdio (signalfd_setup_ok ++ mixed_run ++ [])) = (Ret 0, w') /\
    stderr w' = [].
Proof.
  assert (Hq : forallb quiet mixed_run = true) by reflexivity.
  assert (Hc : (2 * signals mixed_run + 1 <= completions mixed_run)%nat) by (simpl; lia).
  split; [exact Hq|]. split; [exact Hc|].
  destruct (signalfd_returns_when_signals_stop glibc stdio mixed_run [] Hq Hc)
    as (w' & Hrun & _ & Herr & _).
  exists w'. split; [exact Hrun|exact Herr].
Defined.

(** ** A pipe that is full *)

(* the SIGINTs of a burst, while the pipe has room, whatever comes after
   them *)
Lemma selfpipe_enter_from_burst r wr n :
  forall w evs,
    installed r wr w ->
    Z.of_nat (length (k_pipe (kern w)) + n) <= pipe_capacity ->
    exists w1,
      enter_from SelfPipe.on_sigint (burst n ++ evs) w
      = enter_from SelfPipe.on_sigint evs w1 /\
      installed r wr w1 /\
      k_pipe (kern w1) = k_pipe (kern w) ++ repeat Byte.x00 n /\
      stdout w1 = stdout w /\ stderr w1 = stderr w /\
      tally is_caught (trace w1) = (tally is_caught (trace w) + n)%nat.
Proof.
  unfold burst. induction n as [|n IH]; intros w evs Hi Hroom.
  - exists w. simpl. rewrite app_nil_r.
    split; [done|]. split; [done|]. repeat split; lia.
  - destruct (selfpipe_take_sigint_byte r wr
                (set_sched (repeat (Sigint Normal) n ++ evs) w))
      as (w1 & Htake & Hi1 & Hp1 & Hs1 & Hout1 & Herr1 & Ht1 & _); [exact Hi|wsimpl; lia|].
    destruct (IH w1 evs Hi1) as (w2 & He & Hi2 & Hp2 & Hout2 & Herr2 & Ht2).
    { rewrite Hp1, length_app. wsimpl. simpl. lia. }
    exists w2.
    change (enter_from SelfPipe.on_sigint (repeat (Sigint Normal) (S n) ++ evs) w)
      with ((take_sigint SelfPipe.on_sigint Normal ;;;
             enter_from SelfPipe.on_sigint (repeat (Sigint Normal) n ++ evs))
              (set_sched (repeat (Sigint Normal) n ++ evs) w)).
    unfold bind. rewrite Htake. split; [exact He|]. split; [exact Hi2|].
    rewrite Hp2, Hp1, <- app_assoc, Ht2, Ht1, Hout2, Hout1, Herr2, Herr1. wsimpl. simpl.
    repeat split; first [done|lia].
Qed.

(** X22.  selfpipetrick.c stops for good when a SIGINT finds the pipe full.
    The write end is a blocking descriptor, F_SETFD having left it so, and
    the write of the handler waits for room in the pipe; room is made by
    the read of the main program only, which does not run while the handler
    does, and SIGINT is blocked while the handler runs.  After a set-up
    whose calls are carried out, let as many SIGINTs as the pipe holds
    bytes, 65536, be taken one after the other before the first poll
    completes, and then one more: its handler does not return from its
    write.  The program has printed nothing, and it prints nothing and
    does not exit, whatever comes later. *)
Theorem selfpipe_full_pipe_blocks_handler (L : libc) (inherited : gmap Z file)
    (rest : list event) :
  exists w',
    SelfPipe.main L
      (boot inherited
         (selfpipe_setup_ok ++ burst (Z.to_nat pipe_capacity) ++ Sigint Normal :: rest))
    = (Pending, w') /\
    stdout w' = [] /\ stderr w' = [] /\
    Z.of_nat (length (k_pipe (kern w'))) = pipe_capacity /\
    tally is_caught (trace w') = S (Z.to_nat pipe_capacity) /\
    sched w' = rest.
Proof.
  assert (Hcap : Z.of_nat (Z.to_nat pipe_capacity) = pipe_capacity).
  { apply Z2Nat.id. unfold pipe_capacity. lia. }
  destruct (selfpipe_setup_installed L inherited
              (burst (Z.to_nat pipe_capacity) ++ Sigint Normal :: rest))
    as (r & wr & w1 & Hsetup & Hi & Hpipe & Hs & Hout & Herr & Hta).
  pose proof (caught_arrived (trace w1)) as Hca.
  destruct (selfpipe_enter_from_burst r wr (Z.to_nat pipe_capacity) w1
              (Sigint Normal :: rest) Hi)
    as (w2 & He & Hi2 & Hp2 & Hout2 & Herr2 & Ht2).
  { rewrite Hpipe. cbn [length]. lia. }
  pose proof Hi2 as ((Hfds & Hr & Hrd & Hwr & Hblk) & Hsig).
  unfold SelfPipe.main, bind at 1. rewrite Hsetup.
  rewrite selfpipe_loop_unfold.
  unfold SelfPipe.iteration, poll, blocking, bind at 1 2 3, enter. rewrite Hs, He.
  change (enter_from SelfPipe.on_sigint (Sigint Normal :: rest) w2)
    with ((take_sigint SelfPipe.on_sigint Normal ;;; enter_from SelfPipe.on_sigint rest)
            (set_sched rest w2)).
  unfold bind at 1, take_sigint. wsimpl. rewrite Hblk, Hsig. unfold SelfPipe.on_sigint.
  rewrite (signal_action_pipe SIGINT Normal wr 0);
    [|by cbn [pipefds log set_sched]; rewrite Hfds|exact Hwr].
  wsimpl. rewrite Hp2, Hpipe, app_nil_l, repeat_length, Hcap, Z.ltb_irrefl.
  eexists. split; [reflexivity|]. wsimpl.
  rewrite Hp2, Hpipe, app_nil_l, repeat_length, tally_snoc, Ht2, Hout2, Herr2. simpl.
  repeat split; first [done|lia].
Qed.
